(** * Kiln datamodel: validators and dataset splits

    A shallow embedding of [libs/core/kiln_ai/datamodel/__init__.py]:
    the rating taxonomy, the data-source property registry, the
    [TaskRun] validators with their change cache, and the
    [DatasetSplit] builder.

    Python values are modelled as follows.
    - [float] is IEEE 754 binary64, through the Standard Library's
      [spec_float] with [prec = 53] and [emax = 1024]; arithmetic is the
      library's round-to-nearest-even arithmetic.
    - [int] is [Z]; [str] is [string]; [None]-able fields are [option].
    - [dict] is a [gmap]; the iteration order of a dict only selects
      which of several errors is reported first, never whether one is.
    - a raised exception is the [Raise] case of [result]. *)

From Stdlib Require Import ZArith Lia Bool Ascii String.
From Stdlib Require Import Floats.SpecFloat.
From stdpp Require Import base option list strings gmap fin_maps fin_sets.

Open Scope Z_scope.

(** ** Enumerations *)

Inductive TaskOutputRatingType :=
| five_star
| pass_fail
| pass_fail_critical
| custom.

Inductive DataSourceType :=
| human
| synthetic.

#[global] Instance TaskOutputRatingType_eq_dec : EqDecision TaskOutputRatingType.
Proof. solve_decision. Defined.
#[global] Instance DataSourceType_eq_dec : EqDecision DataSourceType.
Proof. solve_decision. Defined.

(** ** Exceptions

    Every [ValueError] of the module, by the place that raises it; the
    message text is what the constructor's name says. *)

Inductive RatingName :=
| overall_rating
| requirement_rating (req_id : string).

Inductive PyError :=
(* TaskOutputRating *)
| RatingNotInteger (ty : TaskOutputRatingType) (name : RatingName)
| RatingOutOfRange (ty : TaskOutputRatingType) (name : RatingName)
(* DataSource *)
| PropertyWrongType (name : string)
| PropertyRequired (name : string)
| PropertyNotAllowed (name : string)
| PropertyEmpty (name : string)
(* TaskRun *)
| InputNotJson
| InputSchemaMismatch
| OutputNotJson
| OutputSchemaMismatch
| RepairedOutputRated
| RepairInstructionsRequired
| RepairedOutputRequired
| TagEmpty
| TagHasSpace
| InputSourceRequired
(* DatasetSplit *)
| SplitPercentagesSum
| NoParentTask
(* builtins *)
| OverflowError
| NanToInteger
| AttributeError.

Inductive result (A : Type) :=
| Ok (a : A)
| Raise (e : PyError).
Arguments Ok {A} a.
Arguments Raise {A} e.

#[global] Instance result_ret : MRet result := λ A a, Ok a.
#[global] Instance result_bind : MBind result := λ A B k r,
  match r with
  | Ok a => k a
  | Raise e => Raise e
  end.

Definition is_ok {A} (r : result A) : bool :=
  match r with Ok _ => true | Raise _ => false end.

(** ** Python floats (binary64) *)

Module Float.

Definition prec : Z := 53.
Definition emax : Z := 1024.

Abbreviation float := spec_float.

Definition valid (f : float) : bool := valid_binary prec emax f.

Definition add : float → float → float := SFadd prec emax.
Definition sub : float → float → float := SFsub prec emax.
Definition mul : float → float → float := SFmul prec emax.
Definition div : float → float → float := SFdiv prec emax.
Definition abs : float → float := SFabs.
Definition eqb : float → float → bool := SFeqb.
Definition leb : float → float → bool := SFleb.

(** The binary64 nearest to an integer. *)
Definition of_Z (n : Z) : float := binary_normalize prec emax n 0 false.

(** A decimal literal [a / b]: both are below [2^53] wherever this is
    used, so the correctly rounded quotient is the literal's value. *)
Definition of_ratio (a b : Z) : float := div (of_Z a) (of_Z b).

Definition signed (s : bool) (m : positive) : Z :=
  if s then Zneg m else Zpos m.

(** [float.is_integer()]. *)
Definition is_integer (f : float) : bool :=
  match f with
  | S754_zero _ => true
  | S754_finite _ m e => (0 <=? e) || (Zpos m mod 2 ^ (- e) =? 0)
  | S754_infinity _ | S754_nan => false
  end.

(** Python compares a float with an int by value, exactly. *)
Definition compare_int (f : float) (n : Z) : option comparison :=
  match f with
  | S754_nan => None
  | S754_infinity s => Some (if s then Lt else Gt)
  | S754_zero _ => Some (0 ?= n)
  | S754_finite s m e =>
      Some (if 0 <=? e then signed s m * 2 ^ e ?= n
            else signed s m ?= n * 2 ^ (- e))
  end.

Definition ltb_int (f : float) (n : Z) : bool :=
  match compare_int f n with Some Lt => true | _ => false end.
Definition gtb_int (f : float) (n : Z) : bool :=
  match compare_int f n with Some Gt => true | _ => false end.
Definition eqb_int (f : float) (n : Z) : bool :=
  match compare_int f n with Some Eq => true | _ => false end.
Definition geb_int (f : float) (n : Z) : bool :=
  match compare_int f n with Some (Gt | Eq) => true | _ => false end.

(** [x in [n1, n2, ...]] for a float [x] and a list of ints. *)
Definition in_ints (f : float) (ns : list Z) : bool :=
  existsb (eqb_int f) ns.

(** The integer a float stands for, when it stands for one. *)
Definition int_value (f : float) : option Z :=
  match f with
  | S754_zero _ => Some 0
  | S754_finite s m e =>
      if 0 <=? e then Some (signed s m * 2 ^ e)
      else if Zpos m mod 2 ^ (- e) =? 0 then Some (signed s m / 2 ^ (- e))
      else None
  | S754_infinity _ | S754_nan => None
  end.

(** [int * float] first converts the int: [OverflowError] when it is
    beyond the largest double. *)
Definition of_int (n : Z) : result float :=
  match of_Z n with
  | S754_infinity _ => Raise OverflowError
  | f => Ok f
  end.

(** [round(x)] with one argument: nearest integer, ties to even. *)
Definition round (f : float) : result Z :=
  match f with
  | S754_nan => Raise NanToInteger
  | S754_infinity _ => Raise OverflowError
  | S754_zero _ => Ok 0
  | S754_finite s m e =>
      if 0 <=? e then Ok (signed s m * 2 ^ e)
      else
        let d := 2 ^ (- e) in
        let q := Zpos m / d in
        let r := Zpos m mod d in
        let q' := match 2 * r ?= d with
                  | Lt => q
                  | Gt => q + 1
                  | Eq => if Z.even q then q else q + 1
                  end in
        Ok (if s then - q' else q')
  end.

(** [math.isclose(a, b, rel_tol=rel_tol)] with the default
    [abs_tol = 0.0]. *)
Definition isclose (a b rel_tol : float) : bool :=
  if eqb a b then true
  else
    match a, b with
    | S754_infinity _, _ | _, S754_infinity _ => false
    | _, _ =>
        let diff := abs (sub b a) in
        leb diff (abs (mul rel_tol b))
        || leb diff (abs (mul rel_tol a))
        || leb diff (S754_zero false)
    end.

End Float.

Abbreviation float := spec_float.

(** ** The builtin [sum]

    [sum(xs)] starts from the int [0] and adds the items in order; the
    first float makes the total a float.  Up to CPython 3.11 the total
    of floats is then a plain running double.  From CPython 3.12 on it
    carries the compensation of Neumaier's summation, which is added to
    the total at the end unless it is zero or not finite.  Which of the
    two runs is the interpreter's choice, not the program's. *)

Inductive SumAlgorithm :=
| left_to_right
| neumaier.

Module Builtins.

(** [c && Py_IS_FINITE(c)] *)
Definition is_finite_nonzero (c : float) : bool :=
  match c with
  | S754_finite _ _ _ => true
  | _ => false
  end.

(** The compensated loop over the items that follow the first. *)
Fixpoint compensated_sum (f_result c : float) (xs : list float) : float :=
  match xs with
  | [] => if is_finite_nonzero c then Float.add f_result c else f_result
  | x :: rest =>
      let t := Float.add f_result x in
      let c' :=
        if Float.leb (Float.abs x) (Float.abs f_result)
        then Float.add c (Float.add (Float.sub f_result t) x)
        else Float.add c (Float.add (Float.sub x t) f_result) in
      compensated_sum t c' rest
  end.

Definition sum (alg : SumAlgorithm) (xs : list float) : float :=
  match alg with
  | left_to_right => foldl Float.add (Float.of_Z 0) xs
  | neumaier =>
      match xs with
      | [] => Float.of_Z 0
      | x :: rest =>
          compensated_sum (Float.add (Float.of_Z 0) x) (S754_zero false) rest
      end
  end.

End Builtins.


(** ** Rating taxonomy *)

Module RequirementRating.
Record t := mk {
  value : float;
  type : TaskOutputRatingType;
}.
End RequirementRating.

(** ** Unvalidated input data

    What a [mode="before"] validator receives: the constructor's
    arguments as plain Python values.  A raw [dict] keeps its insertion
    order, so it is an association list here. *)

#[warnings="-register-all"]
Inductive pyvalue :=
| PyNone
| PyBool (b : bool)
| PyInt (n : Z)
| PyFloat (f : float)
| PyStr (s : string)
| PyEnum (t : TaskOutputRatingType)
| PyList (l : list pyvalue)
| PyDict (d : list (string * pyvalue))
| PyModel (r : RequirementRating.t).

Module Py.

(** [d.get(k)] *)
Fixpoint dict_get (d : list (string * pyvalue)) (k : string)
    : option pyvalue :=
  match d with
  | [] => None
  | (k', v) :: rest => if decide (k' = k) then Some v else dict_get rest k
  end.

(** [d[k] = v]: an existing key keeps its position, a new one goes last. *)
Fixpoint dict_set (d : list (string * pyvalue)) (k : string) (v : pyvalue)
    : list (string * pyvalue) :=
  match d with
  | [] => [(k, v)]
  | (k', v') :: rest =>
      if decide (k' = k) then (k, v) :: rest
      else (k', v') :: dict_set rest k v
  end.

(** [isinstance(v, (int, float))]; [bool] is a subclass of [int]. *)
Definition is_number (v : pyvalue) : bool :=
  match v with
  | PyBool _ | PyInt _ | PyFloat _ => true
  | _ => false
  end.

(** Truth value of an object, as [and] tests it. *)
Definition truthy (v : pyvalue) : bool :=
  match v with
  | PyNone => false
  | PyBool b => b
  | PyInt n => negb (n =? 0)
  | PyFloat f => negb (Float.eqb_int f 0)
  | PyStr s => negb (bool_decide (s = ""%string))
  | PyEnum _ => true
  | PyList l => match l with [] => false | _ => true end
  | PyDict d => match d with [] => false | _ => true end
  | PyModel _ => true
  end.

End Py.

Module TaskOutputRating.

Record t := mk {
  type : TaskOutputRatingType;
  value : option float;
  requirement_ratings : gmap string RequirementRating.t;
}.

(** The rating a bare number is rewritten to. *)
Definition upgraded (v : pyvalue) : pyvalue :=
  PyDict [("value"%string, v); ("type"%string, PyEnum five_star)].

(** [@model_validator(mode="before")].  A truthy [requirement_ratings]
    that is not a dict has no [values()]. *)
Definition upgrade_old_format (data : pyvalue) : result pyvalue :=
  match data with
  | PyDict d =>
      let req_ratings :=
        default (PyDict []) (Py.dict_get d "requirement_ratings") in
      if Py.truthy req_ratings then
        match req_ratings with
        | PyDict rr =>
            if forallb Py.is_number rr.*2 then
              Ok (PyDict (Py.dict_set d "requirement_ratings"
                    (PyDict (prod_map id upgraded <$> rr))))
            else Ok data
        | _ => Raise AttributeError
        end
      else Ok data
  | _ => Ok data
  end.

(** The [value] field is declared [float | None], so the
    [isinstance(rating, float)] test of the three helpers holds for
    every rating that is not [None]. *)
Definition _validate_five_star (rating : option float)
    (rating_name : RatingName) : result unit :=
  match rating with
  | None => Raise (RatingNotInteger five_star rating_name)
  | Some r =>
      if negb (Float.is_integer r)
      then Raise (RatingNotInteger five_star rating_name)
      else if Float.ltb_int r 1 || Float.gtb_int r 5
      then Raise (RatingOutOfRange five_star rating_name)
      else Ok ()
  end.

Definition _validate_pass_fail (rating : option float)
    (rating_name : RatingName) : result unit :=
  match rating with
  | None => Raise (RatingNotInteger pass_fail rating_name)
  | Some r =>
      if negb (Float.is_integer r)
      then Raise (RatingNotInteger pass_fail rating_name)
      else if negb (Float.in_ints r [0; 1])
      then Raise (RatingOutOfRange pass_fail rating_name)
      else Ok ()
  end.

Definition _validate_pass_fail_critical (rating : option float)
    (rating_name : RatingName) : result unit :=
  match rating with
  | None => Raise (RatingNotInteger pass_fail_critical rating_name)
  | Some r =>
      if negb (Float.is_integer r)
      then Raise (RatingNotInteger pass_fail_critical rating_name)
      else if negb (Float.in_ints r [-1; 0; 1])
      then Raise (RatingOutOfRange pass_fail_critical rating_name)
      else Ok ()
  end.

Definition _validate_rating (type : TaskOutputRatingType)
    (rating : option float) (rating_name : RatingName) : result unit :=
  match type with
  | five_star => _validate_five_star rating rating_name
  | pass_fail => _validate_pass_fail rating rating_name
  | pass_fail_critical => _validate_pass_fail_critical rating rating_name
  | custom => Ok ()
  end.

(** The loop over [requirement_ratings.items()]. *)
Fixpoint validate_requirement_ratings
    (items : list (string * RequirementRating.t)) : result unit :=
  match items with
  | [] => Ok ()
  | (req_id, req_rating) :: rest =>
      _validate_rating (RequirementRating.type req_rating)
        (Some (RequirementRating.value req_rating))
        (requirement_rating req_id);;
      validate_requirement_ratings rest
  end.

(** [self.type not in TaskOutputRatingType] cannot hold for a value of
    the enumeration. *)
Definition validate_rating (self : t) : result t :=
  match value self with
  | Some v => _validate_rating (type self) (Some v) overall_rating
  | None => Ok ()
  end;;
  validate_requirement_ratings (map_to_list (requirement_ratings self));;
  Ok self.

(** Construction: the [mode="before"] validator sees the raw data,
    then the fields are parsed, then the [mode="after"] validators
    run.  Field parsing is pydantic's and is a parameter. *)
Definition construct (parse_fields : pyvalue → result t)
    (data : pyvalue) : result t :=
  data' ← upgrade_old_format data;
  self ← parse_fields data';
  validate_rating self.

Definition is_high_quality (self : t) : bool :=
  match value self with
  | None => false
  | Some v =>
      match type self with
      | five_star => Float.geb_int v 4
      | pass_fail => Float.eqb_int v 1
      | pass_fail_critical => Float.eqb_int v 1
      | custom => false
      end
  end.

End TaskOutputRating.

(** ** Data sources *)

Inductive PropertyType :=
| type_str
| type_int
| type_float.

Inductive PropertyValue :=
| PStr (s : string)
| PInt (n : Z)
| PFloat (f : float).

(** [isinstance(value, ty)] *)
Definition isinstance (v : PropertyValue) (ty : PropertyType) : bool :=
  match v, ty with
  | PStr _, type_str | PInt _, type_int | PFloat _, type_float => true
  | _, _ => false
  end.

Module DataSourceProperty.
Record t := mk {
  name : string;
  type : PropertyType;
  required_for : list DataSourceType;
  not_allowed_for : list DataSourceType;
}.
End DataSourceProperty.

Module DataSource.

Record t := mk {
  type : DataSourceType;
  properties : gmap string PropertyValue;
}.

Definition _data_source_properties : list DataSourceProperty.t := [
  DataSourceProperty.mk "created_by" type_str [human] [synthetic];
  DataSourceProperty.mk "model_name" type_str [synthetic] [human];
  DataSourceProperty.mk "model_provider" type_str [synthetic] [human];
  DataSourceProperty.mk "adapter_name" type_str [synthetic] [human];
  DataSourceProperty.mk "prompt_builder_name" type_str [] [human];
  DataSourceProperty.mk "prompt_id" type_str [] [human]
].

(** [self.type not in DataSourceType] cannot hold for a value of the
    enumeration. *)
Definition validate_type (self : t) : result t := Ok self.

(** One turn of the loop of [validate_properties]. *)
Definition check_property (self : t) (prop : DataSourceProperty.t)
    : result unit :=
  let name := DataSourceProperty.name prop in
  match properties self !! name with
  | Some v =>
      if negb (isinstance v (DataSourceProperty.type prop))
      then Raise (PropertyWrongType name)
      else Ok ()
  | None => Ok ()
  end;;
  if bool_decide (type self ∈ DataSourceProperty.required_for prop) then
    if bool_decide (properties self !! name = None)
    then Raise (PropertyRequired name)
    else Ok ()
  else if bool_decide (type self ∈ DataSourceProperty.not_allowed_for prop)
          && bool_decide (is_Some (properties self !! name))
  then Raise (PropertyNotAllowed name)
  else Ok ().

Fixpoint check_properties (self : t) (props : list DataSourceProperty.t)
    : result unit :=
  match props with
  | [] => Ok ()
  | prop :: rest => check_property self prop;; check_properties self rest
  end.

Definition validate_properties (self : t) : result t :=
  check_properties self _data_source_properties;; Ok self.

Fixpoint check_no_empty (items : list (string * PropertyValue))
    : result unit :=
  match items with
  | [] => Ok ()
  | (prop, value) :: rest =>
      match value with
      | PStr "" => Raise (PropertyEmpty prop)
      | _ => check_no_empty rest
      end
  end.

Definition validate_no_empty_properties (self : t) : result t :=
  check_no_empty (map_to_list (properties self));; Ok self.

(** Construction runs the three [mode="after"] validators in the order
    the class declares them. *)
Definition construct (type : DataSourceType)
    (properties : gmap string PropertyValue) : result t :=
  self ← validate_type (mk type properties);
  self ← validate_properties self;
  validate_no_empty_properties self.

End DataSource.

(** ** Strict mode

    The module-level flag [_strict_mode], read by [strict_mode()] and
    written by [set_strict_mode(value)].  The validators that consult
    the flag take its value as an argument. *)

Module Globals.

Record t := mk {
  _strict_mode : bool;
}.

(** The module as imported: [_strict_mode: bool = False]. *)
Definition initial : t := mk false.

Definition strict_mode (g : t) : bool := _strict_mode g.

Definition set_strict_mode (value : bool) (g : t) : t := mk value.

End Globals.

(** ** Tasks and parents *)

Module Task.
(** The part of a [Task] the validators read.  The children of a task
    are enumerated by the storage layer, see [DatasetSplit]. *)
Record t := mk {
  id : string;
  input_json_schema : option string;
  output_json_schema : option string;
}.
End Task.

(** What [self.parent] can refer to. *)
Inductive KilnModel :=
| ATask (task : Task.t)
| AnotherModel.

(** [self.parent if isinstance(self.parent, Task) else None] *)
Definition as_task (parent : option KilnModel) : option Task.t :=
  match parent with
  | Some (ATask task) => Some task
  | _ => None
  end.

(** What the validators ask of pydantic's [ValidationInfo] and of the
    base model: [loading_from_file(info)] and [loaded_from_file(info)]. *)
Record ValidationInfo := {
  loading_from_file : bool;
  loaded_from_file : bool;
}.

(** ** Validators that call the schema validator

    [json.loads] and [validate_schema] are the collaborators; each
    execution of [validate_schema(json.loads(value), schema)] leaves a
    [SchemaCheck] in the trace, whatever its outcome. *)

Inductive Event :=
| SchemaCheck (value schema : string).

Definition traced (A : Type) : Type := list Event * result A.

Definition quiet {A} (r : result A) : traced A := ([], r).

Definition and_then {A B} (x : traced A) (k : A → traced B) : traced B :=
  match x with
  | (tr, Ok a) => let '(tr', r) := k a in (tr ++ tr', r)
  | (tr, Raise e) => (tr, Raise e)
  end.

Section SchemaValidation.

Context {Json : Type}.
Variable json_loads : string → option Json.
Variable validate_schema : Json → string → bool.

(** The [try] statement shared by the input and the output check. *)
Definition schema_check (value schema : string)
    (not_json mismatch : PyError) : traced unit :=
  ([SchemaCheck value schema],
   match json_loads value with
   | None => Raise not_json
   | Some v => if validate_schema v schema then Ok () else Raise mismatch
   end).

End SchemaValidation.

Module TaskOutput.

Record t := mk {
  output : string;
  source : option DataSource.t;
  rating : option TaskOutputRating.t;
}.

Section Validators.
Context {Json : Type}.
Variable json_loads : string → option Json.
Variable validate_schema : Json → string → bool.

Definition validate_output_format (self : t) (task : Task.t) : traced t :=
  match Task.output_json_schema task with
  | Some schema =>
      and_then
        (schema_check json_loads validate_schema (output self) schema
           OutputNotJson OutputSchemaMismatch)
        (λ _, quiet (Ok self))
  | None => quiet (Ok self)
  end.
End Validators.

(** The one exception of this validator, the [ValueError] "Output
    source is required when strict mode is enabled", is [None]. *)
Definition validate_output_source (strict_mode : bool)
    (info : ValidationInfo) (self : t) : option t :=
  if negb strict_mode then Some self
  else if loaded_from_file info then Some self
  else match source self with
       | None => None
       | Some _ => Some self
       end.

End TaskOutput.

Module TaskRun.

(** [_last_validated_input] and [_last_validated_output] are instance
    attributes that exist only once a validator has set them: [None]
    is [hasattr(self, ...) = False].  [output] is a required field, so
    [self.output] is never [None]. *)
Record t := mk {
  id : string;
  input : string;
  input_source : option DataSource.t;
  output : TaskOutput.t;
  repair_instructions : option string;
  repaired_output : option TaskOutput.t;
  intermediate_outputs : option (gmap string string);
  tags : list string;
  parent : option KilnModel;
  _last_validated_input : option string;
  _last_validated_output : option string;
}.

Definition set_last_validated_input (v : string) (self : t) : t :=
  mk (id self) (input self) (input_source self) (output self)
     (repair_instructions self) (repaired_output self)
     (intermediate_outputs self) (tags self) (parent self)
     (Some v) (_last_validated_output self).

Definition set_last_validated_output (v : string) (self : t) : t :=
  mk (id self) (input self) (input_source self) (output self)
     (repair_instructions self) (repaired_output self)
     (intermediate_outputs self) (tags self) (parent self)
     (_last_validated_input self) (Some v).

(** Assignments [self.input = v] and [self.output = o], before the
    validators run on the result. *)
Definition with_input (v : string) (self : t) : t :=
  mk (id self) v (input_source self) (output self)
     (repair_instructions self) (repaired_output self)
     (intermediate_outputs self) (tags self) (parent self)
     (_last_validated_input self) (_last_validated_output self).

Definition with_output (o : TaskOutput.t) (self : t) : t :=
  mk (id self) (input self) (input_source self) o
     (repair_instructions self) (repaired_output self)
     (intermediate_outputs self) (tags self) (parent self)
     (_last_validated_input self) (_last_validated_output self).

(** The assignment [self.parent = p]. *)
Definition with_parent (p : option KilnModel) (self : t) : t :=
  mk (id self) (input self) (input_source self) (output self)
     (repair_instructions self) (repaired_output self)
     (intermediate_outputs self) (tags self) p
     (_last_validated_input self) (_last_validated_output self).

Definition parent_task (self : t) : option Task.t := as_task (parent self).

Section Validators.
Context {Json : Type}.
Variable json_loads : string → option Json.
Variable validate_schema : Json → string → bool.

Definition validate_input_format (info : ValidationInfo) (self : t)
    : traced t :=
  if loading_from_file info then
    quiet (Ok (set_last_validated_input (input self) self))
  else if bool_decide (_last_validated_input self = Some (input self)) then
    quiet (Ok self)
  else
    match parent_task self with
    | None => quiet (Ok self)
    | Some task =>
        and_then
          match Task.input_json_schema task with
          | Some schema =>
              schema_check json_loads validate_schema (input self) schema
                InputNotJson InputSchemaMismatch
          | None => quiet (Ok ())
          end
          (λ _, quiet (Ok (set_last_validated_input (input self) self)))
    end.

Definition validate_output_format (info : ValidationInfo) (self : t)
    : traced t :=
  let current := TaskOutput.output (output self) in
  if loading_from_file info then
    quiet (Ok (set_last_validated_output current self))
  else if bool_decide (_last_validated_output self = Some current) then
    quiet (Ok self)
  else
    match parent_task self with
    | None => quiet (Ok self)
    | Some task =>
        and_then
          (TaskOutput.validate_output_format json_loads validate_schema
             (output self) task)
          (λ _, quiet (Ok (set_last_validated_output current self)))
    end.

Definition validate_repaired_output (self : t) : result t :=
  match repaired_output self with
  | Some repaired =>
      match TaskOutput.rating repaired with
      | Some _ => Raise RepairedOutputRated
      | None => Ok ()
      end
  | None => Ok ()
  end;;
  match repair_instructions self, repaired_output self with
  | None, Some _ => Raise RepairInstructionsRequired
  | _, _ => Ok ()
  end;;
  match repair_instructions self, repaired_output self with
  | Some _, None => Raise RepairedOutputRequired
  | _, _ => Ok ()
  end;;
  Ok self.

Definition validate_input_source (strict_mode : bool)
    (info : ValidationInfo) (self : t) : result t :=
  if negb strict_mode then Ok self
  else if loaded_from_file info then Ok self
  else match input_source self with
       | None => Raise InputSourceRequired
       | Some _ => Ok self
       end.

(** [" " in tag] *)
Fixpoint has_space (tag : string) : bool :=
  match tag with
  | EmptyString => false
  | String c rest => Ascii.eqb c " "%char || has_space rest
  end.

Fixpoint check_tags (tags : list string) : result unit :=
  match tags with
  | [] => Ok ()
  | tag :: rest =>
      if bool_decide (tag = ""%string) then Raise TagEmpty
      else if has_space tag then Raise TagHasSpace
      else check_tags rest
  end.

Definition validate_tags (self : t) : result t :=
  check_tags (tags self);; Ok self.

(** One validation pass: the [mode="after"] validators in the order
    the class declares them, the first exception ending the pass.
    It runs on construction and on every assignment to a field. *)
Definition validate (strict_mode : bool) (info : ValidationInfo)
    (self : t) : traced t :=
  and_then (validate_input_format info self) (λ self,
  and_then (validate_output_format info self) (λ self,
  quiet (self ← validate_repaired_output self;
         self ← validate_input_source strict_mode info self;
         validate_tags self))).

End Validators.

End TaskRun.

(** ** Dataset splits *)

(** [DatasetFilter = Callable[[TaskRun], bool]] *)
Definition AllDatasetFilter (_ : TaskRun.t) : bool := true.

Definition HighRatingDatasetFilter (task_run : TaskRun.t) : bool :=
  match TaskRun.repaired_output task_run with
  | Some _ => true
  | None =>
      match TaskOutput.rating (TaskRun.output task_run) with
      | None => false
      | Some rating => TaskOutputRating.is_high_quality rating
      end
  end.

Module DatasetSplitDefinition.
Record t := mk {
  name : string;
  description : option string;
  percentage : float;
}.

(** The field constraint [ge=0.0, le=1.0] of [percentage]. *)
Definition percentage_in_range (self : t) : bool :=
  Float.leb (Float.of_Z 0) (percentage self)
  && Float.leb (percentage self) (Float.of_Z 1).
End DatasetSplitDefinition.

(** The split definitions the module ships. *)
Definition AllSplitDefinition : list DatasetSplitDefinition.t := [
  DatasetSplitDefinition.mk "all" None (Float.of_Z 1)
].

Definition Train80Test20SplitDefinition : list DatasetSplitDefinition.t := [
  DatasetSplitDefinition.mk "train" None (Float.of_ratio 8 10);
  DatasetSplitDefinition.mk "test" None (Float.of_ratio 2 10)
].

Definition Train60Test20Val20SplitDefinition
    : list DatasetSplitDefinition.t := [
  DatasetSplitDefinition.mk "train" None (Float.of_ratio 6 10);
  DatasetSplitDefinition.mk "test" None (Float.of_ratio 2 10);
  DatasetSplitDefinition.mk "val" None (Float.of_ratio 2 10)
].

Definition Train80Test10Val10SplitDefinition
    : list DatasetSplitDefinition.t := [
  DatasetSplitDefinition.mk "train" None (Float.of_ratio 8 10);
  DatasetSplitDefinition.mk "test" None (Float.of_ratio 1 10);
  DatasetSplitDefinition.mk "val" None (Float.of_ratio 1 10)
].

Module Slice.

(** How Python places a slice bound in a sequence of length [n]: a
    negative bound counts from the end, and all are clamped. *)
Definition bound (n i : Z) : Z :=
  if i <? 0 then Z.max (i + n) 0 else Z.min i n.

(** [l[lo:hi]] *)
Definition between {A} (l : list A) (lo hi : Z) : list A :=
  let n := Z.of_nat (length l) in
  take (Z.to_nat (bound n hi - bound n lo)) (drop (Z.to_nat (bound n lo)) l).

(** [l[lo:]] *)
Definition from {A} (l : list A) (lo : Z) : list A :=
  drop (Z.to_nat (bound (Z.of_nat (length l)) lo)) l.

End Slice.

Module DatasetSplit.

Record t := mk {
  name : string;
  description : option string;
  splits : list DatasetSplitDefinition.t;
  split_contents : gmap string (list string);
  parent : option KilnModel;
}.

(** [sum(split.percentage for split in self.splits)], under the [sum]
    of the interpreter. *)
Definition total_percentage (alg : SumAlgorithm)
    (splits : list DatasetSplitDefinition.t) : float :=
  Builtins.sum alg (DatasetSplitDefinition.percentage <$> splits).

Definition rel_tol : float := Float.of_ratio 1 1000000000.

Definition validate_split_percentages (alg : SumAlgorithm) (self : t)
    : result t :=
  let total := total_percentage alg (splits self) in
  if negb (Float.isclose total (Float.of_Z 1) rel_tol)
  then Raise SplitPercentagesSum
  else Ok self.

(** [round(len(valid_ids) * split.percentage)] *)
Definition split_size (valid_ids : list string)
    (split : DatasetSplitDefinition.t) : result Z :=
  n ← Float.of_int (Z.of_nat (length valid_ids));
  Float.round (Float.mul n (DatasetSplitDefinition.percentage split)).

(** The loop over [splits[:-1]]; [remaining_items] is written but never
    read, and is left out. *)
Fixpoint fill_splits (valid_ids : list string)
    (splits : list DatasetSplitDefinition.t) (start_idx : Z)
    (split_contents : gmap string (list string))
    : result (Z * gmap string (list string)) :=
  match splits with
  | [] => Ok (start_idx, split_contents)
  | split :: rest =>
      split_size ← split_size valid_ids split;
      fill_splits valid_ids rest (start_idx + split_size)
        (<[DatasetSplitDefinition.name split :=
             Slice.between valid_ids start_idx (start_idx + split_size)]>
           split_contents)
  end.

Section Storage.
(** [task.runs()], the storage layer's enumeration of a task's runs,
    and [random.shuffle], which leaves some ordering of its argument. *)
Variable runs : Task.t → list TaskRun.t.
Variable shuffle : list string → list string.
(** The [sum] of the interpreter that runs the validator. *)
Variable sum_algorithm : SumAlgorithm.

Definition build_split_contents (task : Task.t)
    (splits : list DatasetSplitDefinition.t)
    (filter : TaskRun.t → bool) : result (gmap string (list string)) :=
  let valid_ids :=
    shuffle (TaskRun.id <$> List.filter filter (runs task)) in
  '(start_idx, split_contents) ←
    fill_splits valid_ids (removelast splits) 0 ∅;
  match last splits with
  | Some final =>
      Ok (<[DatasetSplitDefinition.name final :=
              Slice.from valid_ids start_idx]> split_contents)
  | None => Ok split_contents
  end.

(** Construction runs the [mode="after"] validator. *)
Definition construct (name : string) (description : option string)
    (splits : list DatasetSplitDefinition.t)
    (split_contents : gmap string (list string))
    (parent : option KilnModel) : result t :=
  validate_split_percentages sum_algorithm
    (mk name description splits split_contents parent).

Definition from_task (name : string) (task : Task.t)
    (splits : list DatasetSplitDefinition.t)
    (filter : TaskRun.t → bool) (description : option string)
    : result t :=
  split_contents ← build_split_contents task splits filter;
  construct name description splits split_contents (Some (ATask task)).

Definition parent_task (self : t) : option Task.t := as_task (parent self).

(** The loop [for ids in self.split_contents.values():
    all_ids_in_splits.update(ids)]. *)
Definition all_ids_in_splits (split_contents : gmap string (list string))
    : gset string :=
  foldl (λ acc ids, acc ∪ list_to_set ids) ∅
    (map_to_list split_contents).*2.

Definition missing_count (self : t) : result nat :=
  match parent_task self with
  | None => Raise NoParentTask
  | Some parent =>
      let all_ids : gset string :=
        list_to_set (TaskRun.id <$> runs parent) in
      let missing := all_ids_in_splits (split_contents self) ∖ all_ids in
      Ok (size missing)
  end.

End Storage.

(** Modelled from the spec: the base model (not part of these sources)
    re-runs the validators when a field is assigned, and rejects the
    assignment when one raises. *)
Definition assign_splits (alg : SumAlgorithm)
    (splits : list DatasetSplitDefinition.t) (self : t) : result t :=
  validate_split_percentages alg
    (mk (name self) (description self) splits (split_contents self)
        (parent self)).

End DatasetSplit.

(** * Specifications

    The predicates the theorems are stated with, and the data of the
    examples. *)

(** ** Ratings *)

(** The legal values of each scale, by the number a rating stands for. *)
Definition legal_rating (ty : TaskOutputRatingType) (v : float) : Prop :=
  match ty with
  | five_star => ∃ n, 1 ≤ n ≤ 5 ∧ Float.int_value v = Some n
  | pass_fail => ∃ n, (n = 0 ∨ n = 1) ∧ Float.int_value v = Some n
  | pass_fail_critical =>
      ∃ n, (n = -1 ∨ n = 0 ∨ n = 1) ∧ Float.int_value v = Some n
  | custom => True
  end.

(** The specification's reading of the overall value: a missing value is
    outside every legal set but that of [custom]. *)
Definition legal_rating_or_nothing (ty : TaskOutputRatingType)
    (rating : option float) : Prop :=
  match rating with
  | Some v => legal_rating ty v
  | None => ty = custom
  end.

Definition all_requirement_ratings_legal (self : TaskOutputRating.t) : Prop :=
  ∀ req_id r, TaskOutputRating.requirement_ratings self !! req_id = Some r →
    legal_rating (RequirementRating.type r) (RequirementRating.value r).

Definition f1_0 : float := Float.of_Z 1.
Definition f2_0 : float := Float.of_Z 2.
Definition f3_0 : float := Float.of_Z 3.
Definition f4_0 : float := Float.of_Z 4.
Definition f5_0 : float := Float.of_Z 5.
Definition f6_0 : float := Float.of_Z 6.
Definition f0_0 : float := Float.of_Z 0.
Definition f2_5 : float := Float.of_ratio 5 2.
Definition fminus1_0 : float := Float.of_Z (-1).

(** The claim as the specification words it: a rating is accepted
    exactly when its overall value lies in the legal set of its type,
    which for the three checked scales excludes [None]. *)
Definition validate_rating_as_specified : Prop :=
  ∀ self : TaskOutputRating.t,
    is_ok (TaskOutputRating.validate_rating self) = true
    ↔ legal_rating_or_nothing (TaskOutputRating.type self)
        (TaskOutputRating.value self)
      ∧ all_requirement_ratings_legal self.

(** ** Tags and repairs *)

(** The characters [str.isspace] accepts, among the ASCII ones. *)
Definition is_whitespace (c : ascii) : bool :=
  let n := nat_of_ascii c in
  bool_decide (n = 32 ∨ 9 ≤ n ≤ 13 ∨ 28 ≤ n ≤ 31)%nat.

Definition has_whitespace (tag : string) : bool :=
  existsb is_whitespace (list_ascii_of_string tag).

Definition run_with_tags (tags : list string) : TaskRun.t :=
  TaskRun.mk "run" "" None (TaskOutput.mk "" None None) None None None tags
    None None None.

(** ["a\tb"] *)
Definition tag_with_tab : string :=
  String "a" (String (ascii_of_nat 9) (String "b" EmptyString)).

(** A tag the validator lets through. *)
Definition tag_ok (tag : string) : Prop :=
  tag ≠ ""%string ∧ " "%char ∉ list_ascii_of_string tag.

(** The claim as the specification words it: any whitespace is refused. *)
Definition validate_tags_as_specified : Prop :=
  ∀ self, is_ok (TaskRun.validate_tags self) = true
          ↔ Forall (λ tag, tag ≠ ""%string ∧ has_whitespace tag = false)
              (TaskRun.tags self).

(** Instructions and repaired output come together, and a repaired
    output has no rating. *)
Definition repair_invariant (self : TaskRun.t) : Prop :=
  (is_Some (TaskRun.repair_instructions self)
   ↔ is_Some (TaskRun.repaired_output self))
  ∧ ∀ repaired, TaskRun.repaired_output self = Some repaired →
                TaskOutput.rating repaired = None.

(** ** Data-source properties *)

Definition registered (name : string) : Prop :=
  name ∈ DataSourceProperty.name <$> DataSource._data_source_properties.

(** What the registry asks of a property map, for a source type. *)
Definition registry_respected (ty : DataSourceType)
    (props : gmap string PropertyValue) : Prop :=
  (∀ prop v, prop ∈ DataSource._data_source_properties →
     props !! DataSourceProperty.name prop = Some v →
     isinstance v (DataSourceProperty.type prop) = true)
  ∧ (∀ prop, prop ∈ DataSource._data_source_properties →
       ty ∈ DataSourceProperty.required_for prop →
       is_Some (props !! DataSourceProperty.name prop))
  ∧ (∀ prop, prop ∈ DataSource._data_source_properties →
       ty ∈ DataSourceProperty.not_allowed_for prop →
       props !! DataSourceProperty.name prop = None).

Definition no_empty_property (props : gmap string PropertyValue) : Prop :=
  ∀ name v, props !! name = Some v → v ≠ PStr "".

(** What one entry of the registry asks of a data source. *)
Definition property_respected (self : DataSource.t)
    (prop : DataSourceProperty.t) : Prop :=
  (∀ v, DataSource.properties self !! DataSourceProperty.name prop = Some v →
        isinstance v (DataSourceProperty.type prop) = true)
  ∧ (DataSource.type self ∈ DataSourceProperty.required_for prop →
     is_Some (DataSource.properties self !! DataSourceProperty.name prop))
  ∧ (DataSource.type self ∉ DataSourceProperty.required_for prop →
     DataSource.type self ∈ DataSourceProperty.not_allowed_for prop →
     DataSource.properties self !! DataSourceProperty.name prop = None).

(** ** The old rating format *)


Definition requirement_ratings_key : string := "requirement_ratings".

(** [{"value": 4.0, "requirement_ratings": {"r1": 3.0, "r2": 5.0}}] *)
Definition old_format_data : list (string * pyvalue) :=
  [("value"%string, PyFloat f4_0);
   ("requirement_ratings"%string,
    PyDict [("r1"%string, PyFloat f3_0); ("r2"%string, PyFloat f5_0)])].


(** ** The change cache *)

(** What the [try] statement of a validator makes of a value: the JSON
    error when [json.loads] raises, in which case [validate_schema] is
    never called; the schema error when [validate_schema] refuses the
    parsed value; nothing to report otherwise. *)
Definition check_outcome {Json : Type} (json_loads : string → option Json)
    (validate_schema : Json → string → bool) (value schema : string)
    (not_json mismatch : PyError) : result unit :=
  match json_loads value with
  | None => Raise not_json
  | Some v => if validate_schema v schema then Ok () else Raise mismatch
  end.

(** The behaviour of the two caches of a run whose task declares the
    schemas [schema_in] and [schema_out]: what each validator does when
    it is not loading and when it is, what a validator that succeeded
    has recorded, and which checks a whole pass executes. *)
Definition validates_only_on_change {Json : Type}
    (json_loads : string → option Json) (validate_schema : Json → string → bool)
    (self : TaskRun.t) (schema_in schema_out : string) : Prop :=
  let validate_in := TaskRun.validate_input_format json_loads validate_schema in
  let validate_out := TaskRun.validate_output_format json_loads validate_schema in
  let pass := TaskRun.validate json_loads validate_schema in
  let current_out r := TaskOutput.output (TaskRun.output r) in
  (∀ info, loading_from_file info = false →
     validate_in info self
     = (if bool_decide (TaskRun._last_validated_input self
                        = Some (TaskRun.input self))
        then ([], Ok self)
        else ([SchemaCheck (TaskRun.input self) schema_in],
              check_outcome json_loads validate_schema (TaskRun.input self)
                schema_in InputNotJson InputSchemaMismatch
              ≫= λ _, Ok (TaskRun.set_last_validated_input
                            (TaskRun.input self) self)))
     ∧ validate_out info self
       = (if bool_decide (TaskRun._last_validated_output self
                          = Some (current_out self))
          then ([], Ok self)
          else ([SchemaCheck (current_out self) schema_out],
                check_outcome json_loads validate_schema (current_out self)
                  schema_out OutputNotJson OutputSchemaMismatch
                ≫= λ _, Ok (TaskRun.set_last_validated_output
                              (current_out self) self))))
  ∧ (∀ info, loading_from_file info = true →
       validate_in info self
       = ([], Ok (TaskRun.set_last_validated_input (TaskRun.input self) self))
       ∧ validate_out info self
         = ([], Ok (TaskRun.set_last_validated_output (current_out self) self)))
  ∧ (∀ info tr self', validate_in info self = (tr, Ok self') →
       TaskRun._last_validated_input self' = Some (TaskRun.input self)
       ∧ (∀ info', (validate_in info' self').1 = [])
       ∧ (∀ info' v, loading_from_file info' = false → v ≠ TaskRun.input self →
            (validate_in info' (TaskRun.with_input v self')).1
            = [SchemaCheck v schema_in]))
  ∧ (∀ info tr self', validate_out info self = (tr, Ok self') →
       TaskRun._last_validated_output self' = Some (current_out self)
       ∧ (∀ info', (validate_out info' self').1 = [])
       ∧ (∀ info' o, loading_from_file info' = false →
            TaskOutput.output o ≠ current_out self →
            (validate_out info' (TaskRun.with_output o self')).1
            = [SchemaCheck (TaskOutput.output o) schema_out]))
  ∧ (∀ strict_mode info,
       (pass strict_mode info self).1
       = (validate_in info self).1
         ++ (if is_ok (validate_in info self).2
             then (validate_out info self).1 else [])
       ∧ ∀ e, (validate_in info self).2 = Raise e →
              pass strict_mode info self = ((validate_in info self).1, Raise e)).

(** The claim as the specification words it: on a validation pass, a
    schema validation runs exactly when its value differs from the one
    validated last. *)
Definition pass_validates_iff_changed : Prop :=
  ∀ Json (json_loads : string → option Json)
    (validate_schema : Json → string → bool) strict_mode info self task
    schema_in schema_out,
    loading_from_file info = false →
    TaskRun.parent_task self = Some task →
    Task.input_json_schema task = Some schema_in →
    Task.output_json_schema task = Some schema_out →
    let tr := (TaskRun.validate json_loads validate_schema strict_mode info
                 self).1 in
    (SchemaCheck (TaskRun.input self) schema_in ∈ tr
     ↔ TaskRun._last_validated_input self ≠ Some (TaskRun.input self))
    ∧ (SchemaCheck (TaskOutput.output (TaskRun.output self)) schema_out ∈ tr
       ↔ TaskRun._last_validated_output self
         ≠ Some (TaskOutput.output (TaskRun.output self))).

(** A [json.loads] that parses the empty object only. *)
Definition braces_only (value : string) : option unit :=
  if decide (value = "{}"%string) then Some () else None.

(** A run of a task with both schemas, freshly built: no cache yet. *)
Definition schema_task : Task.t := Task.mk "task" (Some "{}") (Some "{}")%string.

Definition fresh_run : TaskRun.t :=
  TaskRun.mk "run" "{}" None (TaskOutput.mk "{}" None None) None None None []
    (Some (ATask schema_task)) None None.

(** A run of that task whose output was never validated and whose input
    is not JSON. *)
Definition broken_input_run : TaskRun.t :=
  TaskRun.mk "run" "not json" None (TaskOutput.mk "{}" None None) None None
    None [] (Some (ATask schema_task)) None None.

(** ** Dataset splits *)

(** A run ID that some list of the contents holds. *)
Definition referenced (split_contents : gmap string (list string))
    (id : string) : Prop :=
  ∃ name ids, split_contents !! name = Some ids ∧ id ∈ ids.

(** A split over runs A, B and C, of a task that still has A and B. *)
Definition drifted_split : DatasetSplit.t :=
  DatasetSplit.mk "split" None []
    {[ "train"%string := ["A"; "B"]%string; "test"%string := ["C"]%string ]}
    (Some (ATask schema_task)).

Definition runs_A_B (_ : Task.t) : list TaskRun.t :=
  [TaskRun.mk "A" "" None (TaskOutput.mk "" None None) None None None [] None
     None None;
   TaskRun.mk "B" "" None (TaskOutput.mk "" None None) None None None [] None
     None None].

Definition f0_99 : float := Float.of_ratio 99 100.
Definition f0_01 : float := Float.of_ratio 1 100.
Definition f0_8 : float := Float.of_ratio 8 10.
Definition f0_2 : float := Float.of_ratio 2 10.
Definition f0_5 : float := Float.of_ratio 5 10.
(** [1e-9], [0.999999999] and [1.000000001] *)
Definition f1e_9 : float := Float.of_ratio 1 1000000000.
Definition f1_minus_1e_9 : float := Float.of_ratio 999999999 1000000000.
Definition f1_plus_1e_9 : float := Float.of_ratio 1000000001 1000000000.

Definition split_def (name : string) (percentage : float)
    : DatasetSplitDefinition.t :=
  DatasetSplitDefinition.mk name None percentage.

Definition f1_01 : float := Float.of_ratio 101 100.

(** Whether a split with these definitions can be constructed. *)
Definition accepted (alg : SumAlgorithm)
    (splits : list DatasetSplitDefinition.t) : bool :=
  is_ok (DatasetSplit.construct alg "split" None splits ∅ None).

(** The slices the loop cuts, for the sizes it computes, from [start]. *)
Fixpoint slices (ids : list string) (sizes : list Z) (start : Z)
    : list (list string) :=
  match sizes with
  | [] => []
  | size :: rest =>
      Slice.between ids start (start + size) :: slices ids rest (start + size)
  end.

Definition sum_sizes (sizes : list Z) : Z := foldr Z.add 0 sizes.

(** One slice per definition: those of the loop, then the rest. *)
Definition all_slices (ids : list string) (sizes : list Z)
    : list (list string) :=
  slices ids sizes 0 ++ [Slice.from ids (sum_sizes sizes)].

(** Writing key after key into a dict. *)
Definition insert_all (items : list (string * list string))
    (m : gmap string (list string)) : gmap string (list string) :=
  foldl (λ m item, <[item.1 := item.2]> m) m items.

Abbreviation split_name := DatasetSplitDefinition.name.

(** A bound on the exponent after the two shifts of [binary_round_aux],
    for a mantissa of at most [D] digits at an exponent of at most [E]. *)
Definition round_exponent_bound (D E : Z) : Z :=
  let E1 := Z.max (Z.max E (D + E - 53)) (-1074) in
  Z.max E1 (D + 1 + E1 - 53).

(** The names of the definitions are pairwise distinct. *)
Definition distinct_names (splits : list DatasetSplitDefinition.t) : Prop :=
  NoDup (split_name <$> splits).

(** Every percentage is a double within the field's range. *)
Definition admissible (splits : list DatasetSplitDefinition.t) : Prop :=
  Forall (λ split,
            Float.valid (DatasetSplitDefinition.percentage split) = true
            ∧ DatasetSplitDefinition.percentage_in_range split = true) splits.

(** The percentages sum to 1.0, as [validate_split_percentages] judges. *)
Definition sums_to_one (alg : SumAlgorithm)
    (splits : list DatasetSplitDefinition.t) : Prop :=
  Float.isclose (DatasetSplit.total_percentage alg splits) f1_0 f1e_9 = true.

(** The list a definition is given in a result. *)
Definition assigned (contents : gmap string (list string))
    (split : DatasetSplitDefinition.t) : list string :=
  default [] (contents !! split_name split).

(** Each definition but the last holds the next [size] IDs of the
    sequence (fewer when fewer are left), the last one holds the rest,
    no other key exists, and the lists in definition order make up the
    sequence. *)
Definition consecutive_layout (ids : list string)
    (splits : list DatasetSplitDefinition.t) (sizes : list Z)
    (contents : gmap string (list string)) : Prop :=
  (∀ i split size,
     removelast splits !! i = Some split → sizes !! i = Some size →
     contents !! split_name split
     = Some (take (Z.to_nat size)
               (drop (Z.to_nat (sum_sizes (take i sizes))) ids)))
  ∧ (∀ final, last splits = Some final →
       contents !! split_name final
       = Some (drop (Z.to_nat (sum_sizes sizes)) ids))
  ∧ (∀ name, is_Some (contents !! name) → name ∈ split_name <$> splits)
  ∧ concat (assigned contents <$> splits) = ids.

(** Every ID of [ids] is in the list of exactly one definition. *)
Definition in_exactly_one_split (ids : list string)
    (splits : list DatasetSplitDefinition.t)
    (contents : gmap string (list string)) : Prop :=
  ∀ id, id ∈ ids →
    ∃ split, split ∈ splits ∧ id ∈ assigned contents split
             ∧ ∀ split', split' ∈ splits → id ∈ assigned contents split' →
                         split' = split.

(** What [build_split_contents] does for definitions of distinct names:
    it returns; the sizes are the rounded products; the lists lie in the
    shuffled sequence one after the other; and every filtered run ID is
    in exactly one of them. *)
Definition partitioned (runs : Task.t → list TaskRun.t)
    (shuffle : list string → list string) (task : Task.t)
    (splits : list DatasetSplitDefinition.t) (filter : TaskRun.t → bool)
    : Prop :=
  let valid_ids := TaskRun.id <$> List.filter filter (runs task) in
  let shuffled := shuffle valid_ids in
  ∃ contents sizes,
    DatasetSplit.build_split_contents runs shuffle task splits filter
    = Ok contents
    ∧ Forall2 (λ split size, DatasetSplit.split_size shuffled split = Ok size)
        (removelast splits) sizes
    ∧ Forall (λ size, 0 ≤ size) sizes
    ∧ consecutive_layout shuffled splits sizes contents
    ∧ shuffled ≡ₚ valid_ids
    ∧ (NoDup valid_ids → in_exactly_one_split valid_ids splits contents).

(** Ten runs, split 80/20. *)
Definition run_with_id (id : string) : TaskRun.t :=
  TaskRun.mk id "" None (TaskOutput.mk "" None None) None None None [] None
    None None.

Definition ten_runs (_ : Task.t) : list TaskRun.t :=
  run_with_id <$> ["a"; "b"; "c"; "d"; "e"; "f"; "g"; "h"; "i"; "j"]%string.

Definition train_test : list DatasetSplitDefinition.t :=
  [split_def "train" f0_8; split_def "test" f0_2].

(** Three runs under the halves a and b and an empty c; two runs under
    two definitions named "a". *)
Definition three_runs (_ : Task.t) : list TaskRun.t :=
  run_with_id <$> ["x"; "y"; "z"]%string.

Definition two_runs (_ : Task.t) : list TaskRun.t :=
  run_with_id <$> ["x"; "y"]%string.

Definition halves_and_nothing : list DatasetSplitDefinition.t :=
  [split_def "a" f0_5; split_def "b" f0_5; split_def "c" f0_0].

Definition same_name_twice : list DatasetSplitDefinition.t :=
  [split_def "a" f0_5; split_def "a" f0_5].

(** Two definitions named "a" that ask for nothing, and "b" for all. *)
Definition nothing_twice : list DatasetSplitDefinition.t :=
  [split_def "a" f0_0; split_def "a" f0_0; split_def "b" f1_0].

(** What [build_split_contents] does for any non-empty list of
    definitions, [cut] being the slices it computes, one per definition:
    a name reads back the slice of the last definition that has it; the
    IDs sliced for an earlier definition of a repeated name are in no
    list, which breaks the every-run-in-exactly-one-split guarantee;
    and the guarantee holds when the names are pairwise distinct. *)
Definition last_definition_wins (runs : Task.t → list TaskRun.t)
    (shuffle : list string → list string) (task : Task.t)
    (splits : list DatasetSplitDefinition.t) (filter : TaskRun.t → bool)
    : Prop :=
  let valid_ids := TaskRun.id <$> List.filter filter (runs task) in
  let shuffled := shuffle valid_ids in
  ∃ contents sizes,
    DatasetSplit.build_split_contents runs shuffle task splits filter
    = Ok contents
    ∧ Forall2 (λ split size, DatasetSplit.split_size shuffled split = Ok size)
        (removelast splits) sizes
    ∧ length (all_slices shuffled sizes) = length splits
    ∧ (∀ i split slice,
         splits !! i = Some split →
         all_slices shuffled sizes !! i = Some slice →
         (∀ j split', (i < j)%nat → splits !! j = Some split' →
            split_name split' ≠ split_name split) →
         contents !! split_name split = Some slice)
    ∧ (NoDup valid_ids →
       ∀ i j earlier later slice id,
         (i < j)%nat →
         splits !! i = Some earlier → splits !! j = Some later →
         split_name earlier = split_name later →
         all_slices shuffled sizes !! i = Some slice → id ∈ slice →
         id ∈ valid_ids
         ∧ (∀ name l, contents !! name = Some l → id ∉ l)
         ∧ ¬ in_exactly_one_split valid_ids splits contents)
    ∧ (distinct_names splits → NoDup valid_ids →
       in_exactly_one_split valid_ids splits contents).

(** The claim as the specification words it: the guarantee holds only
    when the names are pairwise distinct. *)
Definition exactly_one_only_when_distinct : Prop :=
  ∀ (runs : Task.t → list TaskRun.t) (shuffle : list string → list string)
    task splits filter contents,
    (∀ l, shuffle l ≡ₚ l) → admissible splits →
    DatasetSplit.build_split_contents runs shuffle task splits filter
    = Ok contents →
    let valid_ids := TaskRun.id <$> List.filter filter (runs task) in
    NoDup valid_ids →
    in_exactly_one_split valid_ids splits contents →
    distinct_names splits.

(** The double below 0.999999999, and [2^-55]: with three of the
    latter added to the former, the two algorithms of [sum] part ways at
    the edge of the tolerance. *)
Definition f0_9999999989999999 : float :=
  S754_finite false 9007199245733792 (-53).

Definition f2_pow_minus_55 : float := Float.of_ratio 1 (2 ^ 55).

Definition edge_of_tolerance : list DatasetSplitDefinition.t :=
  [split_def "a" f0_9999999989999999; split_def "b" f2_pow_minus_55;
   split_def "c" f2_pow_minus_55; split_def "d" f2_pow_minus_55].

(** ** What a split is built from *)

(** The IDs of the runs of a task that pass a filter, in storage order. *)
Definition filtered_ids (runs : Task.t → list TaskRun.t) (task : Task.t)
    (filter : TaskRun.t → bool) : list string :=
  TaskRun.id <$> List.filter filter (runs task).

(** The only exceptions [build_split_contents] can end in: those of
    [int * float] and of [round]. *)
Definition arithmetic_error (e : PyError) : Prop :=
  e = OverflowError ∨ e = NanToInteger.

(** A run of consecutive elements of a sequence: what is left of the
    first [n] elements after the first [lo]. *)
Definition consecutive_in (ids l : list string) : Prop :=
  ∃ lo n, ids = take n (drop lo l).

(** A result that holds nothing but what was asked for: every key is
    the name of a definition, and every list is a run of consecutive
    IDs of the shuffled sequence, each one the ID of a run of the task
    that passes the filter. *)
Definition only_filtered_runs (runs : Task.t → list TaskRun.t)
    (shuffle : list string → list string) (task : Task.t)
    (splits : list DatasetSplitDefinition.t) (filter : TaskRun.t → bool)
    : Prop :=
  match DatasetSplit.build_split_contents runs shuffle task splits filter with
  | Ok contents =>
      ∀ name ids, contents !! name = Some ids →
        name ∈ split_name <$> splits
        ∧ consecutive_in ids (shuffle (filtered_ids runs task filter))
        ∧ (NoDup (filtered_ids runs task filter) → NoDup ids)
        ∧ ∀ id, id ∈ ids →
            ∃ run, run ∈ runs task ∧ filter run = true ∧ TaskRun.id run = id
  | Raise e => arithmetic_error e
  end.

(** A definition list whose non-final percentage is not a number. *)
Definition nan_then_rest : list DatasetSplitDefinition.t :=
  [split_def "a" S754_nan; split_def "b" f0_5].

(** What [from_task] returns for admissible definitions. *)
Definition from_task_outcome (runs : Task.t → list TaskRun.t)
    (shuffle : list string → list string) (alg : SumAlgorithm)
    (name : string) (task : Task.t)
    (splits : list DatasetSplitDefinition.t) (filter : TaskRun.t → bool)
    (description : option string) : Prop :=
  let built := DatasetSplit.from_task runs shuffle alg name task splits filter
                 description in
  if Float.isclose (DatasetSplit.total_percentage alg splits) f1_0 f1e_9 then
    ∃ contents,
      DatasetSplit.build_split_contents runs shuffle task splits filter
      = Ok contents
      ∧ built = Ok (DatasetSplit.mk name description splits contents
                      (Some (ATask task)))
      ∧ DatasetSplit.missing_count runs
          (DatasetSplit.mk name description splits contents
             (Some (ATask task)))
        = Ok 0%nat
  else built = Raise SplitPercentagesSum.

Definition predefined_split_definitions
    : list (list DatasetSplitDefinition.t) :=
  [AllSplitDefinition; Train80Test20SplitDefinition;
   Train60Test20Val20SplitDefinition; Train80Test10Val10SplitDefinition].

(** What [from_task] does with one of the shipped definition lists. *)
Definition frozen_and_partitioned (runs : Task.t → list TaskRun.t)
    (shuffle : list string → list string) (alg : SumAlgorithm)
    (name : string) (task : Task.t)
    (splits : list DatasetSplitDefinition.t) (filter : TaskRun.t → bool)
    (description : option string) : Prop :=
  ∃ contents sizes,
    DatasetSplit.from_task runs shuffle alg name task splits filter description
    = Ok (DatasetSplit.mk name description splits contents
            (Some (ATask task)))
    ∧ consecutive_layout (shuffle (filtered_ids runs task filter)) splits sizes
        contents
    ∧ (NoDup (filtered_ids runs task filter) →
       in_exactly_one_split (filtered_ids runs task filter) splits contents).

(** Two results that give every name a list of the same length. *)
Definition same_sizes (contents contents' : gmap string (list string)) : Prop :=
  ∀ name, length <$> contents !! name = length <$> contents' !! name.

(** The shuffle has no say in the sizes of the lists. *)
Definition sizes_fixed (runs : Task.t → list TaskRun.t)
    (shuffle shuffle' : list string → list string) (task : Task.t)
    (splits : list DatasetSplitDefinition.t) (filter : TaskRun.t → bool)
    : Prop :=
  ∃ contents contents',
    DatasetSplit.build_split_contents runs shuffle task splits filter
    = Ok contents
    ∧ DatasetSplit.build_split_contents runs shuffle' task splits filter
      = Ok contents'
    ∧ same_sizes contents contents'.

(** ** Ratings, passes and sources *)

(** The integers at which a rating of a scale counts as high quality. *)
Definition high_quality_value (ty : TaskOutputRatingType) (n : Z) : Prop :=
  match ty with
  | five_star => n = 4 ∨ n = 5
  | pass_fail | pass_fail_critical => n = 1
  | custom => False
  end.

(** A four-star rating. *)
Definition four_stars : TaskOutputRating.t :=
  TaskOutputRating.mk five_star (Some f4_0) ∅.

(** The fields of a run that are data, as opposed to the two caches. *)
Definition same_data (self self' : TaskRun.t) : Prop :=
  TaskRun.id self' = TaskRun.id self
  ∧ TaskRun.input self' = TaskRun.input self
  ∧ TaskRun.input_source self' = TaskRun.input_source self
  ∧ TaskRun.output self' = TaskRun.output self
  ∧ TaskRun.repair_instructions self' = TaskRun.repair_instructions self
  ∧ TaskRun.repaired_output self' = TaskRun.repaired_output self
  ∧ TaskRun.intermediate_outputs self' = TaskRun.intermediate_outputs self
  ∧ TaskRun.tags self' = TaskRun.tags self
  ∧ TaskRun.parent self' = TaskRun.parent self.

(** What a pass that ended without an exception has left behind. *)
Definition settled {Json : Type} (json_loads : string → option Json)
    (validate_schema : Json → string → bool) (strict_mode : bool)
    (info : ValidationInfo) (self : TaskRun.t) (tr : list Event)
    (self' : TaskRun.t) : Prop :=
  same_data self self'
  ∧ (TaskRun._last_validated_input self' = TaskRun._last_validated_input self
     ∨ TaskRun._last_validated_input self' = Some (TaskRun.input self))
  ∧ (TaskRun._last_validated_output self' = TaskRun._last_validated_output self
     ∨ TaskRun._last_validated_output self'
       = Some (TaskOutput.output (TaskRun.output self)))
  ∧ (length tr ≤ 2)%nat
  ∧ TaskRun.validate json_loads validate_schema strict_mode info self'
    = ([], Ok self').

Definition not_loading : ValidationInfo :=
  {| loading_from_file := false; loaded_from_file := false |}.

(** A freshly built run that has no parent yet. *)
Definition orphan_run : TaskRun.t :=
  TaskRun.mk "run" "not json" None (TaskOutput.mk "not json" None None) None
    None None [] None None None.

(** How a run without a parent task is treated, and what happens once
    a task is attached. *)
Definition left_unchecked {Json : Type} (json_loads : string → option Json)
    (validate_schema : Json → string → bool) (info : ValidationInfo)
    (self : TaskRun.t) : Prop :=
  let validate_in := TaskRun.validate_input_format json_loads validate_schema in
  let validate_out := TaskRun.validate_output_format json_loads validate_schema in
  validate_in info self = ([], Ok self)
  ∧ validate_out info self = ([], Ok self)
  ∧ (∀ strict_mode,
       (TaskRun.validate json_loads validate_schema strict_mode info self).1
       = [])
  ∧ ∀ task schema_in schema_out,
      Task.input_json_schema task = Some schema_in →
      Task.output_json_schema task = Some schema_out →
      let attached := TaskRun.with_parent (Some (ATask task)) self in
      (TaskRun._last_validated_input self ≠ Some (TaskRun.input self) →
       (validate_in info attached).1
       = [SchemaCheck (TaskRun.input self) schema_in])
      ∧ (TaskRun._last_validated_output self
         ≠ Some (TaskOutput.output (TaskRun.output self)) →
         (validate_out info attached).1
         = [SchemaCheck (TaskOutput.output (TaskRun.output self)) schema_out]).

(** A property that is present as a string that is not empty. *)
Definition nonempty_string (props : gmap string PropertyValue)
    (name : string) : Prop :=
  ∃ s, props !! name = Some (PStr s) ∧ s ≠ ""%string.

(** A percentage that is an infinity or not a number. *)
Definition not_finite (f : float) : bool :=
  match f with
  | S754_infinity _ | S754_nan => true
  | S754_zero _ | S754_finite _ _ _ => false
  end.

(** Whether a value passes a schema that may be absent. *)
Definition schema_ok {Json : Type} (json_loads : string → option Json)
    (validate_schema : Json → string → bool) (value : string)
    (schema : option string) : Prop :=
  match schema with
  | None => True
  | Some schema =>
      ∃ v, json_loads value = Some v ∧ validate_schema v schema = true
  end.

(** When the input validator lets a run through: it is loading, or the
    input is the one validated last, or there is no task to ask, or the
    input passes the input schema of the task. *)
Definition input_accepted {Json : Type} (json_loads : string → option Json)
    (validate_schema : Json → string → bool) (info : ValidationInfo)
    (self : TaskRun.t) : Prop :=
  loading_from_file info = true
  ∨ TaskRun._last_validated_input self = Some (TaskRun.input self)
  ∨ match TaskRun.parent_task self with
    | None => True
    | Some task =>
        schema_ok json_loads validate_schema (TaskRun.input self)
          (Task.input_json_schema task)
    end.

Definition output_accepted {Json : Type} (json_loads : string → option Json)
    (validate_schema : Json → string → bool) (info : ValidationInfo)
    (self : TaskRun.t) : Prop :=
  loading_from_file info = true
  ∨ TaskRun._last_validated_output self
    = Some (TaskOutput.output (TaskRun.output self))
  ∨ match TaskRun.parent_task self with
    | None => True
    | Some task =>
        schema_ok json_loads validate_schema
          (TaskOutput.output (TaskRun.output self))
          (Task.output_json_schema task)
    end.

(** What strict mode asks of a run. *)
Definition input_source_given (strict_mode : bool) (info : ValidationInfo)
    (self : TaskRun.t) : Prop :=
  strict_mode = true →
  loaded_from_file info = true ∨ is_Some (TaskRun.input_source self).

(** The three validators of a pass that read the data only, in the
    order the pass runs them. *)
Definition validate_data (strict_mode : bool) (info : ValidationInfo)
    (self : TaskRun.t) : result TaskRun.t :=
  self ← TaskRun.validate_repaired_output self;
  self ← TaskRun.validate_input_source strict_mode info self;
  TaskRun.validate_tags self.

(** * Properties *)

(** ** Floats and integers *)

Section FloatFacts.

Lemma pow2_pos (e : Z) : 0 < 2 ^ e ∨ (e < 0 ∧ 2 ^ e = 0).
Proof.
  destruct (Z_lt_le_dec e 0) as [Hneg|Hnn].
  - right. split; [done|]. by apply Z.pow_neg_r.
  - left. by apply Z.pow_pos_nonneg.
Qed.

Lemma signed_mod_zero (s : bool) (m : positive) (d : Z) :
  Zpos m mod d = 0 → Float.signed s m mod d = 0.
Proof.
  intros Hm. destruct s; simpl; [|done].
  change (Z.neg m) with (- Z.pos m). destruct (decide (d = 0)) as [->|Hd].
  - rewrite Z.mod_0_r in Hm. lia.
  - by apply Z.mod_opp_l_z.
Qed.

Lemma is_integer_int_value (f : float) :
  Float.is_integer f = true ↔ ∃ k, Float.int_value f = Some k.
Proof.
  destruct f as [s|s| |s m e]; simpl; try (split; [intros|intros [k ?]]; by eauto).
  destruct (0 <=? e); simpl; [split; by eauto|].
  destruct (Z.pos m mod 2 ^ (- e) =? 0); split; try intros [k ?]; by eauto.
Qed.

Lemma compare_int_value (f : float) (k n : Z) :
  Float.int_value f = Some k → Float.compare_int f n = Some (k ?= n).
Proof.
  destruct f as [s|s| |s m e]; simpl; try done.
  - by intros [= <-].
  - destruct (0 <=? e) eqn:He; [by intros [= <-]|].
    destruct (Z.pos m mod 2 ^ (- e) =? 0) eqn:Hmod; [|done].
    intros [= <-]. f_equal.
    apply Z.leb_gt in He. apply Z.eqb_eq in Hmod.
    assert (0 < 2 ^ (- e)) as Hd by (apply Z.pow_pos_nonneg; lia).
    pose proof (signed_mod_zero s m _ Hmod) as Hs.
    apply Z.div_exact in Hs; [|lia].
    rewrite Hs at 1. set (k := Float.signed s m / 2 ^ (- e)) in *.
    destruct (Z.compare_spec (2 ^ (- e) * k) (n * 2 ^ (- e))),
      (Z.compare_spec k n); done || nia.
Qed.

Lemma int_value_is_integer (f : float) (k : Z) :
  Float.int_value f = Some k → Float.is_integer f = true.
Proof. intros. apply is_integer_int_value. by eauto. Qed.

Lemma eqb_int_value (f : float) (k n : Z) :
  Float.int_value f = Some k → Float.eqb_int f n = bool_decide (k = n).
Proof.
  intros Hk. unfold Float.eqb_int. rewrite (compare_int_value _ _ _ Hk).
  case_bool_decide as Hkn.
  - subst. by rewrite Z.compare_refl.
  - destruct (Z.compare_spec k n); by try lia.
Qed.

Lemma ltb_int_value (f : float) (k n : Z) :
  Float.int_value f = Some k → Float.ltb_int f n = bool_decide (k < n).
Proof.
  intros Hk. unfold Float.ltb_int. rewrite (compare_int_value _ _ _ Hk).
  case_bool_decide; destruct (Z.compare_spec k n); done || lia.
Qed.

Lemma gtb_int_value (f : float) (k n : Z) :
  Float.int_value f = Some k → Float.gtb_int f n = bool_decide (n < k).
Proof.
  intros Hk. unfold Float.gtb_int. rewrite (compare_int_value _ _ _ Hk).
  case_bool_decide; destruct (Z.compare_spec k n); done || lia.
Qed.

End FloatFacts.

(** ** The rounding of binary64 arithmetic *)

Section Binary64.

Lemma fexp_binary64 (x : Z) :
  fexp Float.prec Float.emax x = Z.max (x - 53) (-1074).
Proof. reflexivity. Qed.

Lemma digits2_pos_size (p : positive) : digits2_pos p = Pos.size p.
Proof. induction p as [p IH|p IH|]; simpl; by rewrite ?IH. Qed.

Lemma Zdigits2_nonneg (m : Z) : 0 ≤ Zdigits2 m.
Proof. destruct m; simpl; lia. Qed.

Lemma Zdigits2_gt (m : Z) : 0 ≤ m → m < 2 ^ Zdigits2 m.
Proof.
  destruct m as [|p|p]; simpl; [lia| |lia]. intros _.
  rewrite digits2_pos_size. pose proof (Pos.size_gt p) as Hgt.
  apply Pos2Z.pos_lt_pos in Hgt. by rewrite Pos2Z.inj_pow in Hgt.
Qed.

Lemma Zdigits2_le (m k : Z) : 0 ≤ m → 0 ≤ k → m < 2 ^ k → Zdigits2 m ≤ k.
Proof.
  destruct m as [|p|p]; simpl; [lia| |lia]. intros _ Hk Hlt.
  rewrite digits2_pos_size. pose proof (Pos.size_le p) as Hle.
  apply Pos2Z.pos_le_pos in Hle. rewrite Pos2Z.inj_pow in Hle.
  destruct (Z_le_gt_dec (Z.pos (Pos.size p)) k) as [|Hgt]; [done|exfalso].
  assert (2 ^ (k + 1) ≤ 2 ^ Z.pos (Pos.size p)) as Hpow
    by (apply Z.pow_le_mono_r; lia).
  rewrite Z.pow_add_r in Hpow by lia.
  change (Z.pos p~0) with (2 * Z.pos p) in Hle. lia.
Qed.

Lemma shr_1_bounds (mrs : shr_record) :
  0 ≤ shr_m mrs → 0 ≤ shr_m (shr_1 mrs) ≤ shr_m mrs.
Proof.
  destruct mrs as [m r s]. simpl.
  destruct m as [|[p|p|]|[p|p|]]; simpl; lia.
Qed.

Lemma iter_shr_1_bounds (n : positive) (mrs : shr_record) :
  0 ≤ shr_m mrs → 0 ≤ shr_m (SpecFloat.iter_pos shr_1 n mrs) ≤ shr_m mrs.
Proof.
  revert mrs. induction n as [n IH|n IH|]; intros mrs Hm; simpl.
  - pose proof (shr_1_bounds mrs Hm) as H1.
    pose proof (IH (shr_1 mrs) (proj1 H1)) as H2.
    pose proof (IH _ (proj1 H2)) as H3. lia.
  - pose proof (IH mrs Hm) as H1.
    pose proof (IH _ (proj1 H1)) as H2. lia.
  - by apply shr_1_bounds.
Qed.

Lemma shr_m_of_loc (m : Z) (l : location) : shr_m (shr_record_of_loc m l) = m.
Proof. by destruct l as [|[]]. Qed.

Lemma shr_fexp_bounds (m e : Z) (l : location) :
  0 ≤ m →
  0 ≤ shr_m (shr_fexp Float.prec Float.emax m e l).1 ≤ m
  ∧ (shr_fexp Float.prec Float.emax m e l).2
    = Z.max e (fexp Float.prec Float.emax (Zdigits2 m + e)).
Proof.
  intros Hm. unfold shr_fexp, shr.
  destruct (fexp _ _ _ - e) as [|n|n] eqn:Hshift; simpl.
  - rewrite shr_m_of_loc. lia.
  - pose proof (iter_shr_1_bounds n (shr_record_of_loc m l)) as Hiter.
    rewrite shr_m_of_loc in Hiter. lia.
  - rewrite shr_m_of_loc. lia.
Qed.

Lemma round_nearest_even_bounds (m : Z) (l : location) :
  m ≤ round_nearest_even m l ≤ m + 1.
Proof.
  unfold round_nearest_even. destruct l as [|[]]; try lia.
  destruct (Z.even m); lia.
Qed.

(** Rounding a non-negative mantissa of at most [D] digits at an
    exponent of at most [E]: the result is a zero or a finite number,
    of the same sign, as long as the exponent stays below the overflow
    threshold. *)
Lemma binary_round_aux_finite (s : bool) (m e : Z) (l : location) (D E : Z) :
  0 ≤ m → Zdigits2 m ≤ D → e ≤ E →
  round_exponent_bound D E ≤ 971 →
  binary_round_aux Float.prec Float.emax s m e l = S754_zero s
  ∨ ∃ m' e', binary_round_aux Float.prec Float.emax s m e l
             = S754_finite s m' e'
             ∧ Z.pos m' ≤ m + 1
             ∧ e' ≤ round_exponent_bound D E.
Proof.
  unfold round_exponent_bound.
  intros Hm HD HE Hbound. unfold binary_round_aux.
  destruct (shr_fexp _ _ m e l) as [mrs' e'] eqn:H1.
  pose proof (shr_fexp_bounds m e l Hm) as [Hm1 He1]. rewrite H1 in Hm1, He1.
  simpl in Hm1, He1.
  set (m1 := round_nearest_even (shr_m mrs') (loc_of_shr_record mrs')).
  pose proof (round_nearest_even_bounds (shr_m mrs') (loc_of_shr_record mrs'))
    as Hr. fold m1 in Hr.
  destruct (shr_fexp _ _ m1 e' loc_Exact) as [mrs'' e''] eqn:H2.
  pose proof (shr_fexp_bounds m1 e' loc_Exact ltac:(lia)) as [Hm2 He2].
  rewrite H2 in Hm2, He2. simpl in Hm2, He2.
  rewrite fexp_binary64 in He1, He2.
  pose proof (Zdigits2_nonneg m) as Hd0.
  assert (Zdigits2 m1 ≤ D + 1) as Hd1.
  { apply Zdigits2_le; [lia|lia|].
    pose proof (Zdigits2_gt m Hm) as Hgt.
    assert (2 ^ Zdigits2 m ≤ 2 ^ D) by (apply Z.pow_le_mono_r; lia).
    rewrite Z.pow_add_r by lia. lia. }
  pose proof (Zdigits2_nonneg m1) as Hd1'.
  destruct (shr_m mrs'') as [|m''|m''] eqn:Hm''; [by left| |lia].
  right. rewrite (proj2 (Z.leb_le e'' (Float.emax - Float.prec))).
  - exists m'', e''. split; [done|]. split; lia.
  - change (Float.emax - Float.prec) with 971. lia.
Qed.

End Binary64.

(** ** Rating taxonomy *)

Section Ratings.

Import TaskOutputRating.

Lemma validate_five_star_ok (v : float) (name : RatingName) :
  _validate_five_star (Some v) name = Ok () ↔ legal_rating five_star v.
Proof.
  unfold _validate_five_star. simpl. split.
  - destruct (Float.is_integer v) eqn:Hint; [|done]. simpl.
    apply is_integer_int_value in Hint as [k Hk].
    rewrite (ltb_int_value _ _ _ Hk), (gtb_int_value _ _ _ Hk).
    do 2 case_bool_decide; simpl; try done.
    intros _. exists k. split; [lia|done].
  - intros (n & Hn & Hv).
    rewrite (int_value_is_integer _ _ Hv). simpl.
    rewrite (ltb_int_value _ _ _ Hv), (gtb_int_value _ _ _ Hv).
    do 2 case_bool_decide; simpl; done || lia.
Qed.

Lemma validate_pass_fail_ok (v : float) (name : RatingName) :
  _validate_pass_fail (Some v) name = Ok () ↔ legal_rating pass_fail v.
Proof.
  unfold _validate_pass_fail, Float.in_ints. simpl. split.
  - destruct (Float.is_integer v) eqn:Hint; [|done]. simpl.
    apply is_integer_int_value in Hint as [k Hk].
    rewrite !(eqb_int_value _ _ _ Hk).
    do 2 case_bool_decide; simpl; try done; intros _; exists k; by auto.
  - intros (n & Hn & Hv).
    rewrite (int_value_is_integer _ _ Hv). simpl.
    rewrite !(eqb_int_value _ _ _ Hv).
    do 2 case_bool_decide; simpl; done || lia.
Qed.

Lemma validate_pass_fail_critical_ok (v : float) (name : RatingName) :
  _validate_pass_fail_critical (Some v) name = Ok ()
  ↔ legal_rating pass_fail_critical v.
Proof.
  unfold _validate_pass_fail_critical, Float.in_ints. simpl. split.
  - destruct (Float.is_integer v) eqn:Hint; [|done]. simpl.
    apply is_integer_int_value in Hint as [k Hk].
    rewrite !(eqb_int_value _ _ _ Hk).
    do 3 case_bool_decide; simpl; try done; intros _; exists k; by auto.
  - intros (n & Hn & Hv).
    rewrite (int_value_is_integer _ _ Hv). simpl.
    rewrite !(eqb_int_value _ _ _ Hv).
    do 3 case_bool_decide; simpl; done || lia.
Qed.

Lemma validate_rating_value_ok (ty : TaskOutputRatingType) (v : float)
    (name : RatingName) :
  _validate_rating ty (Some v) name = Ok () ↔ legal_rating ty v.
Proof.
  destruct ty; simpl _validate_rating.
  - apply validate_five_star_ok.
  - apply validate_pass_fail_ok.
  - apply validate_pass_fail_critical_ok.
  - done.
Qed.

Lemma validate_requirement_ratings_ok
    (items : list (string * RequirementRating.t)) :
  validate_requirement_ratings items = Ok ()
  ↔ Forall (λ item, legal_rating (RequirementRating.type item.2)
                      (RequirementRating.value item.2)) items.
Proof.
  induction items as [|[req_id r] items IH]; simpl.
  - split; by auto.
  - rewrite Forall_cons. simpl. rewrite <- IH.
    rewrite <- (validate_rating_value_ok _ _ (requirement_rating req_id)).
    destruct (_validate_rating _ _ _) as [[]|]; simpl.
    + split; [by auto|by intros [_ ?]].
    + split; [done|by intros [? _]].
Qed.

Lemma requirement_ratings_legal_list (self : t) :
  all_requirement_ratings_legal self
  ↔ Forall (λ item, legal_rating (RequirementRating.type item.2)
                      (RequirementRating.value item.2))
      (map_to_list (requirement_ratings self)).
Proof.
  rewrite Forall_forall. unfold all_requirement_ratings_legal. split.
  - intros H [req_id r] Hin. apply elem_of_map_to_list in Hin. by eapply H.
  - intros H req_id r Hr. by apply (H (req_id, r)), elem_of_map_to_list.
Qed.

End Ratings.

(** *** Ratings that are doubles

    On the doubles Python works with, the legal five_star ratings are
    the five doubles 1.0 to 5.0, and so on for the other scales. *)

Section RatingDoubles.

Lemma Zdigits2_lower (p : positive) : 2 ^ Zdigits2 (Z.pos p) ≤ 2 * Z.pos p.
Proof.
  simpl. rewrite digits2_pos_size. pose proof (Pos.size_le p) as Hle.
  apply Pos2Z.pos_le_pos in Hle. by rewrite Pos2Z.inj_pow in Hle.
Qed.

(** A canonical mantissa that stands for a small integer is that
    integer shifted to 53 bits. *)
Lemma small_integer_mantissa (m : positive) (e n : Z) :
  bounded Float.prec Float.emax m e = true →
  Float.int_value (S754_finite false m e) = Some n →
  n ≤ 5 →
  1 ≤ n ∧ e < 0 ∧ Z.pos m = n * 2 ^ (- e)
  ∧ 2 ^ 52 ≤ n * 2 ^ (- e) < 2 ^ 53.
Proof.
  unfold bounded, canonical_mantissa. rewrite andb_true_iff, Z.eqb_eq.
  rewrite fexp_binary64. intros [Hcanon _] Hvalue Hn.
  pose proof (Zdigits2_gt (Z.pos m) ltac:(lia)) as Hgt.
  pose proof (Zdigits2_lower m) as Hlow.
  simpl in Hgt, Hlow, Hvalue. set (d := Z.pos (digits2_pos m)) in *.
  destruct (0 <=? e) eqn:He.
  - apply Z.leb_le in He. simplify_eq/=.
    assert (1 ≤ 2 ^ e) by (apply (Z.pow_le_mono_r 2 0 e); lia).
    assert (Z.pos m ≤ 5) by nia.
    assert (2 ^ d ≤ 2 ^ 4) as Hd by lia.
    apply Z.pow_le_mono_r_iff in Hd; lia.
  - apply Z.leb_gt in He.
    destruct (Z.pos m mod 2 ^ (- e) =? 0) eqn:Hmod; [|done].
    apply Z.eqb_eq in Hmod. simplify_eq/=.
    assert (0 < 2 ^ (- e)) as Hpow by (apply Z.pow_pos_nonneg; lia).
    apply Z.div_exact in Hmod; [|lia].
    set (n := Z.pos m / 2 ^ (- e)) in *.
    assert (1 ≤ n) by nia.
    assert (d = 53) as Hd53.
    { destruct (Z.max_spec (d + e - 53) (-1074)) as [[_ Hmax]|[_ Hmax]];
        [|lia].
      exfalso. assert (e = -1074) as -> by lia.
      change (- -1074) with 1074 in *.
      assert (2 ^ 1074 ≤ Z.pos m) by nia.
      assert (2 ^ 1074 < 2 ^ d) as Hlt by lia.
      apply Z.pow_lt_mono_r_iff in Hlt; lia. }
    rewrite Hd53 in Hgt, Hlow.
    change (2 ^ 53) with (2 * 2 ^ 52) in Hlow.
    split_and!; lia.
Qed.

Lemma pow2_window (n k lo : Z) :
  0 ≤ k → 0 ≤ lo → 0 < n →
  n * 2 ^ lo < 2 ^ 53 → 2 ^ 52 ≤ n * 2 ^ lo →
  2 ^ 53 ≤ 2 * n * 2 ^ lo →
  2 ^ 52 ≤ n * 2 ^ k < 2 ^ 53 → k = lo.
Proof.
  intros Hk Hlo Hn Hhi Hlow Hnext [Hk1 Hk2].
  destruct (Z.lt_trichotomy k lo) as [Hlt|[?|Hgt]]; [exfalso|done|exfalso].
  - assert (2 ^ (k + 1) ≤ 2 ^ lo) as Hpow by (apply Z.pow_le_mono_r; lia).
    rewrite Z.pow_add_r in Hpow by lia. nia.
  - assert (2 ^ (lo + 1) ≤ 2 ^ k) as Hpow by (apply Z.pow_le_mono_r; lia).
    rewrite Z.pow_add_r in Hpow by lia. nia.
Qed.

Lemma small_integer_double (v : float) (n : Z) :
  Float.valid v = true → Float.int_value v = Some n → -1 ≤ n ≤ 5 →
  v = Float.of_Z n ∨ (n = 0 ∧ v = S754_zero true).
Proof.
  intros Hvalid Hvalue Hn.
  destruct v as [[]|s| |s m e]; simplify_eq/=; [by right|by left|].
  left. destruct s.
  - (* a negative double: its opposite stands for [- n] *)
    assert (Float.int_value (S754_finite false m e) = Some (- n)) as Hopp.
    { revert Hvalue. simpl. destruct (0 <=? e); [intros [= <-]; f_equal; lia|].
      destruct (_ =? 0) eqn:Hmod; [|done]. intros [= <-]. f_equal.
      apply Z.eqb_eq in Hmod. change (Z.neg m) with (- Z.pos m).
      rewrite Z.div_opp_l_z; [lia| |done].
      assert (0 < 2 ^ (- e)); [|lia].
      destruct (pow2_pos (- e)) as [?|[_ Hz]]; [done|].
      rewrite Hz, Z.mod_0_r in Hmod. lia. }
    destruct (small_integer_mantissa m e (- n) Hvalid Hopp ltac:(lia))
      as (Hn1 & He & Hm & Hwin).
    assert (n = -1) as -> by lia. change (- -1) with 1 in *.
    assert (- e = 52) as He52
      by (apply (pow2_window 1 (- e) 52); try done; lia).
    assert (e = -52) as -> by lia. change (- -52) with 52 in Hm.
    assert (m = 4503599627370496%positive) as -> by lia.
    by vm_compute.
  - destruct (small_integer_mantissa m e n Hvalid Hvalue ltac:(lia))
      as (Hn1 & He & Hm & Hwin).
    assert (n = 1 ∨ n = 2 ∨ n = 3 ∨ n = 4 ∨ n = 5) as Hcases by lia.
    destruct Hcases as [->|[->|[->|[->| ->]]]].
    + assert (- e = 52) as He52
        by (apply (pow2_window 1 (- e) 52); try done; lia).
      assert (e = -52) as -> by lia. change (- -52) with 52 in Hm.
      assert (m = 4503599627370496%positive) as -> by lia. by vm_compute.
    + assert (- e = 51) as He51
        by (apply (pow2_window 2 (- e) 51); try done; lia).
      assert (e = -51) as -> by lia. change (- -51) with 51 in Hm.
      assert (m = 4503599627370496%positive) as -> by lia. by vm_compute.
    + assert (- e = 51) as He51
        by (apply (pow2_window 3 (- e) 51); try done; lia).
      assert (e = -51) as -> by lia. change (- -51) with 51 in Hm.
      assert (m = 6755399441055744%positive) as -> by lia. by vm_compute.
    + assert (- e = 50) as He50
        by (apply (pow2_window 4 (- e) 50); try done; lia).
      assert (e = -50) as -> by lia. change (- -50) with 50 in Hm.
      assert (m = 4503599627370496%positive) as -> by lia. by vm_compute.
    + assert (- e = 50) as He50
        by (apply (pow2_window 5 (- e) 50); try done; lia).
      assert (e = -50) as -> by lia. change (- -50) with 50 in Hm.
      assert (m = 5629499534213120%positive) as -> by lia. by vm_compute.
Qed.

(** The doubles each scale accepts. *)
Lemma legal_rating_doubles (ty : TaskOutputRatingType) (v : float) :
  Float.valid v = true →
  legal_rating ty v
  ↔ match ty with
    | five_star => v ∈ [f1_0; f2_0; f3_0; f4_0; f5_0]
    | pass_fail => v ∈ [f0_0; S754_zero true; f1_0]
    | pass_fail_critical => v ∈ [fminus1_0; f0_0; S754_zero true; f1_0]
    | custom => True
    end.
Proof.
  intros Hvalid. destruct ty; simpl; [| | |done].
  - split.
    + intros (n & Hn & Hv).
      destruct (small_integer_double v n Hvalid Hv ltac:(lia))
        as [->|[-> _]]; [|lia].
      assert (n = 1 ∨ n = 2 ∨ n = 3 ∨ n = 4 ∨ n = 5) as Hc by lia.
      rewrite !elem_of_cons.
      destruct Hc as [->|[->|[->|[->| ->]]]]; by auto 6.
    + rewrite !elem_of_cons, elem_of_nil.
      intros [->|[->|[->|[->|[->|[]]]]]]; eexists;
        (split; [|by vm_compute]); lia.
  - split.
    + intros (n & Hn & Hv).
      destruct (small_integer_double v n Hvalid Hv ltac:(lia))
        as [->|[_ ->]]; rewrite !elem_of_cons;
        [destruct Hn as [-> | ->]|]; by auto.
    + rewrite !elem_of_cons, elem_of_nil.
      intros [->|[->|[->|[]]]]; eexists; (split; [|by vm_compute]); lia.
  - split.
    + intros (n & Hn & Hv).
      destruct (small_integer_double v n Hvalid Hv ltac:(lia))
        as [->|[_ ->]]; rewrite !elem_of_cons;
        [destruct Hn as [->|[-> | ->]]|]; by auto 6.
    + rewrite !elem_of_cons, elem_of_nil.
      intros [->|[->|[->|[->|[]]]]]; eexists; (split; [|by vm_compute]); lia.
Qed.

End RatingDoubles.

Section RatingTheorems.

Import TaskOutputRating.

Lemma validate_rating_returns_self (self r : t) :
  validate_rating self = Ok r → r = self.
Proof.
  unfold validate_rating.
  destruct (match value self with Some _ => _ | None => _ end) as [[]|];
    simpl; [|done].
  destruct (validate_requirement_ratings _) as [[]|]; simpl; [|done].
  by intros [= <-].
Qed.

(** C3, as amended: [validate_rating] accepts a rating exactly when its
    overall value is absent or legal for the declared type and every
    requirement rating is legal for its own type; five_star is legal at
    the integers 1 to 5, pass_fail at 0 and 1, pass_fail_critical at -1,
    0 and 1, custom everywhere.  The helpers reject [None] for the three
    checked scales, but the overall value is optional and is only
    checked when present. *)
Theorem validate_rating_accepts :
  (∀ self : t,
      is_ok (validate_rating self) = true
      ↔ (∀ v, value self = Some v → legal_rating (type self) v)
        ∧ all_requirement_ratings_legal self)
  ∧ (∀ ty v name, _validate_rating ty (Some v) name = Ok () ↔ legal_rating ty v)
  ∧ (∀ ty name, ty ≠ custom → is_ok (_validate_rating ty None name) = false)
  ∧ (∀ rating name, _validate_rating custom rating name = Ok ())
  ∧ (∀ v name, Float.valid v = true →
       (_validate_rating five_star (Some v) name = Ok ()
        ↔ v ∈ [f1_0; f2_0; f3_0; f4_0; f5_0])
       ∧ (_validate_rating pass_fail (Some v) name = Ok ()
          ↔ v ∈ [f0_0; S754_zero true; f1_0])
       ∧ (_validate_rating pass_fail_critical (Some v) name = Ok ()
          ↔ v ∈ [fminus1_0; f0_0; S754_zero true; f1_0]))
  ∧ Forall (legal_rating five_star) [f1_0; f2_0; f3_0; f4_0; f5_0]
  ∧ Forall (λ v, ¬ legal_rating five_star v) [f0_0; f6_0; f2_5]
  ∧ Forall (legal_rating pass_fail) [f0_0; f1_0]
  ∧ Forall (legal_rating pass_fail_critical) [fminus1_0; f0_0; f1_0].
Proof.
  split; [|split; [|split; [|split; [|split]]]].
  - intros self. rewrite requirement_ratings_legal_list.
    rewrite <- validate_requirement_ratings_ok.
    unfold validate_rating. destruct (value self) as [v|]; simpl.
    + pose proof (validate_rating_value_ok (type self) v overall_rating) as Hv.
      destruct (_validate_rating _ _ _) as [[]|] eqn:Hr; simpl.
      * destruct (validate_requirement_ratings _) as [[]|]; simpl.
        -- split; [|done]. intros _. split; [|done].
           intros ? [= <-]. by apply Hv.
        -- split; [done|]. by intros [_ ?].
      * split; [done|]. intros [Hl _].
        specialize (Hl v eq_refl). by apply Hv in Hl.
    + destruct (validate_requirement_ratings _) as [[]|]; simpl.
      * split; by auto.
      * split; [done|]. by intros [_ ?].
  - apply validate_rating_value_ok.
  - intros [] name Hty; done.
  - done.
  - intros v name Hvalid. rewrite !validate_rating_value_ok.
    split_and!.
    + apply (legal_rating_doubles five_star v Hvalid).
    + apply (legal_rating_doubles pass_fail v Hvalid).
    + apply (legal_rating_doubles pass_fail_critical v Hvalid).
  - repeat split.
    + repeat constructor; eexists; (split; [|vm_compute; reflexivity]); lia.
    + repeat constructor; intros (n & Hn & Hv); vm_compute in Hv;
        simplify_eq; lia.
    + repeat constructor; eexists; (split; [|vm_compute; reflexivity]); lia.
    + repeat constructor; eexists; (split; [|vm_compute; reflexivity]); lia.
Qed.

(** A five_star rating without an overall value is accepted. *)
Lemma rating_without_value_accepted :
  validate_rating (mk five_star None ∅) = Ok (mk five_star None ∅)
  ∧ ¬ legal_rating_or_nothing five_star None
  ∧ ¬ validate_rating_as_specified.
Proof.
  split; [done|]. split; [done|].
  intros H. destruct (H (mk five_star None ∅)) as [Hacc _].
  by destruct (Hacc eq_refl) as [? _].
Qed.

End RatingTheorems.

(** ** Tags *)

Section Tags.

Import TaskRun.

Lemma has_space_spec (tag : string) :
  has_space tag = true ↔ " "%char ∈ list_ascii_of_string tag.
Proof.
  induction tag as [|c rest IH]; simpl.
  - split; [done|]. by intros ?%elem_of_nil.
  - rewrite orb_true_iff, IH, elem_of_cons, Ascii.eqb_eq.
    split; (intros [?|?]; [left|right]; done).
Qed.

Lemma check_tags_ok (tags : list string) :
  check_tags tags = Ok ()
  ↔ Forall (λ tag, tag ≠ ""%string ∧ " "%char ∉ list_ascii_of_string tag) tags.
Proof.
  induction tags as [|tag rest IH]; simpl.
  - split; by auto.
  - rewrite Forall_cons, <- IH, <- has_space_spec.
    case_bool_decide as Hempty; [by split; [|intros [[? _] _]]|].
    destruct (has_space tag).
    + split; [done|]. intros [[_ Hsp] _]. by destruct Hsp.
    + split; [|by intros [_ ?]]. intros ?. by split_and!.
Qed.

Lemma validate_tags_ok (self : t) :
  is_ok (validate_tags self) = true ↔ check_tags (tags self) = Ok ().
Proof.
  unfold validate_tags. destruct (check_tags _) as [[]|]; simpl; by split.
Qed.

Lemma bind_ok_inv {A B} (r : result A) (k : A → result B) (b : B) :
  r ≫= k = Ok b → ∃ a, r = Ok a ∧ k a = Ok b.
Proof. destruct r as [a|]; simpl; [by eauto|done]. Qed.

Lemma validate_tags_returns_self (self r : t) :
  validate_tags self = Ok r → r = self.
Proof.
  unfold validate_tags. destruct (check_tags _) as [[]|]; simpl; [|done].
  by intros [= <-].
Qed.

Lemma validate_input_source_returns_self strict_mode info (self r : t) :
  validate_input_source strict_mode info self = Ok r → r = self.
Proof.
  unfold validate_input_source.
  repeat case_match; intros; by simplify_eq.
Qed.

Lemma validate_repaired_output_returns_self (self r : t) :
  validate_repaired_output self = Ok r → r = self.
Proof.
  unfold validate_repaired_output.
  repeat (case_match; simplify_eq/=); intros; by simplify_eq.
Qed.

Context {Json : Type}.
Variable json_loads : string → option Json.
Variable validate_schema : Json → string → bool.

Lemma validate_input_format_fields (info : ValidationInfo) (self self' : t) tr :
  validate_input_format json_loads validate_schema info self = (tr, Ok self') →
  self' = self ∨ self' = set_last_validated_input (input self) self.
Proof.
  unfold validate_input_format, quiet, and_then, schema_check.
  repeat (case_match; simplify_eq/=); intros; simplify_eq; by auto.
Qed.

Lemma validate_output_format_fields (info : ValidationInfo) (self self' : t) tr :
  validate_output_format json_loads validate_schema info self = (tr, Ok self') →
  self' = self
  ∨ self' = set_last_validated_output (TaskOutput.output (output self)) self.
Proof.
  unfold validate_output_format, TaskOutput.validate_output_format,
    quiet, and_then, schema_check.
  repeat (case_match; simplify_eq/=); intros; simplify_eq; by auto.
Qed.

(** What a pass that ends without an exception has checked. *)
Lemma validate_ok_inv (strict_mode : bool) (info : ValidationInfo)
    (self self' : t) tr :
  validate json_loads validate_schema strict_mode info self = (tr, Ok self') →
  tags self' = tags self
  ∧ repair_instructions self' = repair_instructions self
  ∧ repaired_output self' = repaired_output self
  ∧ is_ok (validate_tags self) = true
  ∧ is_ok (validate_repaired_output self) = true.
Proof.
  unfold validate, and_then.
  destruct (validate_input_format _ _ _ _) as [tr1 [s1|]] eqn:H1; [|done].
  destruct (validate_output_format _ _ _ _) as [tr2 [s2|]] eqn:H2; [|done].
  unfold quiet. intros [= <- Hr].
  apply validate_input_format_fields in H1.
  apply validate_output_format_fields in H2.
  assert (tags s2 = tags self ∧ repair_instructions s2 = repair_instructions self
          ∧ repaired_output s2 = repaired_output self) as (Ht & Hi & Ho)
    by (destruct H1 as [-> | ->], H2 as [-> | ->]; done).
  apply bind_ok_inv in Hr as (s3 & Hrep & Hr).
  apply bind_ok_inv in Hr as (s4 & Hsrc & Htag).
  pose proof (validate_repaired_output_returns_self _ _ Hrep) as ->.
  pose proof (validate_input_source_returns_self _ _ _ _ Hsrc) as ->.
  pose proof (validate_tags_returns_self _ _ Htag) as ->.
  split_and!; try done.
  - rewrite validate_tags_ok, <- Ht.
    apply validate_tags_ok. by rewrite Htag.
  - replace (validate_repaired_output self) with
      (validate_repaired_output s2 ≫= λ _, Ok self).
    + by rewrite Hrep.
    + unfold validate_repaired_output. rewrite Hi, Ho.
      by repeat (case_match; simplify_eq/=).
Qed.

End Tags.

(** C4, as amended: a tag list passes exactly when every tag is
    non-empty and has no space character (U+0020); a pass over a run
    ends in an exception unless its tags are such.  Whitespace other
    than the space is not looked for. *)
Theorem validate_tags_accepts :
  (∀ self, is_ok (TaskRun.validate_tags self) = true
           ↔ Forall tag_ok (TaskRun.tags self))
  ∧ (∀ Json (json_loads : string → option Json) validate_schema
       strict_mode info self,
       is_ok (TaskRun.validate json_loads validate_schema strict_mode
                info self).2 = true →
       Forall tag_ok (TaskRun.tags self))
  ∧ TaskRun.validate_tags (run_with_tags ["a b"%string]) = Raise TagHasSpace
  ∧ TaskRun.validate_tags (run_with_tags [""%string]) = Raise TagEmpty
  ∧ TaskRun.validate_tags (run_with_tags ["a_b"; "c"]%string)
    = Ok (run_with_tags ["a_b"; "c"]%string).
Proof.
  split_and!; try done.
  - intros self. by rewrite validate_tags_ok, check_tags_ok.
  - intros Json json_loads validate_schema strict_mode info self Hok.
    destruct (TaskRun.validate _ _ _ _ _) as [tr [self'|]] eqn:Hpass; [|done].
    apply validate_ok_inv in Hpass as (_ & _ & _ & Htags & _).
    by rewrite validate_tags_ok, check_tags_ok in Htags.
Qed.

(** A tag with a tab in it passes. *)
Lemma tab_tag_accepted :
  TaskRun.validate_tags (run_with_tags [tag_with_tab])
  = Ok (run_with_tags [tag_with_tab])
  ∧ has_whitespace tag_with_tab = true
  ∧ ¬ validate_tags_as_specified.
Proof.
  split_and!; try done.
  intros H. destruct (H (run_with_tags [tag_with_tab])) as [Hacc _].
  specialize (Hacc eq_refl). by apply Forall_cons in Hacc as [[_ ?] _].
Qed.

(** ** Repairs *)

Lemma validate_repaired_output_ok (self : TaskRun.t) :
  is_ok (TaskRun.validate_repaired_output self) = true ↔ repair_invariant self.
Proof.
  unfold TaskRun.validate_repaired_output, repair_invariant.
  destruct (TaskRun.repaired_output self) as [[out src [rating|]]|],
    (TaskRun.repair_instructions self) as [instr|]; simpl; split;
    try done; try (intros _; split; [split; by eauto|by intros ? [= <-]]).
  - intros [_ H]. by specialize (H _ eq_refl).
  - intros [_ H]. by specialize (H _ eq_refl).
  - intros [[_ H] _]. by destruct H.
  - intros [[H _] _]. by destruct H.
Qed.

(** C7: a run passes [validate_repaired_output] exactly when repair
    instructions and repaired output are both present or both absent and
    a present repaired output has no rating; a run that went through a
    validation pass without an exception satisfies this, and each of the
    three ill-formed shapes is refused. *)
Theorem validate_repaired_output_accepts :
  (∀ self, is_ok (TaskRun.validate_repaired_output self) = true
           ↔ repair_invariant self)
  ∧ (∀ Json (json_loads : string → option Json) validate_schema
       strict_mode info self,
       is_ok (TaskRun.validate json_loads validate_schema strict_mode
                info self).2 = true →
       repair_invariant self)
  ∧ (∀ self repaired,
       TaskRun.repaired_output self = Some repaired →
       TaskRun.repair_instructions self = None →
       is_ok (TaskRun.validate_repaired_output self) = false)
  ∧ (∀ self repaired rating,
       TaskRun.repaired_output self = Some repaired →
       TaskOutput.rating repaired = Some rating →
       TaskRun.validate_repaired_output self = Raise RepairedOutputRated)
  ∧ (∀ self instructions,
       TaskRun.repair_instructions self = Some instructions →
       TaskRun.repaired_output self = None →
       TaskRun.validate_repaired_output self = Raise RepairedOutputRequired).
Proof.
  split_and!.
  - apply validate_repaired_output_ok.
  - intros Json json_loads validate_schema strict_mode info self Hok.
    destruct (TaskRun.validate _ _ _ _ _) as [tr [self'|]] eqn:Hpass; [|done].
    apply validate_ok_inv in Hpass as (_ & _ & _ & _ & Hrep).
    by apply validate_repaired_output_ok.
  - intros self repaired Hout Hinstr.
    unfold TaskRun.validate_repaired_output. rewrite Hout, Hinstr.
    by destruct (TaskOutput.rating repaired).
  - intros self repaired rating Hout Hrating.
    unfold TaskRun.validate_repaired_output. by rewrite Hout, Hrating.
  - intros self instructions Hinstr Hout.
    unfold TaskRun.validate_repaired_output. by rewrite Hout, Hinstr.
Qed.

(** ** Data-source properties *)

Section DataSourceFacts.

Import DataSource.

Lemma check_property_ok (self : t) (prop : DataSourceProperty.t) :
  check_property self prop = Ok () ↔ property_respected self prop.
Proof.
  unfold check_property, property_respected.
  destruct (properties self !! DataSourceProperty.name prop) as [v|] eqn:Hv;
    simpl.
  - destruct (isinstance v _) eqn:Hty; simpl.
    + case_bool_decide as Hreq.
      * split; [|done]. intros _. split_and!; [by intros ? [= <-]|by eauto|done].
      * case_bool_decide as Hna; simpl.
        -- split; [done|].
           intros (_ & _ & H). by specialize (H Hreq Hna).
        -- split; [|done]. intros _.
           split_and!; [by intros ? [= <-]|done|done].
    + split; [done|]. intros [H _]. specialize (H v eq_refl). congruence.
  - case_bool_decide as Hreq.
    + split; [done|]. intros (_ & H & _). by destruct (H Hreq) as [? ?].
    + rewrite andb_false_r. split; [|done]. intros _.
      split_and!; [done|done|done].
Qed.

Lemma check_properties_ok (self : t) (props : list DataSourceProperty.t) :
  check_properties self props = Ok () ↔ Forall (property_respected self) props.
Proof.
  induction props as [|prop props IH]; simpl.
  - split; by auto.
  - rewrite Forall_cons, <- IH, <- check_property_ok.
    destruct (check_property self prop) as [[]|]; simpl.
    + split; [by auto|by intros [_ ?]].
    + split; [done|by intros [? _]].
Qed.

Lemma check_no_empty_ok (items : list (string * PropertyValue)) :
  check_no_empty items = Ok () ↔ Forall (λ item, item.2 ≠ PStr "") items.
Proof.
  induction items as [|[name v] items IH]; simpl.
  - split; by auto.
  - rewrite Forall_cons, <- IH. simpl.
    destruct v as [[|c s]|n|f]; try (split; [by auto|by intros [_ ?]]).
    split; [done|]. by intros [? _].
Qed.

Lemma registry_exclusive (ty : DataSourceType) (prop : DataSourceProperty.t) :
  prop ∈ _data_source_properties →
  ty ∈ DataSourceProperty.required_for prop →
  ty ∉ DataSourceProperty.not_allowed_for prop.
Proof.
  unfold _data_source_properties. rewrite !elem_of_cons, elem_of_nil.
  intros Hprop. destruct_or!; try done; subst; simpl;
    rewrite ?elem_of_cons, ?elem_of_nil; destruct ty; intuition congruence.
Qed.

Lemma construct_ok (ty : DataSourceType) (props : gmap string PropertyValue) :
  is_ok (construct ty props) = true
  ↔ registry_respected ty props ∧ no_empty_property props.
Proof.
  unfold construct, validate_type, validate_properties,
    validate_no_empty_properties. cbn -[check_properties check_no_empty].
  transitivity (check_properties (mk ty props) _data_source_properties = Ok ()
                ∧ check_no_empty (map_to_list props) = Ok ()).
  { destruct (check_properties _ _) as [[]|];
      cbn -[check_properties check_no_empty];
      [|split; [done|by intros [? _]]].
    destruct (check_no_empty _) as [[]|]; cbn; [split; by auto|].
    split; [done|by intros [_ ?]]. }
  rewrite check_properties_ok, check_no_empty_ok, !Forall_forall.
  unfold registry_respected, no_empty_property, property_respected. simpl.
  split.
  - intros [Hreg Hne]. split_and!.
    + intros prop v Hin. by apply (Hreg prop Hin).
    + intros prop Hin. by apply (Hreg prop Hin).
    + intros prop Hin Hna. apply (Hreg prop Hin); [|done].
      intros Hreq. by apply (registry_exclusive ty prop).
    + intros name v Hv. by apply (Hne (name, v)), elem_of_map_to_list.
  - intros [(Hty & Hreq & Hna) Hne]. split.
    + intros prop Hin. split_and!; by eauto.
    + intros [name v] Hin. apply elem_of_map_to_list in Hin. by eapply Hne.
Qed.

End DataSourceFacts.

(** C8: a data source is constructed without an exception exactly when
    every registered property that is present has the registry's value
    type, every property required for the source type is present, no
    property forbidden for it is present, and no value is the empty
    string.  A property outside the registry is only subject to the last
    rule. *)
Theorem data_source_construct_accepts :
  (∀ ty props,
     is_ok (DataSource.construct ty props) = true
     ↔ registry_respected ty props ∧ no_empty_property props)
  ∧ (∀ ty props name v,
       ¬ registered name → v ≠ PStr "" →
       is_ok (DataSource.construct ty props) = true →
       is_ok (DataSource.construct ty (<[name := v]> props)) = true)
  ∧ DataSource.construct human ∅ = Raise (PropertyRequired "created_by")
  ∧ is_ok (DataSource.construct human {[ "model_name"%string := PStr "x" ]})
    = false
  ∧ DataSource.construct human
      {[ "created_by"%string := PStr "me"; "model_name"%string := PStr "x" ]}
    = Raise (PropertyNotAllowed "model_name")
  ∧ DataSource.construct human {[ "created_by"%string := PInt 7 ]}
    = Raise (PropertyWrongType "created_by")
  ∧ DataSource.construct human {[ "created_by"%string := PStr "" ]}
    = Raise (PropertyEmpty "created_by")
  ∧ is_ok (DataSource.construct synthetic
             {[ "model_name"%string := PStr "x";
                "model_provider"%string := PStr "p";
                "adapter_name"%string := PStr "a" ]}) = true.
Proof.
  split_and!; try (vm_compute; reflexivity).
  - apply construct_ok.
  - intros ty props name v Hunreg Hv. rewrite !construct_ok.
    assert (∀ prop, prop ∈ DataSource._data_source_properties →
                    DataSourceProperty.name prop ≠ name) as Hne.
    { intros prop Hin <-. apply Hunreg. unfold registered.
      by apply list_elem_of_fmap_2. }
    intros [(Hty & Hreq & Hna) Hempty]. split; [split_and!|].
    + intros prop w Hin. rewrite lookup_insert_ne by (symmetry; by apply Hne).
      by apply Hty.
    + intros prop Hin. rewrite lookup_insert_ne by (symmetry; by apply Hne).
      by apply Hreq.
    + intros prop Hin. rewrite lookup_insert_ne by (symmetry; by apply Hne).
      by apply Hna.
    + intros k w. rewrite lookup_insert. case_decide; [|by apply Hempty].
      by intros [= <-].
Qed.

(** ** Migration of the old rating format *)

Lemma dict_get_set_eq (d : list (string * pyvalue)) (k : string) (v : pyvalue) :
  Py.dict_get (Py.dict_set d k v) k = Some v.
Proof.
  induction d as [|[k' v'] d IH]; simpl.
  - by rewrite decide_True.
  - case_decide; simpl; [by rewrite decide_True|by rewrite decide_False].
Qed.






Lemma upgrade_old_format_example :
  TaskOutputRating.upgrade_old_format (PyDict old_format_data)
  = Ok (PyDict
          [("value"%string, PyFloat f4_0);
           ("requirement_ratings"%string,
            PyDict
              [("r1"%string,
                PyDict [("value"%string, PyFloat f3_0);
                        ("type"%string, PyEnum five_star)]);
               ("r2"%string,
                PyDict [("value"%string, PyFloat f5_0);
                        ("type"%string, PyEnum five_star)])])]).
Proof. reflexivity. Qed.


(** ** The change cache of a run *)

Section ChangeCache.

Context {Json : Type}.
Variable json_loads : string → option Json.
Variable validate_schema : Json → string → bool.

Import TaskRun.

Lemma input_trace (info : ValidationInfo) (self : t) (task : Task.t)
    (schema : string) :
  loading_from_file info = false →
  parent_task self = Some task →
  Task.input_json_schema task = Some schema →
  (validate_input_format json_loads validate_schema info self).1
  = if bool_decide (_last_validated_input self = Some (input self))
    then [] else [SchemaCheck (input self) schema].
Proof.
  intros Hload Htask Hschema. unfold validate_input_format.
  rewrite Hload, Htask, Hschema. case_bool_decide; [done|].
  unfold and_then, schema_check, quiet.
  destruct (json_loads _) as [v|]; [|done]. by destruct (validate_schema _ _).
Qed.

Lemma output_trace (info : ValidationInfo) (self : t) (task : Task.t)
    (schema : string) :
  loading_from_file info = false →
  parent_task self = Some task →
  Task.output_json_schema task = Some schema →
  (validate_output_format json_loads validate_schema info self).1
  = if bool_decide (_last_validated_output self
                    = Some (TaskOutput.output (output self)))
    then [] else [SchemaCheck (TaskOutput.output (output self)) schema].
Proof.
  intros Hload Htask Hschema.
  unfold validate_output_format, TaskOutput.validate_output_format.
  rewrite Hload, Htask, Hschema. case_bool_decide; [done|].
  unfold and_then, schema_check, quiet.
  destruct (json_loads _) as [v|]; [|done]. by destruct (validate_schema _ _).
Qed.

Lemma input_recorded (info : ValidationInfo) (self self' : t) (task : Task.t)
    tr :
  parent_task self = Some task →
  validate_input_format json_loads validate_schema info self = (tr, Ok self') →
  _last_validated_input self' = Some (input self)
  ∧ input self' = input self ∧ parent_task self' = Some task.
Proof.
  intros Htask. unfold validate_input_format. rewrite Htask.
  destruct (loading_from_file info); [by intros [= <- <-]|].
  case_bool_decide as Hcache; [by intros [= <- <-]|].
  unfold and_then, schema_check, quiet.
  repeat (case_match; simplify_eq/=); by intros [= <- <-].
Qed.

Lemma output_recorded (info : ValidationInfo) (self self' : t) (task : Task.t)
    tr :
  parent_task self = Some task →
  validate_output_format json_loads validate_schema info self = (tr, Ok self') →
  _last_validated_output self' = Some (TaskOutput.output (output self))
  ∧ output self' = output self ∧ parent_task self' = Some task.
Proof.
  intros Htask.
  unfold validate_output_format, TaskOutput.validate_output_format.
  rewrite Htask.
  destruct (loading_from_file info); [by intros [= <- <-]|].
  case_bool_decide as Hcache; [by intros [= <- <-]|].
  unfold and_then, schema_check, quiet.
  repeat (case_match; simplify_eq/=); by intros [= <- <-].
Qed.

Lemma input_cached_silent (info : ValidationInfo) (self : t) :
  _last_validated_input self = Some (input self) →
  (validate_input_format json_loads validate_schema info self).1 = [].
Proof.
  intros Hcache. unfold validate_input_format.
  destruct (loading_from_file info); [done|].
  by rewrite bool_decide_eq_true_2.
Qed.

Lemma output_cached_silent (info : ValidationInfo) (self : t) :
  _last_validated_output self = Some (TaskOutput.output (output self)) →
  (validate_output_format json_loads validate_schema info self).1 = [].
Proof.
  intros Hcache. unfold validate_output_format.
  destruct (loading_from_file info); [done|].
  by rewrite bool_decide_eq_true_2.
Qed.

End ChangeCache.

Section PassTrace.

Context {Json : Type}.
Variable json_loads : string → option Json.
Variable validate_schema : Json → string → bool.

Import TaskRun.

Lemma input_outcome (info : ValidationInfo) (self : t) (task : Task.t)
    (schema : string) :
  loading_from_file info = false →
  parent_task self = Some task →
  Task.input_json_schema task = Some schema →
  validate_input_format json_loads validate_schema info self
  = (if bool_decide (_last_validated_input self = Some (input self))
     then ([], Ok self)
     else ([SchemaCheck (input self) schema],
           check_outcome json_loads validate_schema (input self) schema
             InputNotJson InputSchemaMismatch
           ≫= λ _, Ok (set_last_validated_input (input self) self))).
Proof.
  intros Hload Htask Hschema. unfold validate_input_format.
  rewrite Hload, Htask, Hschema. case_bool_decide; [done|].
  unfold and_then, schema_check, check_outcome, quiet.
  destruct (json_loads _) as [v|]; [|done]. by destruct (validate_schema _ _).
Qed.

Lemma output_outcome (info : ValidationInfo) (self : t) (task : Task.t)
    (schema : string) :
  loading_from_file info = false →
  parent_task self = Some task →
  Task.output_json_schema task = Some schema →
  validate_output_format json_loads validate_schema info self
  = (if bool_decide (_last_validated_output self
                     = Some (TaskOutput.output (output self)))
     then ([], Ok self)
     else ([SchemaCheck (TaskOutput.output (output self)) schema],
           check_outcome json_loads validate_schema
             (TaskOutput.output (output self)) schema
             OutputNotJson OutputSchemaMismatch
           ≫= λ _, Ok (set_last_validated_output
                         (TaskOutput.output (output self)) self))).
Proof.
  intros Hload Htask Hschema.
  unfold validate_output_format, TaskOutput.validate_output_format.
  rewrite Hload, Htask, Hschema. case_bool_decide; [done|].
  unfold and_then, schema_check, check_outcome, quiet.
  destruct (json_loads _) as [v|]; [|done]. by destruct (validate_schema _ _).
Qed.

(** The checks of the output validator depend on the output, the parent
    and the output cache only. *)
Lemma output_trace_fields (info : ValidationInfo) (self s : t) :
  output s = output self → parent s = parent self →
  _last_validated_output s = _last_validated_output self →
  (validate_output_format json_loads validate_schema info s).1
  = (validate_output_format json_loads validate_schema info self).1.
Proof.
  intros Ho Hp Hc. unfold validate_output_format, parent_task.
  rewrite Ho, Hp, Hc.
  destruct (loading_from_file info); [done|].
  case_bool_decide; [done|].
  destruct (as_task (parent self)) as [task|]; [|done].
  unfold and_then.
  by destruct (TaskOutput.validate_output_format _ _ _ _) as [tr [o|e]].
Qed.

(** A pass executes the checks of the input validator, then, unless
    that one raised, those of the output validator. *)
Lemma pass_trace (strict_mode : bool) (info : ValidationInfo) (self : t) :
  (validate json_loads validate_schema strict_mode info self).1
  = (validate_input_format json_loads validate_schema info self).1
    ++ (if is_ok (validate_input_format json_loads validate_schema info
                    self).2
        then (validate_output_format json_loads validate_schema info self).1
        else []).
Proof.
  unfold validate, and_then.
  destruct (validate_input_format _ _ _ _) as [tr1 [s1|e]] eqn:H1; simpl;
    [|by rewrite app_nil_r].
  pose proof (validate_input_format_fields _ _ _ _ _ _ H1) as Hs1.
  rewrite <- (output_trace_fields info self s1)
    by (by destruct Hs1 as [-> | ->]).
  destruct (validate_output_format _ _ _ s1) as [tr2 [s2|e]]; simpl; [|done].
  unfold quiet. simpl. by rewrite app_nil_r.
Qed.

Lemma pass_input_raises (strict_mode : bool) (info : ValidationInfo)
    (self : t) (e : PyError) :
  (validate_input_format json_loads validate_schema info self).2 = Raise e →
  validate json_loads validate_schema strict_mode info self
  = ((validate_input_format json_loads validate_schema info self).1, Raise e).
Proof.
  unfold validate, and_then.
  destruct (validate_input_format _ _ _ _) as [tr1 [s1|e']]; simpl; [done|].
  by intros [= <-].
Qed.

End PassTrace.

(** C2, as amended: for a run whose parent task is resolvable and
    declares both schemas, the input validator, when it is not loading
    from storage, executes the statement
    [validate_schema(json.loads(value), schema)] exactly when no
    last-validated input is cached or the cached one differs from the
    current input, and so does the output validator for [output.output];
    an executed check ends in the JSON error when [json.loads] raises,
    in the schema error when [validate_schema] refuses, and otherwise
    records the value.  Loading from storage records the current values
    and validates nothing; a validator that ends without an exception
    has recorded the value, so that validating the result again
    validates nothing, while validating it with another value assigned
    does.  A pass runs the input validator and then, only if that one
    did not raise, the output validator: a changed output is not
    validated by a pass whose input check fails. *)
Theorem schema_validation_only_on_change {Json : Type}
    (json_loads : string → option Json) (validate_schema : Json → string → bool)
    (self : TaskRun.t) (task : Task.t) (schema_in schema_out : string) :
  TaskRun.parent_task self = Some task →
  Task.input_json_schema task = Some schema_in →
  Task.output_json_schema task = Some schema_out →
  validates_only_on_change json_loads validate_schema self schema_in schema_out.
Proof.
  intros Htask Hin Hout. unfold validates_only_on_change.
  set (validate_in := TaskRun.validate_input_format json_loads validate_schema).
  set (validate_out := TaskRun.validate_output_format json_loads validate_schema).
  set (current_out := λ r, TaskOutput.output (TaskRun.output r)).
  split_and!.
  - intros info Hload. split.
    + by apply (input_outcome _ _ _ _ task).
    + by apply (output_outcome _ _ _ _ task).
  - intros info Hload. unfold validate_in, validate_out,
      TaskRun.validate_input_format, TaskRun.validate_output_format.
    by rewrite Hload.
  - intros info tr self' Hpass.
    destruct (input_recorded _ _ _ _ _ task _ Htask Hpass) as (Hc & Hi & Hp).
    split_and!; [done| |].
    + intros info'. apply input_cached_silent. by rewrite Hc, Hi.
    + intros info' v Hload Hv. unfold validate_in.
      rewrite (input_trace _ _ _ _ task schema_in); [|done|done|done].
      simpl. rewrite Hc. rewrite bool_decide_eq_false_2; [done|]. congruence.
  - intros info tr self' Hpass.
    destruct (output_recorded _ _ _ _ _ task _ Htask Hpass) as (Hc & Ho & Hp).
    split_and!; [done| |].
    + intros info'. apply output_cached_silent. by rewrite Hc, Ho.
    + intros info' o Hload Hv. unfold validate_out, current_out in *.
      rewrite (output_trace _ _ _ _ task schema_out); [|done|done|done].
      simpl. rewrite Hc. rewrite bool_decide_eq_false_2; [done|].
      intros [= Heq]. by rewrite Heq in Hv.
  - intros strict_mode info. split.
    + apply pass_trace.
    + intros e. apply pass_input_raises.
Qed.

Lemma schema_validation_only_on_change_witness :
  TaskRun.parent_task broken_input_run = Some schema_task
  ∧ Task.input_json_schema schema_task = Some "{}"%string
  ∧ Task.output_json_schema schema_task = Some "{}"%string
  ∧ validates_only_on_change braces_only (λ _ _, true) broken_input_run
      "{}" "{}".
Proof.
  split_and!; [reflexivity..|].
  apply (schema_validation_only_on_change _ _ broken_input_run schema_task);
    reflexivity.
Defined.

(** The claim has a pass validate whatever has changed.  The output of
    this run was never validated, and the pass does not validate it: the
    input is not JSON, the input validator raises, and the output
    validator is not run. *)
Lemma failed_input_check_skips_output :
  TaskRun.validate braces_only (λ _ _, true) false
    {| loading_from_file := false; loaded_from_file := false |}
    broken_input_run
  = ([SchemaCheck "not json" "{}"], Raise InputNotJson)
  ∧ TaskRun._last_validated_output broken_input_run
    ≠ Some (TaskOutput.output (TaskRun.output broken_input_run))
  ∧ ¬ pass_validates_iff_changed.
Proof.
  split_and!; [done|done|].
  intros H.
  destruct (H unit braces_only (λ _ _, true) false
              {| loading_from_file := false; loaded_from_file := false |}
              broken_input_run schema_task "{}"%string "{}"%string
              eq_refl eq_refl eq_refl eq_refl) as [_ [_ Hout]].
  assert (SchemaCheck "{}" "{}" ∈ [SchemaCheck "not json" "{}"]) as Hin
    by (by apply Hout).
  apply list_elem_of_singleton in Hin. discriminate Hin.
Qed.

(** The call count of the specification's test: one check on the first
    pass, none on the second, one again after the output changed. *)
Example change_cache_call_counts :
  let info := {| loading_from_file := false; loaded_from_file := false |} in
  let pass := TaskRun.validate (Json:=unit) (λ _, Some ()) (λ _ _, true) false info in
  ∃ run1 run2,
    pass fresh_run
    = ([SchemaCheck "{}" "{}"; SchemaCheck "{}" "{}"], Ok run1)
    ∧ pass run1 = ([], Ok run2)
    ∧ (pass (TaskRun.with_output (TaskOutput.mk "[]" None None) run2)).1
      = [SchemaCheck "[]" "{}"].
Proof. by do 2 eexists. Qed.

(** ** Missing runs of a frozen split *)

Lemma elem_of_union_fold (lists : list (list string)) (acc : gset string)
    (id : string) :
  id ∈ foldl (λ acc ids, acc ∪ list_to_set ids) acc lists
  ↔ id ∈ acc ∨ ∃ ids, ids ∈ lists ∧ id ∈ ids.
Proof.
  revert acc. induction lists as [|ids lists IH]; intros acc; simpl.
  - split; [by left|]. intros [?|(ids & []%elem_of_nil & _)]. done.
  - rewrite IH, elem_of_union, elem_of_list_to_set. split.
    + intros [[?|?]|(ids' & ? & ?)]; [by left|right..].
      * exists ids. split; [by left|done].
      * exists ids'. split; [by right|done].
    + intros [?|(ids' & [->|?]%elem_of_cons & ?)];
        [by left; left|by left; right|right; by eauto].
Qed.

Lemma elem_of_all_ids_in_splits (split_contents : gmap string (list string))
    (id : string) :
  id ∈ DatasetSplit.all_ids_in_splits split_contents
  ↔ referenced split_contents id.
Proof.
  unfold DatasetSplit.all_ids_in_splits, referenced.
  rewrite elem_of_union_fold. split.
  - intros [[]%elem_of_empty|(ids & Hin & Hid)].
    apply list_elem_of_fmap in Hin as ([name ids'] & -> & Hin).
    apply elem_of_map_to_list in Hin. by eauto.
  - intros (name & ids & Hlook & Hid). right. exists ids. split; [|done].
    apply list_elem_of_fmap. exists (name, ids). split; [done|].
    by apply elem_of_map_to_list.
Qed.

(** C9: without a parent task [missing_count] raises; with one it
    returns the number of distinct run IDs that some list of
    [split_contents] holds and no current run of the task has. *)
Theorem missing_count_counts :
  (∀ runs self,
     DatasetSplit.parent_task self = None →
     DatasetSplit.missing_count runs self = Raise NoParentTask)
  ∧ (∀ runs self task,
       DatasetSplit.parent_task self = Some task →
       ∃ missing : list string,
         NoDup missing
         ∧ (∀ id, id ∈ missing
                  ↔ referenced (DatasetSplit.split_contents self) id
                    ∧ id ∉ TaskRun.id <$> runs task)
         ∧ DatasetSplit.missing_count runs self = Ok (length missing))
  ∧ DatasetSplit.missing_count runs_A_B drifted_split = Ok 1%nat.
Proof.
  split_and!.
  - intros runs self Hparent. unfold DatasetSplit.missing_count.
    by rewrite Hparent.
  - intros runs self task Hparent. unfold DatasetSplit.missing_count.
    rewrite Hparent.
    set (missing := DatasetSplit.all_ids_in_splits _ ∖ _).
    exists (elements missing). split_and!.
    + apply NoDup_elements.
    + intros id. rewrite elem_of_elements. unfold missing.
      by rewrite elem_of_difference, elem_of_all_ids_in_splits,
        elem_of_list_to_set.
    + done.
  - by vm_compute.
Qed.

(** ** The percentages of a split *)

(** C6, as amended: constructing a split, or assigning its [splits],
    fails exactly when [math.isclose(total, 1.0, rel_tol=1e-9)] is false
    of the total that the [sum] of the running interpreter gives, in
    binary64, for the percentages: added from left to right up to
    CPython 3.11, with Neumaier's compensation from CPython 3.12.  Under
    both, totals 0.99 and 1.01 are refused and so is the double
    1.000000001 that [1.0 + 1e-9] gives, while totals 1.0 and
    0.999999999 are accepted.  The two sums can differ in the last bit,
    and so at the very edge of the tolerance: the percentages
    0.9999999989999999, 2^-55, 2^-55, 2^-55 are refused under the first
    and accepted under the second. *)
Theorem split_percentages_checked :
  (∀ alg name description splits split_contents parent,
     is_ok (DatasetSplit.construct alg name description splits split_contents
              parent)
     = Float.isclose (DatasetSplit.total_percentage alg splits) f1_0 f1e_9)
  ∧ (∀ alg self splits,
       is_ok (DatasetSplit.assign_splits alg splits self)
       = Float.isclose (DatasetSplit.total_percentage alg splits) f1_0 f1e_9)
  ∧ (∀ alg splits, DatasetSplit.total_percentage alg splits = f1_0 →
                   accepted alg splits = true)
  ∧ (∀ alg,
       DatasetSplit.total_percentage alg [split_def "a" f0_99] = f0_99
       ∧ accepted alg [split_def "a" f0_99] = false
       ∧ DatasetSplit.total_percentage alg
           [split_def "a" f1_0; split_def "b" f0_01] = f1_01
       ∧ accepted alg [split_def "a" f1_0; split_def "b" f0_01] = false
       ∧ DatasetSplit.total_percentage alg
           [split_def "a" f1_0; split_def "b" f1e_9] = f1_plus_1e_9
       ∧ accepted alg [split_def "a" f1_0; split_def "b" f1e_9] = false
       ∧ DatasetSplit.total_percentage alg [split_def "a" f1_minus_1e_9]
         = f1_minus_1e_9
       ∧ accepted alg [split_def "a" f1_minus_1e_9] = true
       ∧ accepted alg [split_def "train" f0_8; split_def "test" f0_2] = true
       ∧ accepted alg [] = false)
  ∧ admissible edge_of_tolerance
  ∧ DatasetSplit.total_percentage left_to_right edge_of_tolerance
    = f0_9999999989999999
  ∧ accepted left_to_right edge_of_tolerance = false
  ∧ DatasetSplit.total_percentage neumaier edge_of_tolerance = f1_minus_1e_9
  ∧ accepted neumaier edge_of_tolerance = true.
Proof.
  assert (∀ alg self, is_ok (DatasetSplit.validate_split_percentages alg self)
                      = Float.isclose (DatasetSplit.total_percentage alg
                                         (DatasetSplit.splits self)) f1_0 f1e_9)
    as Hvalidate.
  { intros alg self. unfold DatasetSplit.validate_split_percentages.
    change DatasetSplit.rel_tol with f1e_9. change (Float.of_Z 1) with f1_0.
    by destruct (Float.isclose _ _ _). }
  split_and!.
  - intros. apply Hvalidate.
  - intros. apply Hvalidate.
  - intros alg splits Htotal. unfold accepted, DatasetSplit.construct.
    rewrite Hvalidate. cbn [DatasetSplit.splits]. rewrite Htotal.
    by vm_compute.
  - intros []; split_and!; by vm_compute.
  - repeat constructor; by vm_compute.
  - by vm_compute.
  - by vm_compute.
  - by vm_compute.
  - by vm_compute.
Qed.

(** The claim has sums of 1.0 + 1e-9 accepted: the percentages 1.0 and
    1e-9 add up to the double 1.000000001 under either [sum], and are
    refused. *)
Lemma one_plus_1e_9_refused :
  Forall (λ alg,
            DatasetSplit.total_percentage alg
              [split_def "a" f1_0; split_def "b" f1e_9]
            = Float.add f1_0 f1e_9
            ∧ DatasetSplit.construct alg "split" None
                [split_def "a" f1_0; split_def "b" f1e_9] ∅ None
              = Raise SplitPercentagesSum)
    [left_to_right; neumaier]
  ∧ Float.add f1_0 f1e_9 = f1_plus_1e_9.
Proof. split; [repeat constructor|]; by vm_compute. Qed.

(** ** Building the contents of a split *)

Section Slices.

Lemma between_nonneg {A} (l : list A) (lo hi : Z) :
  0 ≤ lo ≤ hi →
  Slice.between l lo hi
  = take (Z.to_nat hi - Z.to_nat lo) (drop (Z.to_nat lo) l).
Proof.
  intros Hlo. unfold Slice.between, Slice.bound.
  rewrite !(proj2 (Z.ltb_ge _ _)) by lia.
  destruct (Z_le_gt_dec lo (Z.of_nat (length l))) as [Hin|Hout].
  - rewrite (Z.min_l lo) by done.
    destruct (Z_le_gt_dec hi (Z.of_nat (length l))) as [Hhi|Hhi].
    + rewrite Z.min_l by done. f_equal. lia.
    + rewrite Z.min_r by lia. rewrite !take_ge; [done|..];
        rewrite length_drop; lia.
  - rewrite !Z.min_r by lia. rewrite !drop_ge by lia. by rewrite !take_nil.
Qed.

Lemma from_nonneg {A} (l : list A) (lo : Z) :
  0 ≤ lo → Slice.from l lo = drop (Z.to_nat lo) l.
Proof.
  intros Hlo. unfold Slice.from, Slice.bound.
  rewrite (proj2 (Z.ltb_ge _ _)) by lia.
  destruct (Z_le_gt_dec lo (Z.of_nat (length l))) as [Hin|Hout].
  - by rewrite Z.min_l.
  - rewrite Z.min_r by lia. by rewrite !drop_ge by lia.
Qed.

Lemma between_then_from {A} (l : list A) (lo size : Z) :
  0 ≤ lo → 0 ≤ size →
  Slice.between l lo (lo + size) ++ Slice.from l (lo + size) = Slice.from l lo.
Proof.
  intros Hlo Hsize.
  rewrite between_nonneg, !from_nonneg by lia.
  replace (Z.to_nat (lo + size)) with (Z.to_nat lo + Z.to_nat size)%nat by lia.
  replace (Z.to_nat lo + Z.to_nat size - Z.to_nat lo)%nat
    with (Z.to_nat size) by lia.
  rewrite <- drop_drop. apply take_drop.
Qed.

Lemma length_between {A} (l : list A) (lo size : Z) :
  0 ≤ lo → 0 ≤ size →
  Z.of_nat (length (Slice.between l lo (lo + size)))
  = Z.min size (Z.max 0 (Z.of_nat (length l) - lo)).
Proof.
  intros Hlo Hsize. rewrite between_nonneg by lia.
  rewrite length_take, length_drop. lia.
Qed.

Lemma sum_sizes_nonneg (sizes : list Z) :
  Forall (λ size, 0 ≤ size) sizes → 0 ≤ sum_sizes sizes.
Proof. induction 1; simpl; lia. Qed.

Lemma slices_concat (ids : list string) (sizes : list Z) (start : Z) :
  0 ≤ start → Forall (λ size, 0 ≤ size) sizes →
  concat (slices ids sizes start) ++ Slice.from ids (start + sum_sizes sizes)
  = Slice.from ids start.
Proof.
  intros Hstart Hsizes. revert start Hstart.
  induction Hsizes as [|size sizes Hsize _ IH]; intros start Hstart; simpl.
  - by rewrite Z.add_0_r.
  - rewrite <- app_assoc, Z.add_assoc, IH by lia.
    by apply between_then_from.
Qed.

Lemma all_slices_concat (ids : list string) (sizes : list Z) :
  Forall (λ size, 0 ≤ size) sizes → concat (all_slices ids sizes) = ids.
Proof.
  intros Hsizes. unfold all_slices. rewrite concat_app. simpl.
  rewrite app_nil_r.
  rewrite <- (Z.add_0_l (sum_sizes sizes)), slices_concat by done.
  by rewrite from_nonneg.
Qed.

Lemma length_slices (ids : list string) (sizes : list Z) (start : Z) :
  length (slices ids sizes start) = length sizes.
Proof.
  revert start. induction sizes as [|size sizes IH]; intros start; simpl;
    [done|by rewrite IH].
Qed.

Lemma length_all_slices (ids : list string) (sizes : list Z) :
  length (all_slices ids sizes) = S (length sizes).
Proof.
  unfold all_slices. rewrite length_app, length_slices. simpl. lia.
Qed.

End Slices.

Section InsertAll.

Implicit Types (items : list (string * list string))
  (m : gmap string (list string)).

Lemma insert_all_app items1 items2 m :
  insert_all (items1 ++ items2) m = insert_all items2 (insert_all items1 m).
Proof. apply foldl_app. Qed.

Lemma insert_all_lookup_absent items m k :
  k ∉ items.*1 → insert_all items m !! k = m !! k.
Proof.
  revert m. induction items as [|[k' v'] items IH]; intros m Hk; simpl; [done|].
  simpl in Hk. rewrite not_elem_of_cons in Hk. destruct Hk as [Hne Hk].
  rewrite IH by done. simpl. by rewrite lookup_insert_ne.
Qed.

(** A key reads back the value written for it last. *)
Lemma insert_all_lookup_last items m i k v :
  items !! i = Some (k, v) →
  (∀ j k' v', (i < j)%nat → items !! j = Some (k', v') → k' ≠ k) →
  insert_all items m !! k = Some v.
Proof.
  revert m i. induction items as [|[k0 v0] items IH]; intros m i Hi Hlater;
    [done|]. simpl. destruct i as [|i]; simpl in Hi.
  - simplify_eq. rewrite insert_all_lookup_absent; [by rewrite lookup_insert_eq|].
    intros ([k' v'] & Hk & Hin)%list_elem_of_fmap. simpl in Hk.
    apply list_elem_of_lookup in Hin as [j Hj].
    apply (Hlater (S j) k' v'); [lia|done|done].
  - apply (IH _ i); [done|]. intros j k' v' Hij Hj.
    apply (Hlater (S j) k' v'); [lia|done].
Qed.

Lemma insert_all_lookup_inv items m k v :
  insert_all items m !! k = Some v →
  (m !! k = Some v ∧ k ∉ items.*1)
  ∨ ∃ i, items !! i = Some (k, v)
         ∧ ∀ j k' v', (i < j)%nat → items !! j = Some (k', v') → k' ≠ k.
Proof.
  revert m. induction items as [|[k0 v0] items IH]; intros m Hlook; simpl in *.
  - left. split; [done|]. by intros ?%elem_of_nil.
  - apply IH in Hlook as [[Hm Hk]|(i & Hi & Hlater)].
    + rewrite lookup_insert in Hm. case_decide as Hk0.
      * simplify_eq. right. exists 0%nat. split; [done|].
        intros [|j] k' v' Hj Hlook; [lia|]. simpl in Hlook.
        intros ->. apply Hk, list_elem_of_fmap. exists (k, v').
        split; [done|]. by eapply list_elem_of_lookup_2.
      * left. split; [done|]. simpl. rewrite not_elem_of_cons. by split.
    + right. exists (S i). split; [done|].
      intros [|j] k' v' Hj Hlook; [lia|]. apply (Hlater j k' v'); [lia|done].
Qed.

End InsertAll.

Section Layout.

Import DatasetSplit.

Lemma split_size_length (ids ids' : list string) (split : DatasetSplitDefinition.t) :
  length ids = length ids' → split_size ids split = split_size ids' split.
Proof. unfold split_size. by intros ->. Qed.

Lemma fill_splits_layout (ids : list string)
    (splits : list DatasetSplitDefinition.t) (sizes : list Z) (start : Z)
    (m : gmap string (list string)) :
  Forall2 (λ split size, split_size ids split = Ok size) splits sizes →
  fill_splits ids splits start m
  = Ok (start + sum_sizes sizes,
        insert_all (zip (split_name <$> splits) (slices ids sizes start)) m).
Proof.
  intros Hsizes. revert start m.
  induction Hsizes as [|split size splits sizes Hsize _ IH]; intros start m;
    simpl.
  - by rewrite Z.add_0_r.
  - rewrite Hsize. simpl. rewrite IH. do 2 f_equal. lia.
Qed.

Lemma build_split_contents_layout (runs : Task.t → list TaskRun.t)
    (shuffle : list string → list string) (task : Task.t)
    (init : list DatasetSplitDefinition.t) (final : DatasetSplitDefinition.t)
    (filter : TaskRun.t → bool) (sizes : list Z) :
  let ids := shuffle (TaskRun.id <$> List.filter filter (runs task)) in
  Forall2 (λ split size, split_size ids split = Ok size) init sizes →
  build_split_contents runs shuffle task (init ++ [final]) filter
  = Ok (insert_all (zip (split_name <$> init ++ [final]) (all_slices ids sizes))
          ∅).
Proof.
  intros ids Hsizes. unfold build_split_contents. fold ids.
  rewrite removelast_last, last_snoc.
  rewrite (fill_splits_layout _ _ sizes) by done. simpl.
  unfold all_slices. rewrite fmap_app, zip_with_app; last first.
  { by rewrite length_fmap, length_slices, (Forall2_length _ _ _ Hsizes). }
  by rewrite insert_all_app.
Qed.

End Layout.

(** ** Rounding never fails on a percentage of a count *)

Section SplitSize.

Lemma iter_xO_pow (p d : positive) :
  Z.pos (Pos.iter xO p d) = Z.pos p * 2 ^ Z.pos d.
Proof.
  induction d as [|d IH] using Pos.peano_ind.
  - simpl. lia.
  - rewrite Pos.iter_succ, Pos2Z.inj_succ, Z.pow_succ_r by lia.
    change (Z.pos (Pos.iter xO p d)~0) with (2 * Z.pos (Pos.iter xO p d)).
    rewrite IH. lia.
Qed.

(** The length of a Python sequence is below [2^63]; such an int
    converts to a zero or to a positive finite double. *)
Lemma of_Z_small (n : Z) :
  0 ≤ n < 2 ^ 63 →
  Float.of_Z n = S754_zero false
  ∨ ∃ m e, Float.of_Z n = S754_finite false m e ∧ Z.pos m ≤ 2 ^ 64 ∧ e ≤ 23.
Proof.
  intros [Hn0 Hn]. destruct n as [|p|p]; [by left| |lia].
  unfold Float.of_Z, binary_normalize, binary_round, shl_align.
  rewrite fexp_binary64.
  pose proof (Zdigits2_gt (Z.pos p) ltac:(lia)) as Hgt. simpl in Hgt.
  set (d := Z.pos (digits2_pos p)) in *.
  assert (0 < d) as Hd by done.
  rewrite Z.max_l by lia.
  assert (∃ mz ez,
            (match d + 0 - 53 - 0 with
             | Z.neg k => (Pos.iter xO p k, d + 0 - 53)
             | _ => (p, 0)
             end) = (mz, ez) ∧ Z.pos mz < 2 ^ 63 ∧ ez ≤ 0)
    as (mz & ez & -> & Hmz & Hez).
  { destruct (d + 0 - 53 - 0) as [|k|k] eqn:Hk.
    - exists p, 0. split; [done|lia].
    - exists p, 0. split; [done|lia].
    - eexists _, _. split; [done|]. split; [|lia].
      rewrite iter_xO_pow.
      assert (2 ^ d * 2 ^ Z.pos k = 2 ^ 53) as Hpow.
      { rewrite <- Z.pow_add_r by lia. f_equal. lia. }
      assert (0 < 2 ^ Z.pos k) by (apply Z.pow_pos_nonneg; lia).
      change (2 ^ 63) with (2 ^ 53 * 1024). nia. }
  assert (round_exponent_bound 63 0 ≤ 971) as Hbound by (by vm_compute).
  destruct (binary_round_aux_finite false (Z.pos mz) ez loc_Exact 63 0)
    as [Hzero|(m' & e' & Hfin & Hm' & He')]; try done; try lia.
  - apply Zdigits2_le; lia.
  - by left.
  - right. exists m', e'. split; [done|].
    change (round_exponent_bound 63 0) with 21 in He'. lia.
Qed.

Lemma of_Z_0 : Float.of_Z 0 = S754_zero false.
Proof. reflexivity. Qed.

Lemma of_Z_1 : Float.of_Z 1 = S754_finite false 4503599627370496 (-52).
Proof. by vm_compute. Qed.

(** A percentage the field constraint admits is a zero or a positive
    double of exponent at most [-52]. *)
Lemma percentage_shape (split : DatasetSplitDefinition.t) :
  Float.valid (DatasetSplitDefinition.percentage split) = true →
  DatasetSplitDefinition.percentage_in_range split = true →
  (∃ s, DatasetSplitDefinition.percentage split = S754_zero s)
  ∨ ∃ m e, DatasetSplitDefinition.percentage split = S754_finite false m e
           ∧ Zdigits2 (Z.pos m) ≤ 53 ∧ e ≤ -52.
Proof.
  unfold DatasetSplitDefinition.percentage_in_range.
  rewrite of_Z_0, of_Z_1, andb_true_iff.
  destruct (DatasetSplitDefinition.percentage split) as [s|s| |s m e];
    intros Hvalid [Hge Hle]; [by eauto|by destruct s|done|].
  right. destruct s; [done|]. exists m, e. split; [done|].
  unfold Float.valid, valid_binary, bounded, canonical_mantissa in Hvalid.
  apply andb_true_iff in Hvalid as [Hcanon _]. apply Z.eqb_eq in Hcanon.
  rewrite fexp_binary64 in Hcanon. split; [simpl; lia|].
  unfold Float.leb, SFleb, SFcompare in Hle.
  destruct (Z.compare_spec e (-52)); [lia|lia|done].
Qed.

Lemma round_nonneg (m : positive) (e : Z) :
  ∃ size, Float.round (S754_finite false m e) = Ok size ∧ 0 ≤ size.
Proof.
  unfold Float.round. destruct (0 <=? e) eqn:He.
  - eexists. split; [done|]. simpl.
    apply Z.leb_le in He. assert (0 < 2 ^ e) by (by apply Z.pow_pos_nonneg).
    lia.
  - eexists. split; [done|]. apply Z.leb_gt in He.
    assert (0 < 2 ^ (- e)) by (apply Z.pow_pos_nonneg; lia).
    assert (0 ≤ Z.pos m / 2 ^ (- e)) by (apply Z.div_pos; lia).
    destruct (_ ?= _); [destruct (Z.even _)|..]; lia.
Qed.

(** The size of a split: [round(n * percentage)] is defined, and is not
    negative, for every admissible percentage and every count below
    [2^63]. *)
Lemma split_size_total (ids : list string) (split : DatasetSplitDefinition.t) :
  Z.of_nat (length ids) < 2 ^ 63 →
  Float.valid (DatasetSplitDefinition.percentage split) = true →
  DatasetSplitDefinition.percentage_in_range split = true →
  ∃ size, DatasetSplit.split_size ids split = Ok size ∧ 0 ≤ size.
Proof.
  intros Hlen Hvalid Hrange. unfold DatasetSplit.split_size, Float.of_int.
  destruct (of_Z_small (Z.of_nat (length ids)) ltac:(lia))
    as [->|(mx & ex & -> & Hmx & Hex)];
    destruct (percentage_shape split Hvalid Hrange)
      as [[s ->]|(my & ey & -> & Hmy & Hey)]; simpl;
    try (exists 0; split; [done|lia]).
  unfold Float.mul, SFmul. simpl xorb.
  assert (round_exponent_bound 118 (-29) ≤ 971) as Hbound by (by vm_compute).
  destruct (binary_round_aux_finite false (Z.pos (mx * my)) (ex + ey)
              loc_Exact 118 (-29))
    as [->|(m' & e' & -> & _ & _)]; try done; try lia.
  - apply Zdigits2_le; [lia|lia|].
    pose proof (Zdigits2_gt (Z.pos my) ltac:(lia)) as Hgt.
    assert (2 ^ Zdigits2 (Z.pos my) ≤ 2 ^ 53)
      by (apply Z.pow_le_mono_r; lia).
    change (2 ^ 118) with (2 ^ 65 * 2 ^ 53). rewrite Pos2Z.inj_mul.
    change (2 ^ 53) with 9007199254740992 in *.
    change (2 ^ 64) with 18446744073709551616 in *.
    change (2 ^ 65) with 36893488147419103232. nia.
  - exists 0. split; [done|lia].
  - apply round_nonneg.
Qed.

Lemma split_sizes_total (ids : list string)
    (splits : list DatasetSplitDefinition.t) :
  Z.of_nat (length ids) < 2 ^ 63 →
  Forall (λ split, Float.valid (DatasetSplitDefinition.percentage split) = true
                   ∧ DatasetSplitDefinition.percentage_in_range split = true)
    splits →
  ∃ sizes,
    Forall2 (λ split size, DatasetSplit.split_size ids split = Ok size)
      splits sizes
    ∧ Forall (λ size, 0 ≤ size) sizes.
Proof.
  intros Hlen. induction 1 as [|split splits [Hvalid Hrange] _ (sizes & H2 & Hnn)].
  - exists []. by split.
  - destruct (split_size_total ids split Hlen Hvalid Hrange) as (size & Hs & ?).
    exists (size :: sizes). split; by constructor.
Qed.

End SplitSize.

Section Partition.

Lemma elem_of_concat_lookup {A} (ls : list (list A)) (x : A) :
  x ∈ concat ls ↔ ∃ i l, ls !! i = Some l ∧ x ∈ l.
Proof.
  induction ls as [|l0 ls IH]; simpl.
  - split; [by intros ?%elem_of_nil|by intros (i & l & ? & _)].
  - rewrite elem_of_app, IH. split.
    + intros [Hx|(i & l & Hi & Hx)]; [by exists 0%nat, l0|by exists (S i), l].
    + intros ([|i] & l & Hi & Hx); simplify_eq/=; [by left|right; by eauto].
Qed.

(** The pieces of a duplicate-free concatenation share no element. *)
Lemma concat_disjoint {A} (ls : list (list A)) (i j : nat) (a b : list A)
    (x : A) :
  NoDup (concat ls) → i ≠ j → ls !! i = Some a → ls !! j = Some b →
  x ∈ a → x ∉ b.
Proof.
  revert i j. induction ls as [|l0 ls IH]; intros i j Hnd Hij Hi Hj Ha Hb;
    [done|].
  simpl in Hnd. apply NoDup_app in Hnd as (_ & Hsep & Hrest).
  destruct i as [|i], j as [|j]; simplify_eq/=.
  - apply (Hsep x Ha), elem_of_concat_lookup. by eauto.
  - apply (Hsep x Hb), elem_of_concat_lookup. by eauto.
  - apply (IH i j); try done. lia.
Qed.

Lemma NoDup_fmap_filter {A B} (f : A → B) (p : A → bool) (l : list A) :
  NoDup (f <$> l) → NoDup (f <$> List.filter p l).
Proof.
  induction l as [|x l IH]; simpl; [done|].
  rewrite NoDup_cons. intros [Hx Hl]. destruct (p x); simpl; [|by auto].
  apply NoDup_cons. split; [|by auto].
  intros (y & Hy & Hin)%list_elem_of_fmap. apply Hx, list_elem_of_fmap.
  exists y. split; [done|].
  apply list_elem_of_In. apply list_elem_of_In, filter_In in Hin. by destruct Hin.
Qed.

Lemma slices_lookup (ids : list string) (sizes : list Z) (start : Z) (i : nat)
    (size : Z) :
  sizes !! i = Some size →
  slices ids sizes start !! i
  = Some (Slice.between ids (start + sum_sizes (take i sizes))
            (start + sum_sizes (take i sizes) + size)).
Proof.
  revert start i. induction sizes as [|size0 sizes IH]; intros start i Hi;
    [done|].
  destruct i as [|i]; simplify_eq/=.
  - by rewrite Z.add_0_r.
  - rewrite (IH _ _ Hi). do 2 f_equal; lia.
Qed.

Lemma all_slices_lookup_init (ids : list string) (sizes : list Z) (i : nat)
    (size : Z) :
  Forall (λ size, 0 ≤ size) sizes →
  sizes !! i = Some size →
  all_slices ids sizes !! i
  = Some (take (Z.to_nat size)
            (drop (Z.to_nat (sum_sizes (take i sizes))) ids)).
Proof.
  intros Hnn Hi. unfold all_slices.
  rewrite lookup_app_l by (rewrite length_slices; by eapply lookup_lt_Some).
  rewrite (slices_lookup _ _ _ _ _ Hi). f_equal.
  assert (0 ≤ sum_sizes (take i sizes))
    by (by apply sum_sizes_nonneg, Forall_take).
  assert (0 ≤ size) by (by eapply (proj1 (Forall_lookup _ _) Hnn)).
  rewrite between_nonneg by lia. do 2 f_equal; lia.
Qed.

Lemma all_slices_lookup_final (ids : list string) (sizes : list Z) :
  Forall (λ size, 0 ≤ size) sizes →
  all_slices ids sizes !! length sizes
  = Some (drop (Z.to_nat (sum_sizes sizes)) ids).
Proof.
  intros Hnn. unfold all_slices.
  rewrite lookup_app_r by (by rewrite length_slices).
  rewrite length_slices, Nat.sub_diag. simpl.
  by rewrite from_nonneg by (by apply sum_sizes_nonneg).
Qed.

Implicit Types (splits : list DatasetSplitDefinition.t)
  (cut : list (list string)).

(** The list a definition reads back is the slice of the last
    definition of that name. *)
Lemma contents_lookup_last splits cut (i : nat) split slice :
  splits !! i = Some split → cut !! i = Some slice →
  (∀ j split', (i < j)%nat → splits !! j = Some split' →
     split_name split' ≠ split_name split) →
  insert_all (zip (split_name <$> splits) cut) ∅ !! split_name split
  = Some slice.
Proof.
  intros Hi Hcut Hlater. apply (insert_all_lookup_last _ _ i).
  - rewrite lookup_zip_with, list_lookup_fmap, Hi, Hcut. done.
  - intros j k' v' Hij Hj.
    apply lookup_zip_with_Some in Hj as (name & l & [= <- <-] & Hname & _).
    rewrite list_lookup_fmap in Hname.
    destruct (splits !! j) as [split'|] eqn:Hj; simplify_eq/=.
    by apply (Hlater j).
Qed.

Lemma contents_lookup_inv splits cut (name : string) (l : list string) :
  insert_all (zip (split_name <$> splits) cut) ∅ !! name = Some l →
  ∃ i split, splits !! i = Some split ∧ cut !! i = Some l
             ∧ split_name split = name
             ∧ ∀ j split', (i < j)%nat → splits !! j = Some split' →
                 cut !! j ≠ None → split_name split' ≠ name.
Proof.
  intros [[Hempty _]|(i & Hi & Hlater)]%insert_all_lookup_inv; [done|].
  apply lookup_zip_with_Some in Hi as (name' & l' & [= <- <-] & Hname & Hcut).
  rewrite list_lookup_fmap in Hname.
  destruct (splits !! i) as [split|] eqn:Hsplit; simplify_eq/=.
  exists i, split. split_and!; try done.
  intros j split' Hij Hj Hcutj.
  destruct (cut !! j) as [l'|] eqn:Hl'; [|done].
  apply (Hlater j _ l'); [done|].
  by rewrite lookup_zip_with, list_lookup_fmap, Hj, Hl'.
Qed.

Lemma NoDup_names_later splits (i j : nat) split split' :
  NoDup (split_name <$> splits) →
  splits !! i = Some split → splits !! j = Some split' → (i < j)%nat →
  split_name split' ≠ split_name split.
Proof.
  intros Hnd Hi Hj Hij Heq.
  assert (i = j); [|lia].
  apply (NoDup_lookup _ i j (split_name split) Hnd);
    rewrite list_lookup_fmap; [rewrite Hi|rewrite Hj]; simpl; congruence.
Qed.

(** With distinct names every definition reads back its own slice, so
    the lists in definition order are the slices. *)
Lemma contents_in_order splits cut :
  NoDup (split_name <$> splits) → length cut = length splits →
  (λ split, default [] (insert_all (zip (split_name <$> splits) cut) ∅
                          !! split_name split)) <$> splits
  = cut.
Proof.
  intros Hnd Hlen. apply list_eq. intros i. rewrite list_lookup_fmap.
  destruct (splits !! i) as [split|] eqn:Hi; simpl.
  - destruct (lookup_lt_is_Some_2 cut i) as [slice Hslice];
      [rewrite Hlen; by eapply lookup_lt_Some|].
    rewrite Hslice. f_equal.
    rewrite (contents_lookup_last splits cut i split slice); [done..|].
    intros j split' Hij Hj. by eapply NoDup_names_later.
  - symmetry. apply lookup_ge_None. rewrite Hlen. by apply lookup_ge_None.
Qed.

End Partition.

(** ** What [build_split_contents] returns *)

Section Build.

Variable runs : Task.t → list TaskRun.t.
Variable shuffle : list string → list string.
Hypothesis shuffle_permutes : ∀ l, shuffle l ≡ₚ l.

Implicit Types (splits : list DatasetSplitDefinition.t).

Lemma sums_to_one_nonempty alg splits : sums_to_one alg splits → splits ≠ [].
Proof. intros Hsum ->. destruct alg; by vm_compute in Hsum. Qed.

Lemma shuffled_length (task : Task.t) (filter : TaskRun.t → bool) :
  Z.of_nat (length (runs task)) < 2 ^ 63 →
  Z.of_nat (length (shuffle (TaskRun.id <$> List.filter filter (runs task))))
  < 2 ^ 63.
Proof.
  intros Hlen. rewrite shuffle_permutes, length_fmap.
  pose proof (filter_length_le filter (runs task)). lia.
Qed.

(** The result, for any list of definitions: the dict written key after
    key with the slices in definition order. *)
Lemma build_split_contents_computed (task : Task.t) splits
    (filter : TaskRun.t → bool) :
  let ids := shuffle (TaskRun.id <$> List.filter filter (runs task)) in
  splits ≠ [] → admissible splits →
  Z.of_nat (length (runs task)) < 2 ^ 63 →
  ∃ sizes,
    Forall2 (λ split size, DatasetSplit.split_size ids split = Ok size)
      (removelast splits) sizes
    ∧ Forall (λ size, 0 ≤ size) sizes
    ∧ length (all_slices ids sizes) = length splits
    ∧ DatasetSplit.build_split_contents runs shuffle task splits filter
      = Ok (insert_all (zip (split_name <$> splits) (all_slices ids sizes)) ∅).
Proof.
  intros ids Hne Hadm Hlen.
  destruct (exists_last Hne) as (init & final & ->).
  rewrite removelast_last.
  apply Forall_app in Hadm as [Hinit _].
  destruct (split_sizes_total ids init (shuffled_length task filter Hlen) Hinit)
    as (sizes & Hsizes & Hnn).
  exists sizes. split_and!; try done.
  - rewrite length_all_slices, length_app. simpl.
    rewrite (Forall2_length _ _ _ Hsizes). lia.
  - by apply build_split_contents_layout.
Qed.

Lemma computed_layout (ids : list string) splits (sizes : list Z) :
  distinct_names splits →
  length (removelast splits) = length sizes →
  Forall (λ size, 0 ≤ size) sizes →
  length (all_slices ids sizes) = length splits →
  consecutive_layout ids splits sizes
    (insert_all (zip (split_name <$> splits) (all_slices ids sizes)) ∅).
Proof.
  intros Hnd Hlen Hnn Hcut.
  assert (splits ≠ []) as Hne
    by (intros ->; by rewrite length_all_slices in Hcut).
  destruct (exists_last Hne) as (init & final & ->).
  unfold consecutive_layout. rewrite removelast_last in *.
  assert (∀ i split slice,
            (init ++ [final]) !! i = Some split →
            all_slices ids sizes !! i = Some slice →
            insert_all (zip (split_name <$> init ++ [final])
                          (all_slices ids sizes)) ∅ !! split_name split
            = Some slice) as Hread.
  { intros i split slice Hi Hslice. apply (contents_lookup_last _ _ i); try done.
    intros j split' Hij Hj. by eapply NoDup_names_later. }
  split_and!.
  - intros i split size Hi Hsize. apply (Hread i).
    + by apply lookup_app_l_Some.
    + by apply all_slices_lookup_init.
  - intros final' Hlast. rewrite last_snoc in Hlast. simplify_eq.
    apply (Hread (length init)).
    + by rewrite lookup_app_r, Nat.sub_diag.
    + rewrite Hlen. by apply all_slices_lookup_final.
  - intros name [l Hl].
    apply contents_lookup_inv in Hl as (i & split & Hi & _ & <- & _).
    apply list_elem_of_fmap. exists split. split; [done|].
    by eapply list_elem_of_lookup_2.
  - unfold assigned. rewrite (contents_in_order _ _ Hnd Hcut).
    by apply all_slices_concat.
Qed.

Lemma layout_exactly_one (ids shuffled : list string) splits (sizes : list Z)
    (contents : gmap string (list string)) :
  shuffled ≡ₚ ids → NoDup ids →
  consecutive_layout shuffled splits sizes contents →
  in_exactly_one_split ids splits contents.
Proof.
  intros Hperm Hnd (_ & _ & _ & Hconcat) id Hid.
  rewrite <- Hperm in Hid, Hnd. rewrite <- Hconcat in Hid, Hnd.
  apply elem_of_concat_lookup in Hid as (i & l & Hi & Hl).
  rewrite list_lookup_fmap in Hi.
  destruct (splits !! i) as [split|] eqn:Hsplit; simplify_eq/=.
  exists split. split_and!; [by eapply list_elem_of_lookup_2|done|].
  intros split' [j Hj]%list_elem_of_lookup Hin.
  destruct (decide (i = j)) as [->|Hij]; [congruence|].
  exfalso.
  apply (concat_disjoint _ i j (assigned contents split)
           (assigned contents split') id Hnd Hij);
    try done; rewrite list_lookup_fmap; [by rewrite Hsplit|by rewrite Hj].
Qed.

End Build.

(** C1, as amended: for definitions with pairwise distinct names whose
    percentages lie in [0, 1] and sum to 1.0, and a run list of a length
    Python allows (below 2^63), [build_split_contents] gives each
    definition but the last the next [round(totalCount × percentage)]
    IDs of the shuffled filtered IDs, or as many as are left when fewer
    remain, and the last definition all the remaining ones; the lists in
    definition order make up the shuffled sequence, so that, whatever
    the shuffle, every filtered run ID is in exactly one list. *)
Theorem build_split_contents_partitions (runs : Task.t → list TaskRun.t)
    (shuffle : list string → list string) (alg : SumAlgorithm) (task : Task.t)
    (splits : list DatasetSplitDefinition.t) (filter : TaskRun.t → bool) :
  (∀ l, shuffle l ≡ₚ l) →
  sums_to_one alg splits → admissible splits → distinct_names splits →
  Z.of_nat (length (runs task)) < 2 ^ 63 →
  partitioned runs shuffle task splits filter.
Proof.
  intros Hperm Hsum Hadm Hnames Hlen.
  destruct (build_split_contents_computed runs shuffle Hperm task splits filter
              (sums_to_one_nonempty _ _ Hsum) Hadm Hlen)
    as (sizes & Hsizes & Hnn & Hcut & Hbuild).
  eexists _, sizes. split_and!; [exact Hbuild|done|done| |done|].
  - apply computed_layout; try done. by eapply Forall2_length.
  - intros Hnd. eapply layout_exactly_one; [apply Hperm|done|].
    apply computed_layout; try done. by eapply Forall2_length.
Qed.

Lemma build_split_contents_partitions_witness :
  (∀ l : list string, reverse l ≡ₚ l)
  ∧ sums_to_one neumaier train_test ∧ admissible train_test
  ∧ distinct_names train_test
  ∧ Z.of_nat (length (ten_runs schema_task)) < 2 ^ 63
  ∧ partitioned ten_runs reverse schema_task train_test AllDatasetFilter.
Proof.
  assert (∀ l : list string, reverse l ≡ₚ l) as Hrev
    by (intros l; apply reverse_Permutation).
  assert (sums_to_one neumaier train_test) as Hsum by (by vm_compute).
  assert (admissible train_test) as Hadm
    by (repeat constructor; by vm_compute).
  assert (distinct_names train_test) as Hnames
    by (unfold distinct_names; apply (bool_decide_unpack _); by vm_compute).
  assert (Z.of_nat (length (ten_runs schema_task)) < 2 ^ 63) as Hlen
    by (by vm_compute).
  split_and!; [exact Hrev|exact Hsum|exact Hadm|exact Hnames|exact Hlen|].
  apply (build_split_contents_partitions ten_runs reverse neumaier
           schema_task train_test AllDatasetFilter); assumption.
Defined.

(** Ten filtered runs split 80/20: eight IDs for "train" and the two
    that are left for "test", whatever ordering the shuffle leaves. *)
Lemma train_test_example (runs : Task.t → list TaskRun.t)
    (shuffle : list string → list string) (task : Task.t)
    (filter : TaskRun.t → bool) :
  (∀ l, shuffle l ≡ₚ l) →
  length (List.filter filter (runs task)) = 10%nat →
  ∃ contents train test,
    DatasetSplit.build_split_contents runs shuffle task train_test filter
    = Ok contents
    ∧ contents !! "train"%string = Some train
    ∧ contents !! "test"%string = Some test
    ∧ length train = 8%nat ∧ length test = 2%nat
    ∧ train ++ test = shuffle (TaskRun.id <$> List.filter filter (runs task))
    ∧ ∀ name, is_Some (contents !! name) →
              name = "train"%string ∨ name = "test"%string.
Proof.
  intros Hperm Hten.
  set (ids := shuffle (TaskRun.id <$> List.filter filter (runs task))).
  assert (length ids = 10%nat) as Hlen
    by (unfold ids; by rewrite Hperm, length_fmap).
  assert (Forall2 (λ split size, DatasetSplit.split_size ids split = Ok size)
            [split_def "train" f0_8] [8]) as Hsizes.
  { repeat constructor. unfold DatasetSplit.split_size. rewrite Hlen.
    by vm_compute. }
  pose proof (build_split_contents_layout runs shuffle task
                [split_def "train" f0_8] (split_def "test" f0_2) filter [8]
                Hsizes) as Hbuild.
  fold ids in Hbuild. change ([_] ++ [_]) with train_test in Hbuild.
  eexists _, _, _. split; [exact Hbuild|].
  unfold all_slices, insert_all. simpl.
  rewrite between_nonneg, from_nonneg by lia.
  change (Z.to_nat (0 + 8) - Z.to_nat 0)%nat with 8%nat.
  change (Z.to_nat (8 + 0)) with 8%nat. change (Z.to_nat 0) with 0%nat.
  rewrite drop_0. split_and!.
  - by rewrite lookup_insert_ne, lookup_insert_eq.
  - by rewrite lookup_insert_eq.
  - rewrite length_take. lia.
  - rewrite length_drop. lia.
  - apply take_drop.
  - intros name [l Hl]. rewrite !lookup_insert in Hl.
    repeat case_decide; by auto.
Qed.

(** Two inputs whose percentages sum to 1.0.  With three runs and the
    definitions a: 0.5, b: 0.5, c: 0.0, "b" is given one ID although
    [round(3 × 0.5)] is 2.  With two runs and two definitions named "a",
    run "x" is in no list. *)
Lemma rounded_sizes_overrun :
  (∀ alg, sums_to_one alg halves_and_nothing)
  ∧ DatasetSplit.split_size ["x"; "y"; "z"]%string (split_def "b" f0_5) = Ok 2
  ∧ DatasetSplit.build_split_contents three_runs id schema_task
      halves_and_nothing AllDatasetFilter
    = Ok {[ "a"%string := ["x"; "y"]%string; "b"%string := ["z"%string];
            "c"%string := [] ]}
  ∧ (∀ alg, sums_to_one alg same_name_twice)
  ∧ DatasetSplit.build_split_contents two_runs id schema_task
      same_name_twice AllDatasetFilter
    = Ok {[ "a"%string := ["y"%string] ]}.
Proof. split_and!; try (intros []); by vm_compute. Qed.

(** ** Definitions that share a name *)

(** C10, as amended: when two definitions share a name, the returned
    map holds under that name the slice of the later one only (a name
    reads back the slice of the last definition that has it), so the run
    IDs sliced for the earlier definition are in no list of the result:
    the every-run-in-exactly-one-split guarantee fails whenever such a
    slice is not empty.  The guarantee holds when the names are pairwise
    distinct; distinct names are sufficient for it, not necessary. *)
Theorem duplicate_names_keep_last (runs : Task.t → list TaskRun.t)
    (shuffle : list string → list string) (task : Task.t)
    (splits : list DatasetSplitDefinition.t) (filter : TaskRun.t → bool) :
  (∀ l, shuffle l ≡ₚ l) →
  splits ≠ [] → admissible splits →
  Z.of_nat (length (runs task)) < 2 ^ 63 →
  last_definition_wins runs shuffle task splits filter.
Proof.
  intros Hperm Hne Hadm Hlen.
  destruct (build_split_contents_computed runs shuffle Hperm task splits filter
              Hne Hadm Hlen) as (sizes & Hsizes & Hnn & Hcut & Hbuild).
  set (valid_ids := TaskRun.id <$> List.filter filter (runs task)) in *.
  set (cut := all_slices (shuffle valid_ids) sizes) in *.
  unfold last_definition_wins. fold valid_ids. fold cut.
  eexists _, sizes. split_and!; [exact Hbuild|done|done|..].
  - intros i split slice Hi Hslice Hlater. by apply (contents_lookup_last _ _ i).
  - intros Hnd i j earlier later slice id Hij Hi Hj Hname Hslice Hid.
    assert (concat cut = shuffle valid_ids) as Hconcat
      by (by apply all_slices_concat).
    assert (id ∈ valid_ids) as Hvalid.
    { rewrite <- (Hperm valid_ids), <- Hconcat. apply elem_of_concat_lookup.
      by eauto. }
    assert (∀ name l,
              insert_all (zip (split_name <$> splits) cut) ∅ !! name = Some l →
              id ∉ l) as Hnowhere.
    { intros name l Hl Hin.
      apply contents_lookup_inv in Hl as (i' & split' & Hi' & Hcut' & <- & Hlast).
      destruct (decide (i = i')) as [<-|Hii].
      - simplify_eq. apply (Hlast j later); [done|done| |done].
        intros Hnone%lookup_ge_None.
        apply lookup_lt_Some in Hj. lia.
      - rewrite <- (Hperm valid_ids), <- Hconcat in Hnd.
        by apply (concat_disjoint cut i i' slice l id Hnd Hii). }
    split_and!; [done|done|].
    intros Hone. destruct (Hone id Hvalid) as (split & _ & Hin & _).
    unfold assigned in Hin.
    destruct (insert_all _ _ !! split_name split) as [l|] eqn:Hl; simpl in Hin.
    + by apply (Hnowhere _ _ Hl).
    + by apply elem_of_nil in Hin.
  - intros Hnames Hnd. eapply layout_exactly_one; [apply Hperm|done|].
    apply computed_layout; try done. by eapply Forall2_length.
Qed.

Lemma duplicate_names_keep_last_witness :
  (∀ l : list string, reverse l ≡ₚ l)
  ∧ same_name_twice ≠ [] ∧ admissible same_name_twice
  ∧ Z.of_nat (length (two_runs schema_task)) < 2 ^ 63
  ∧ last_definition_wins two_runs reverse schema_task same_name_twice
      AllDatasetFilter.
Proof.
  assert (∀ l : list string, reverse l ≡ₚ l) as Hrev
    by (intros l; apply reverse_Permutation).
  assert (same_name_twice ≠ []) as Hne by done.
  assert (admissible same_name_twice) as Hadm
    by (repeat constructor; by vm_compute).
  assert (Z.of_nat (length (two_runs schema_task)) < 2 ^ 63) as Hlen
    by (by vm_compute).
  split_and!; try done.
  by apply (duplicate_names_keep_last two_runs reverse schema_task
              same_name_twice AllDatasetFilter).
Defined.

(** The claim has the guarantee hold only when the names are pairwise
    distinct.  Under a: 0.0, a: 0.0, b: 1.0 the name "a" is repeated,
    the slices of both definitions of it are empty, and each of the two
    runs is in exactly one list. *)
Lemma repeated_names_can_lose_nothing :
  ¬ distinct_names nothing_twice
  ∧ admissible nothing_twice
  ∧ (∀ alg, accepted alg nothing_twice = true)
  ∧ DatasetSplit.build_split_contents two_runs id schema_task nothing_twice
      AllDatasetFilter
    = Ok {[ "a"%string := []; "b"%string := ["x"; "y"]%string ]}
  ∧ in_exactly_one_split ["x"; "y"]%string nothing_twice
      {[ "a"%string := []; "b"%string := ["x"; "y"]%string ]}
  ∧ ¬ exactly_one_only_when_distinct.
Proof.
  set (contents := ({[ "a"%string := []; "b"%string := ["x"; "y"]%string ]}
                    : gmap string (list string))).
  assert (¬ distinct_names nothing_twice) as Hrepeated.
  { unfold distinct_names, nothing_twice. simpl.
    intros [Hnew _]%NoDup_cons. apply Hnew. by left. }
  assert (admissible nothing_twice) as Hadm
    by (repeat constructor; by vm_compute).
  assert (DatasetSplit.build_split_contents two_runs id schema_task
            nothing_twice AllDatasetFilter = Ok contents) as Hbuild
    by (by vm_compute).
  assert (in_exactly_one_split ["x"; "y"]%string nothing_twice contents)
    as Hone.
  { assert (assigned contents (split_def "b" f1_0) = ["x"; "y"]%string) as Hb
      by (by vm_compute).
    assert (assigned contents (split_def "a" f0_0) = []) as Ha
      by (by vm_compute).
    intros run_id Hid. exists (split_def "b" f1_0). split_and!.
    - unfold nothing_twice. right. right. by left.
    - by rewrite Hb.
    - intros split'. unfold nothing_twice.
      rewrite !elem_of_cons, elem_of_nil.
      intros [->|[->|[->|[]]]]; rewrite ?Ha; try done;
        by intros ?%elem_of_nil. }
  split_and!; [exact Hrepeated|exact Hadm| |exact Hbuild|exact Hone|].
  - intros []; by vm_compute.
  - intros Honly. apply Hrepeated.
    apply (Honly two_runs id schema_task nothing_twice AllDatasetFilter
             contents); [done|exact Hadm|exact Hbuild| |exact Hone].
    apply (bool_decide_unpack _). by vm_compute.
Qed.

(** Two runs under two definitions named "a": only the later slice is
    kept, and run "x" is in no list. *)
Example same_name_twice_loses_a_run :
  DatasetSplit.build_split_contents two_runs id schema_task same_name_twice
    AllDatasetFilter
  = Ok {[ "a"%string := ["y"%string] ]}
  ∧ all_slices ["x"; "y"]%string [1] = [["x"%string]; ["y"%string]].
Proof. split; by vm_compute. Qed.

(** ** The two sums

    The totals evaluated in this file are the same under the plain and
    under the compensated [sum]; those of [edge_of_tolerance] are
    not. *)

Lemma compensation_changes_nothing_here :
  Forall (λ splits, DatasetSplit.total_percentage neumaier splits
                    = DatasetSplit.total_percentage left_to_right splits)
    [ [split_def "a" f0_99];
      [split_def "a" f1_0; split_def "b" f0_01];
      [split_def "a" f1_0; split_def "b" f1e_9];
      [split_def "a" f1_minus_1e_9];
      [split_def "a" f1_0];
      train_test; halves_and_nothing; same_name_twice; [] ].
Proof. repeat constructor; by vm_compute. Qed.

(** * Further properties

    What the code does beyond the points above: what a built split can
    and cannot hold, how the validators of a run compose, and the edge
    cases of the migration and of the percentage check. *)

(** ** A built split holds filtered runs only *)

Section Soundness.

Import DatasetSplit.

Lemma split_size_raises (ids : list string) (split : DatasetSplitDefinition.t)
    (e : PyError) :
  split_size ids split = Raise e → arithmetic_error e.
Proof.
  assert (∀ f, Float.round f = Raise e → arithmetic_error e) as Hround.
  { intros [s|s| |s m x]; simpl; try destruct (0 <=? x);
      intros; simplify_eq; (by left) || (by right). }
  unfold split_size, Float.of_int.
  destruct (Float.of_Z _) as [s|s| |s m x]; simpl; intros H;
    first [by apply (Hround _ H)|simplify_eq; (by left) || (by right)].
Qed.

Lemma between_consecutive (l : list string) (lo hi : Z) :
  consecutive_in (Slice.between l lo hi) l.
Proof. unfold Slice.between. by eexists _, _. Qed.

Lemma from_consecutive (l : list string) (lo : Z) :
  consecutive_in (Slice.from l lo) l.
Proof.
  unfold Slice.from. eexists _, (length l). symmetry. apply take_ge.
  rewrite length_drop. lia.
Qed.

Lemma consecutive_sublist (ids l : list string) :
  consecutive_in ids l → sublist ids l.
Proof.
  intros (lo & n & ->). etrans; [apply sublist_take|apply sublist_drop].
Qed.

(** The loop only ever writes names of definitions and pieces of the
    sequence. *)
Lemma fill_splits_sound (ids names : list string)
    (splits : list DatasetSplitDefinition.t) (start : Z)
    (m : gmap string (list string)) :
  (∀ split, split ∈ splits → split_name split ∈ names) →
  (∀ k v, m !! k = Some v → k ∈ names ∧ consecutive_in v ids) →
  match fill_splits ids splits start m with
  | Ok (_, m') => ∀ k v, m' !! k = Some v → k ∈ names ∧ consecutive_in v ids
  | Raise e => arithmetic_error e
  end.
Proof.
  revert start m. induction splits as [|split splits IH]; intros start m Hn Hm;
    simpl; [done|].
  destruct (split_size ids split) as [size|e] eqn:Hsize; simpl;
    [|by eapply split_size_raises].
  apply IH.
  - intros split' Hin. apply Hn. by right.
  - intros k v. rewrite lookup_insert. case_decide as Hk.
    + intros [= <-]. subst.
      split; [apply Hn; by left|apply between_consecutive].
    + apply Hm.
Qed.

Lemma elem_of_removelast {A} (l : list A) (x : A) :
  x ∈ removelast l → x ∈ l.
Proof.
  destruct (decide (l = [])) as [->|Hne]; [done|].
  destruct (exists_last Hne) as (init & final & ->).
  rewrite removelast_last, elem_of_app. by left.
Qed.

Lemma elem_of_last {A} (l : list A) (x : A) : last l = Some x → x ∈ l.
Proof.
  destruct (decide (l = [])) as [->|Hne]; [done|].
  destruct (exists_last Hne) as (init & final & ->).
  rewrite last_snoc, elem_of_app. intros [= <-]. right. by left.
Qed.

Variable runs : Task.t → list TaskRun.t.
Variable shuffle : list string → list string.
Variable alg : SumAlgorithm.

(** Every list of a result is a piece of the shuffled sequence, under
    the name of a definition. *)
Lemma build_split_contents_sound (task : Task.t)
    (splits : list DatasetSplitDefinition.t) (filter : TaskRun.t → bool) :
  match build_split_contents runs shuffle task splits filter with
  | Ok contents =>
      ∀ name ids, contents !! name = Some ids →
        name ∈ split_name <$> splits
        ∧ consecutive_in ids (shuffle (filtered_ids runs task filter))
  | Raise e => arithmetic_error e
  end.
Proof.
  unfold build_split_contents, filtered_ids.
  set (ids := shuffle _).
  pose proof (fill_splits_sound ids (split_name <$> splits) (removelast splits)
                0 ∅) as Hfill.
  destruct (fill_splits _ _ _ _) as [[start m]|e]; simpl; last first.
  { apply Hfill; [|done]. intros split Hin.
    apply list_elem_of_fmap_2. by apply elem_of_removelast. }
  assert (∀ k v, m !! k = Some v →
                 k ∈ split_name <$> splits ∧ consecutive_in v ids) as Hm.
  { apply Hfill; [|done]. intros split Hin.
    apply list_elem_of_fmap_2. by apply elem_of_removelast. }
  destruct (last splits) as [final|] eqn:Hlast; [|done].
  intros name l. rewrite lookup_insert. case_decide as Hk; [|by apply Hm].
  intros [= <-]. subst. split; [|apply from_consecutive].
  apply list_elem_of_fmap_2. by apply elem_of_last.
Qed.

Lemma filtered_ids_runs (task : Task.t) (filter : TaskRun.t → bool)
    (id : string) :
  id ∈ filtered_ids runs task filter
  ↔ ∃ run, run ∈ runs task ∧ filter run = true ∧ TaskRun.id run = id.
Proof.
  unfold filtered_ids. rewrite list_elem_of_fmap. split.
  - intros (run & -> & Hin). exists run.
    apply list_elem_of_In, filter_In in Hin as [Hin Hf].
    split_and!; [by apply list_elem_of_In|done|done].
  - intros (run & Hin & Hf & <-). exists run. split; [done|].
    apply list_elem_of_In, filter_In. split; [by apply list_elem_of_In|done].
Qed.

Lemma filtered_ids_all (task : Task.t) (filter : TaskRun.t → bool)
    (id : string) :
  id ∈ filtered_ids runs task filter → id ∈ TaskRun.id <$> runs task.
Proof.
  intros (run & Hin & _ & <-)%filtered_ids_runs. by apply list_elem_of_fmap_2.
Qed.

Hypothesis shuffle_permutes : ∀ l, shuffle l ≡ₚ l.

(** The IDs a result refers to are IDs of runs of the task. *)
Lemma build_split_contents_referenced (task : Task.t)
    (splits : list DatasetSplitDefinition.t) (filter : TaskRun.t → bool)
    (contents : gmap string (list string)) (id : string) :
  build_split_contents runs shuffle task splits filter = Ok contents →
  referenced contents id → id ∈ filtered_ids runs task filter.
Proof.
  intros Hbuild (name & ids & Hlook & Hid).
  pose proof (build_split_contents_sound task splits filter) as Hsound.
  rewrite Hbuild in Hsound. destruct (Hsound name ids Hlook) as [_ Hsub].
  apply consecutive_sublist in Hsub.
  rewrite <- (shuffle_permutes (filtered_ids runs task filter)).
  by eapply elem_of_sublist.
Qed.

(** [from_task] is [build_split_contents] followed by the check of the
    percentages. *)
Lemma from_task_built (name : string) (task : Task.t)
    (splits : list DatasetSplitDefinition.t) (filter : TaskRun.t → bool)
    (description : option string) (contents : gmap string (list string)) :
  build_split_contents runs shuffle task splits filter = Ok contents →
  from_task runs shuffle alg name task splits filter description
  = if Float.isclose (total_percentage alg splits) f1_0 f1e_9
    then Ok (mk name description splits contents (Some (ATask task)))
    else Raise SplitPercentagesSum.
Proof.
  intros Hbuild. unfold from_task. rewrite Hbuild. simpl.
  unfold construct, validate_split_percentages. simpl.
  change rel_tol with f1e_9. change (Float.of_Z 1) with f1_0.
  by destruct (Float.isclose _ _ _).
Qed.

(** A split that refers to runs of its task only has none missing. *)
Lemma missing_count_none (self : t) (task : Task.t) :
  parent_task self = Some task →
  (∀ id, referenced (split_contents self) id → id ∈ TaskRun.id <$> runs task) →
  missing_count runs self = Ok 0%nat.
Proof.
  intros Hparent Hall. unfold missing_count. rewrite Hparent. f_equal.
  apply size_empty_iff. intros id.
  rewrite elem_of_difference, elem_of_all_ids_in_splits, elem_of_list_to_set.
  split; [|by intros ?%elem_of_empty]. intros [Href Hnot]. exfalso. by apply Hnot, Hall.
Qed.

End Soundness.

(** X1: whatever the definitions - percentages out of range, not
    summing to one, names repeated - [build_split_contents] either ends
    in the [OverflowError] or the NaN [ValueError] of its arithmetic, or
    returns a dict in which every key is the name of a definition and
    every list is a run of consecutive IDs of the shuffled sequence
    (the first so many of what is left after dropping so many): IDs of
    runs of the task that pass the filter, none of them twice in a list
    when the run IDs are unique. *)
Theorem build_split_contents_only_filtered_runs
    (runs : Task.t → list TaskRun.t) (shuffle : list string → list string)
    (task : Task.t) (splits : list DatasetSplitDefinition.t)
    (filter : TaskRun.t → bool) :
  (∀ l, shuffle l ≡ₚ l) →
  only_filtered_runs runs shuffle task splits filter.
Proof.
  intros Hperm. unfold only_filtered_runs.
  pose proof (build_split_contents_sound runs shuffle task splits filter)
    as Hsound.
  destruct (DatasetSplit.build_split_contents _ _ _ _ _) as [contents|e];
    [|done].
  intros name ids Hlook. destruct (Hsound name ids Hlook) as [Hname Hrun].
  pose proof (consecutive_sublist _ _ Hrun) as Hsub.
  split_and!; [done|done| |].
  - intros Hnd. eapply sublist_NoDup; [|exact Hsub]. by rewrite Hperm.
  - intros id Hid. apply filtered_ids_runs.
    rewrite <- (Hperm (filtered_ids runs task filter)).
    by eapply elem_of_sublist.
Qed.

Lemma build_split_contents_only_filtered_runs_witness :
  (∀ l : list string, reverse l ≡ₚ l)
  ∧ only_filtered_runs three_runs reverse schema_task nan_then_rest
      AllDatasetFilter
  ∧ only_filtered_runs three_runs reverse schema_task same_name_twice
      HighRatingDatasetFilter.
Proof.
  assert (∀ l : list string, reverse l ≡ₚ l) as Hrev
    by (intros l; apply reverse_Permutation).
  split_and!; [done|..];
    by apply (build_split_contents_only_filtered_runs three_runs reverse).
Defined.

(** X2: the percentage and the description of the last definition are
    never read: the last name is given whatever the loop has left.  A
    single definition therefore receives every filtered ID whatever its
    percentage, and no definition at all gives an empty dict, in which
    every filtered ID is dropped. *)
Theorem last_percentage_is_never_read (runs : Task.t → list TaskRun.t)
    (shuffle : list string → list string) (task : Task.t)
    (filter : TaskRun.t → bool) :
  (∀ init name description description' percentage percentage',
     DatasetSplit.build_split_contents runs shuffle task
       (init ++ [DatasetSplitDefinition.mk name description percentage]) filter
     = DatasetSplit.build_split_contents runs shuffle task
         (init ++ [DatasetSplitDefinition.mk name description' percentage'])
         filter)
  ∧ (∀ final,
       DatasetSplit.build_split_contents runs shuffle task [final] filter
       = Ok {[ split_name final := shuffle (filtered_ids runs task filter) ]})
  ∧ DatasetSplit.build_split_contents runs shuffle task [] filter = Ok ∅.
Proof.
  split_and!.
  - intros init name d d' p p'. unfold DatasetSplit.build_split_contents.
    by rewrite !removelast_last, !last_snoc.
  - intros final. unfold DatasetSplit.build_split_contents. simpl.
    by rewrite from_nonneg, drop_0.
  - done.
Qed.

(** X3: for definitions whose percentages are doubles in [0, 1] and a
    task with fewer than 2^63 runs, [from_task] raises the percentage
    error exactly when [math.isclose] is false of 1.0 and the total the
    [sum] of the running interpreter gives for the percentages (plain
    up to CPython 3.11, compensated from 3.12), and otherwise returns the split that holds
    the given definitions, the contents [build_split_contents] built and
    the task as parent; of such a split, as long as the runs of the task
    are the same, [missing_count] is 0.  Construction is the validator
    of the class, as in [DatasetSplit.construct]: the checks the base
    model makes of the fields (the form of the name) are not part of
    it. *)
Theorem from_task_builds_a_complete_split (runs : Task.t → list TaskRun.t)
    (shuffle : list string → list string) (alg : SumAlgorithm)
    (name : string) (task : Task.t)
    (splits : list DatasetSplitDefinition.t) (filter : TaskRun.t → bool)
    (description : option string) :
  (∀ l, shuffle l ≡ₚ l) → admissible splits →
  Z.of_nat (length (runs task)) < 2 ^ 63 →
  from_task_outcome runs shuffle alg name task splits filter description.
Proof.
  intros Hperm Hadm Hlen. unfold from_task_outcome.
  assert (∃ contents,
            DatasetSplit.build_split_contents runs shuffle task splits filter
            = Ok contents) as [contents Hbuild].
  { destruct (decide (splits = [])) as [->|Hne]; [by eexists|].
    destruct (build_split_contents_computed runs shuffle Hperm task splits
                filter Hne Hadm Hlen) as (sizes & _ & _ & _ & Hbuild).
    by eexists. }
  rewrite (from_task_built runs shuffle alg name task splits filter
             description contents Hbuild).
  destruct (Float.isclose _ _ _); [|done].
  exists contents. split_and!; [done|done|].
  apply (missing_count_none runs _ task); [done|]. simpl.
  intros id Href. apply (filtered_ids_all runs task filter).
  by eapply build_split_contents_referenced.
Qed.

Lemma from_task_builds_a_complete_split_witness :
  (∀ l : list string, reverse l ≡ₚ l)
  ∧ admissible train_test
  ∧ Z.of_nat (length (ten_runs schema_task)) < 2 ^ 63
  ∧ from_task_outcome ten_runs reverse left_to_right "frozen" schema_task
      train_test AllDatasetFilter None
  ∧ from_task_outcome ten_runs reverse neumaier "frozen" schema_task
      edge_of_tolerance AllDatasetFilter None.
Proof.
  assert (∀ l : list string, reverse l ≡ₚ l) as Hrev
    by (intros l; apply reverse_Permutation).
  assert (admissible train_test) as Hadm
    by (repeat constructor; by vm_compute).
  assert (admissible edge_of_tolerance) as Hedge
    by (repeat constructor; by vm_compute).
  assert (Z.of_nat (length (ten_runs schema_task)) < 2 ^ 63) as Hlen
    by (by vm_compute).
  split_and!; [exact Hrev|exact Hadm|exact Hlen|..].
  - apply (from_task_builds_a_complete_split ten_runs reverse left_to_right
             "frozen" schema_task train_test AllDatasetFilter None);
      assumption.
  - apply (from_task_builds_a_complete_split ten_runs reverse neumaier
             "frozen" schema_task edge_of_tolerance AllDatasetFilter None);
      assumption.
Defined.

Lemma predefined_admissible (splits : list DatasetSplitDefinition.t) :
  splits ∈ predefined_split_definitions →
  admissible splits ∧ distinct_names splits ∧ ∀ alg, sums_to_one alg splits.
Proof.
  unfold predefined_split_definitions. rewrite !elem_of_cons, elem_of_nil.
  intros [->|[->|[->|[->|[]]]]];
    (split; [repeat constructor; by vm_compute|]);
    (split; [unfold distinct_names; apply (bool_decide_unpack _);
             by vm_compute|]);
    intros []; by vm_compute.
Qed.

(** X4: each of the four definition lists the module ships
    ([AllSplitDefinition], [Train80Test20SplitDefinition],
    [Train60Test20Val20SplitDefinition],
    [Train80Test10Val10SplitDefinition]) passes the percentage check, so
    that [from_task] with it succeeds on every task (of fewer than 2^63
    runs) and every filter; the lists of the split it returns are
    consecutive pieces that make up the shuffled filtered IDs, and every
    filtered run ID is in exactly one of them. *)
Theorem predefined_split_definitions_partition
    (runs : Task.t → list TaskRun.t) (shuffle : list string → list string)
    (alg : SumAlgorithm) (name : string) (task : Task.t)
    (splits : list DatasetSplitDefinition.t) (filter : TaskRun.t → bool)
    (description : option string) :
  (∀ l, shuffle l ≡ₚ l) →
  Z.of_nat (length (runs task)) < 2 ^ 63 →
  splits ∈ predefined_split_definitions →
  frozen_and_partitioned runs shuffle alg name task splits filter description.
Proof.
  intros Hperm Hlen Hin.
  destruct (predefined_admissible splits Hin) as (Hadm & Hnames & Hsum).
  destruct (build_split_contents_computed runs shuffle Hperm task splits filter
              (sums_to_one_nonempty alg _ (Hsum alg)) Hadm Hlen)
    as (sizes & Hsizes & Hnn & Hcut & Hbuild).
  unfold frozen_and_partitioned, filtered_ids.
  eexists _, sizes. split_and!.
  - rewrite (from_task_built runs shuffle alg name task splits filter
               description _ Hbuild).
    specialize (Hsum alg). unfold sums_to_one in Hsum. by rewrite Hsum.
  - apply computed_layout; try done. by eapply Forall2_length.
  - intros Hnd. eapply layout_exactly_one; [apply Hperm|done|].
    apply computed_layout; try done. by eapply Forall2_length.
Qed.

Lemma predefined_split_definitions_partition_witness :
  (∀ l : list string, reverse l ≡ₚ l)
  ∧ Z.of_nat (length (ten_runs schema_task)) < 2 ^ 63
  ∧ Train60Test20Val20SplitDefinition ∈ predefined_split_definitions
  ∧ frozen_and_partitioned ten_runs reverse neumaier "frozen" schema_task
      Train60Test20Val20SplitDefinition AllDatasetFilter None.
Proof.
  assert (∀ l : list string, reverse l ≡ₚ l) as Hrev
    by (intros l; apply reverse_Permutation).
  assert (Z.of_nat (length (ten_runs schema_task)) < 2 ^ 63) as Hlen
    by (by vm_compute).
  assert (Train60Test20Val20SplitDefinition ∈ predefined_split_definitions)
    as Hin by (unfold predefined_split_definitions; set_solver).
  split_and!; [exact Hrev|exact Hlen|exact Hin|].
  apply (predefined_split_definitions_partition ten_runs reverse neumaier
           "frozen" schema_task Train60Test20Val20SplitDefinition
           AllDatasetFilter None); assumption.
Defined.

(** ** The sizes of the lists *)

Section Sizes.

Lemma length_between_length {A} (l l' : list A) (lo hi : Z) :
  length l = length l' →
  length (Slice.between l lo hi) = length (Slice.between l' lo hi).
Proof.
  intros Hlen. unfold Slice.between.
  by rewrite !length_take, !length_drop, Hlen.
Qed.

Lemma length_from_length {A} (l l' : list A) (lo : Z) :
  length l = length l' →
  length (Slice.from l lo) = length (Slice.from l' lo).
Proof. intros Hlen. unfold Slice.from. by rewrite !length_drop, Hlen. Qed.

Lemma slices_lengths (ids ids' : list string) (sizes : list Z) (start : Z) :
  length ids = length ids' →
  Forall2 (λ a b, length a = length b)
    (slices ids sizes start) (slices ids' sizes start).
Proof.
  intros Hlen. revert start.
  induction sizes as [|size sizes IH]; intros start; simpl; constructor.
  - by apply length_between_length.
  - apply IH.
Qed.

Lemma all_slices_lengths (ids ids' : list string) (sizes : list Z) :
  length ids = length ids' →
  Forall2 (λ a b, length a = length b)
    (all_slices ids sizes) (all_slices ids' sizes).
Proof.
  intros Hlen. unfold all_slices. apply Forall2_app.
  - by apply slices_lengths.
  - repeat constructor. by apply length_from_length.
Qed.

Lemma insert_all_lengths (names : list string) (cut cut' : list (list string))
    (m m' : gmap string (list string)) :
  Forall2 (λ a b, length a = length b) cut cut' →
  same_sizes m m' →
  same_sizes (insert_all (zip names cut) m) (insert_all (zip names cut') m').
Proof.
  intros Hcut. revert names m m'.
  induction Hcut as [|a b cut cut' Hab _ IH]; intros names m m' Hm.
  - by destruct names.
  - destruct names as [|name names]; [done|]. simpl. apply IH.
    intros k. rewrite !lookup_insert. case_decide; [|apply Hm].
    simpl. by rewrite Hab.
Qed.

Lemma split_sizes_unique (ids ids' : list string)
    (splits : list DatasetSplitDefinition.t) (sizes sizes' : list Z) :
  length ids = length ids' →
  Forall2 (λ split size, DatasetSplit.split_size ids split = Ok size)
    splits sizes →
  Forall2 (λ split size, DatasetSplit.split_size ids' split = Ok size)
    splits sizes' →
  sizes = sizes'.
Proof.
  intros Hlen Hs. revert sizes'.
  induction Hs as [|split size splits sizes Hsize _ IH]; intros sizes' Hs';
    inversion Hs' as [|? size' ? sizes'' Hsize' Hrest]; subst; [done|].
  rewrite (split_size_length ids ids' split Hlen) in Hsize.
  f_equal; [congruence|by apply IH].
Qed.

End Sizes.

(** X16: the shuffle decides which IDs a list holds, never how many: for
    definitions whose percentages are doubles in [0, 1] and a task with
    fewer than 2^63 runs, the results under any two orderings give every
    name a list of the same length. *)
Theorem split_sizes_do_not_depend_on_the_shuffle
    (runs : Task.t → list TaskRun.t)
    (shuffle shuffle' : list string → list string) (task : Task.t)
    (splits : list DatasetSplitDefinition.t) (filter : TaskRun.t → bool) :
  (∀ l, shuffle l ≡ₚ l) → (∀ l, shuffle' l ≡ₚ l) →
  admissible splits →
  Z.of_nat (length (runs task)) < 2 ^ 63 →
  sizes_fixed runs shuffle shuffle' task splits filter.
Proof.
  intros Hperm Hperm' Hadm Hlen. unfold sizes_fixed.
  destruct (decide (splits = [])) as [->|Hne]; [by exists ∅, ∅|].
  destruct (build_split_contents_computed runs shuffle Hperm task splits filter
              Hne Hadm Hlen) as (sizes & Hsizes & _ & _ & Hbuild).
  destruct (build_split_contents_computed runs shuffle' Hperm' task splits
              filter Hne Hadm Hlen) as (sizes' & Hsizes' & _ & _ & Hbuild').
  set (valid_ids := TaskRun.id <$> List.filter filter (runs task)) in *.
  assert (length (shuffle valid_ids) = length (shuffle' valid_ids)) as Hsame
    by (by rewrite Hperm, Hperm').
  pose proof (split_sizes_unique _ _ _ _ _ Hsame Hsizes Hsizes') as <-.
  eexists _, _. split_and!; [exact Hbuild|exact Hbuild'|].
  apply insert_all_lengths; [by apply all_slices_lengths|done].
Qed.

Lemma split_sizes_do_not_depend_on_the_shuffle_witness :
  (∀ l : list string, reverse l ≡ₚ l)
  ∧ (∀ l : list string, id l ≡ₚ l)
  ∧ admissible halves_and_nothing
  ∧ Z.of_nat (length (three_runs schema_task)) < 2 ^ 63
  ∧ sizes_fixed three_runs reverse id schema_task halves_and_nothing
      AllDatasetFilter.
Proof.
  assert (∀ l : list string, reverse l ≡ₚ l) as Hrev
    by (intros l; apply reverse_Permutation).
  assert (∀ l : list string, id l ≡ₚ l) as Hid by done.
  assert (admissible halves_and_nothing) as Hadm
    by (repeat constructor; by vm_compute).
  assert (Z.of_nat (length (three_runs schema_task)) < 2 ^ 63) as Hlen
    by (by vm_compute).
  split_and!; try done.
  by apply (split_sizes_do_not_depend_on_the_shuffle three_runs reverse id
              schema_task halves_and_nothing AllDatasetFilter).
Defined.

(** ** High quality ratings *)

Lemma geb_int_value (f : float) (k n : Z) :
  Float.int_value f = Some k → Float.geb_int f n = bool_decide (n ≤ k).
Proof.
  intros Hk. unfold Float.geb_int. rewrite (compare_int_value _ _ _ Hk).
  case_bool_decide; destruct (Z.compare_spec k n); done || lia.
Qed.

Lemma validate_rating_value_legal (self : TaskOutputRating.t) (v : float) :
  is_ok (TaskOutputRating.validate_rating self) = true →
  TaskOutputRating.value self = Some v →
  legal_rating (TaskOutputRating.type self) v.
Proof.
  unfold TaskOutputRating.validate_rating. intros Hok Hv. rewrite Hv in Hok.
  apply (validate_rating_value_ok _ _ overall_rating).
  by destruct (TaskOutputRating._validate_rating _ _ _) as [[]|].
Qed.

(** X5: a rating that passed [validate_rating] is high quality exactly
    when it has an overall value and that value is 4 or 5 on the
    five_star scale, or 1 (pass) on the pass_fail and pass_fail_critical
    scales; a rating without a value, and a custom rating, never is. *)
Theorem high_quality_of_valid_rating (self : TaskOutputRating.t) :
  is_ok (TaskOutputRating.validate_rating self) = true →
  TaskOutputRating.is_high_quality self = true
  ↔ ∃ v n, TaskOutputRating.value self = Some v
           ∧ Float.int_value v = Some n
           ∧ high_quality_value (TaskOutputRating.type self) n.
Proof.
  intros Hok. unfold TaskOutputRating.is_high_quality. split.
  - destruct (TaskOutputRating.value self) as [v|] eqn:Hv; [|done].
    pose proof (validate_rating_value_legal self v Hok Hv) as Hlegal.
    destruct (TaskOutputRating.type self); simpl in *; [| | |done];
      destruct Hlegal as (n & Hn & Hint); intros Hq; exists v, n;
      (split; [done|]); (split; [done|]).
    + rewrite (geb_int_value _ _ _ Hint) in Hq.
      apply bool_decide_eq_true in Hq. lia.
    + rewrite (eqb_int_value _ _ _ Hint) in Hq.
      by apply bool_decide_eq_true in Hq.
    + rewrite (eqb_int_value _ _ _ Hint) in Hq.
      by apply bool_decide_eq_true in Hq.
  - intros (v & n & -> & Hint & Hq).
    destruct (TaskOutputRating.type self); simpl in Hq; [| | |done].
    + rewrite (geb_int_value _ _ _ Hint). apply bool_decide_eq_true. lia.
    + rewrite (eqb_int_value _ _ _ Hint). by apply bool_decide_eq_true.
    + rewrite (eqb_int_value _ _ _ Hint). by apply bool_decide_eq_true.
Qed.

Lemma high_quality_of_valid_rating_witness :
  is_ok (TaskOutputRating.validate_rating four_stars) = true
  ∧ (TaskOutputRating.is_high_quality four_stars = true
     ↔ ∃ v n, TaskOutputRating.value four_stars = Some v
              ∧ Float.int_value v = Some n
              ∧ high_quality_value (TaskOutputRating.type four_stars) n).
Proof.
  split; [by vm_compute|].
  apply (high_quality_of_valid_rating four_stars). by vm_compute.
Defined.

(** ** The high-rating filter *)

(** X6: of a run that went through a validation pass without an
    exception, [HighRatingDatasetFilter] selects exactly those that
    carry repair instructions (a repaired output then exists, and counts
    as high quality whatever the rating of the original output) or whose
    output has a rating that is high quality; [AllDatasetFilter] selects
    every run. *)
Theorem high_rating_filter_selects {Json : Type}
    (json_loads : string → option Json) (validate_schema : Json → string → bool)
    (strict_mode : bool) (info : ValidationInfo) (self : TaskRun.t) :
  is_ok (TaskRun.validate json_loads validate_schema strict_mode info self).2
  = true →
  (HighRatingDatasetFilter self = true
   ↔ is_Some (TaskRun.repair_instructions self)
     ∨ ∃ rating, TaskOutput.rating (TaskRun.output self) = Some rating
                 ∧ TaskOutputRating.is_high_quality rating = true)
  ∧ AllDatasetFilter self = true.
Proof.
  intros Hok. split; [|done].
  destruct (TaskRun.validate _ _ _ _ _) as [tr [self'|]] eqn:Hpass; [|done].
  apply validate_ok_inv in Hpass as (_ & _ & _ & _ & Hrep).
  apply validate_repaired_output_ok in Hrep as [Hboth _].
  unfold HighRatingDatasetFilter.
  destruct (TaskRun.repaired_output self) as [repaired|].
  - split; [|done]. intros _. left. apply Hboth. by eexists.
  - destruct (TaskOutput.rating (TaskRun.output self)) as [rating|].
    + split; [by eauto|]. intros [Hinstr|(r & [= <-] & Hq)]; [|done].
      apply Hboth in Hinstr. by destruct Hinstr.
    + split; [done|]. intros [Hinstr|(r & [=] & _)].
      apply Hboth in Hinstr. by destruct Hinstr.
Qed.

Lemma high_rating_filter_selects_witness :
  is_ok (TaskRun.validate (Json:=unit) (λ _, Some ()) (λ _ _, true) false
           not_loading fresh_run).2 = true
  ∧ (HighRatingDatasetFilter fresh_run = true
     ↔ is_Some (TaskRun.repair_instructions fresh_run)
       ∨ ∃ rating, TaskOutput.rating (TaskRun.output fresh_run) = Some rating
                   ∧ TaskOutputRating.is_high_quality rating = true)
  ∧ AllDatasetFilter fresh_run = true.
Proof.
  split; [reflexivity|].
  apply (high_rating_filter_selects (Json:=unit) (λ _, Some ()) (λ _ _, true)
           false not_loading fresh_run).
  reflexivity.
Defined.

(** ** A validation pass and the data of a run *)

Section Passes.

Import TaskRun.

Context {Json : Type}.
Variable json_loads : string → option Json.
Variable validate_schema : Json → string → bool.

Lemma set_last_validated_input_same (self : t) (v : string) :
  _last_validated_input self = Some v → set_last_validated_input v self = self.
Proof. destruct self. simpl. by intros ->. Qed.

Lemma set_last_validated_output_same (self : t) (v : string) :
  _last_validated_output self = Some v →
  set_last_validated_output v self = self.
Proof. destruct self. simpl. by intros ->. Qed.

(** The input validator, run again on what it returned (or on a run
    that has the same input, parent and cache), checks nothing. *)
Lemma validate_input_format_again (info : ValidationInfo) (self s1 s : t) tr :
  validate_input_format json_loads validate_schema info self = (tr, Ok s1) →
  input s = input self → parent s = parent self →
  _last_validated_input s = _last_validated_input s1 →
  validate_input_format json_loads validate_schema info s = ([], Ok s).
Proof.
  unfold validate_input_format, parent_task. intros Hpass Hi Hp Hc.
  rewrite Hi, Hp. unfold quiet in *.
  destruct (loading_from_file info).
  { simplify_eq/=. do 2 f_equal. by apply set_last_validated_input_same. }
  destruct (decide (_last_validated_input self = Some (input self)))
    as [Hcache|Hcache].
  { rewrite bool_decide_eq_true_2 in Hpass by done. simplify_eq.
    by rewrite bool_decide_eq_true_2 by congruence. }
  rewrite bool_decide_eq_false_2 in Hpass by done.
  destruct (as_task (parent self)) as [task|].
  - assert (s1 = set_last_validated_input (input self) self) as ->.
    { unfold and_then, schema_check in Hpass.
      by repeat (case_match; simplify_eq/=). }
    simpl in Hc. by rewrite bool_decide_eq_true_2.
  - simplify_eq. by rewrite bool_decide_eq_false_2 by congruence.
Qed.

Lemma validate_output_format_again (info : ValidationInfo) (self s1 s : t) tr :
  validate_output_format json_loads validate_schema info self = (tr, Ok s1) →
  output s = output self → parent s = parent self →
  _last_validated_output s = _last_validated_output s1 →
  validate_output_format json_loads validate_schema info s = ([], Ok s).
Proof.
  unfold validate_output_format, parent_task. intros Hpass Ho Hp Hc.
  rewrite Ho, Hp. unfold quiet in *.
  destruct (loading_from_file info).
  { simplify_eq/=. do 2 f_equal. by apply set_last_validated_output_same. }
  destruct (decide (_last_validated_output self
                    = Some (TaskOutput.output (output self))))
    as [Hcache|Hcache].
  { rewrite bool_decide_eq_true_2 in Hpass by done. simplify_eq.
    by rewrite bool_decide_eq_true_2 by congruence. }
  rewrite bool_decide_eq_false_2 in Hpass by done.
  destruct (as_task (parent self)) as [task|].
  - assert (s1 = set_last_validated_output (TaskOutput.output (output self))
                   self) as ->.
    { unfold TaskOutput.validate_output_format, and_then, schema_check, quiet
        in Hpass.
      by repeat (case_match; simplify_eq/=). }
    simpl in Hc. by rewrite bool_decide_eq_true_2.
  - simplify_eq. by rewrite bool_decide_eq_false_2 by congruence.
Qed.

Lemma validate_input_format_trace (info : ValidationInfo) (self : t) :
  (length (validate_input_format json_loads validate_schema info self).1 ≤ 1)%nat.
Proof.
  unfold validate_input_format, and_then, schema_check, quiet.
  repeat (case_match; simplify_eq/=); lia.
Qed.

Lemma validate_output_format_trace (info : ValidationInfo) (self : t) :
  (length (validate_output_format json_loads validate_schema info self).1 ≤ 1)%nat.
Proof.
  unfold validate_output_format, TaskOutput.validate_output_format, and_then,
    schema_check, quiet.
  repeat (case_match; simplify_eq/=); lia.
Qed.

Lemma validate_data_returns_self strict_mode info (self r : t) :
  validate_data strict_mode info self = Ok r → r = self.
Proof.
  unfold validate_data. intros Hr.
  apply bind_ok_inv in Hr as (s3 & Hrep & Hr).
  apply bind_ok_inv in Hr as (s4 & Hsrc & Htag).
  pose proof (validate_repaired_output_returns_self _ _ Hrep) as ->.
  pose proof (validate_input_source_returns_self _ _ _ _ Hsrc) as ->.
  by pose proof (validate_tags_returns_self _ _ Htag) as ->.
Qed.

(** The parts of a pass. *)
Lemma validate_parts (strict_mode : bool) (info : ValidationInfo)
    (self self' : t) tr :
  validate json_loads validate_schema strict_mode info self = (tr, Ok self') →
  ∃ tr1 tr2 s1,
    validate_input_format json_loads validate_schema info self = (tr1, Ok s1)
    ∧ validate_output_format json_loads validate_schema info s1
      = (tr2, Ok self')
    ∧ validate_data strict_mode info self' = Ok self'
    ∧ tr = tr1 ++ tr2.
Proof.
  unfold validate, and_then.
  destruct (validate_input_format _ _ _ _) as [tr1 [s1|]] eqn:H1; [|done].
  destruct (validate_output_format _ _ _ _) as [tr2 [s2|]] eqn:H2; [|done].
  unfold quiet. fold (validate_data strict_mode info s2).
  intros [= <- Hr]. rewrite app_nil_r.
  pose proof (validate_data_returns_self _ _ _ _ Hr) as ->.
  by eexists _, _, _.
Qed.

End Passes.

(** X7: a validation pass of a run that ends without an exception
    returns the run with its data untouched: only the two caches can
    differ, each one either as it was or holding the current value.  It
    executes at most two schema validations, and the same pass run again
    on its result executes none and returns it unchanged. *)
Theorem validate_only_updates_the_cache {Json : Type}
    (json_loads : string → option Json) (validate_schema : Json → string → bool)
    (strict_mode : bool) (info : ValidationInfo) (self self' : TaskRun.t)
    (tr : list Event) :
  TaskRun.validate json_loads validate_schema strict_mode info self
  = (tr, Ok self') →
  settled json_loads validate_schema strict_mode info self tr self'.
Proof.
  intros Hpass.
  destruct (validate_parts _ _ _ _ _ _ _ Hpass)
    as (tr1 & tr2 & s1 & H1 & H2 & Hdata & ->).
  pose proof (validate_input_format_fields _ _ _ _ _ _ H1) as Hs1.
  pose proof (validate_output_format_fields _ _ _ _ _ _ H2) as Hs2.
  pose proof (validate_input_format_trace json_loads validate_schema info self)
    as Hl1.
  pose proof (validate_output_format_trace json_loads validate_schema info s1)
    as Hl2.
  rewrite H1 in Hl1. rewrite H2 in Hl2. simpl in Hl1, Hl2.
  unfold settled, same_data. split_and!.
  1-9: by destruct Hs1 as [-> | ->], Hs2 as [-> | ->].
  - destruct Hs1 as [-> | ->], Hs2 as [-> | ->]; simpl; by auto.
  - destruct Hs1 as [-> | ->], Hs2 as [-> | ->]; simpl; by auto.
  - rewrite length_app. lia.
  - unfold TaskRun.validate, and_then.
    rewrite (validate_input_format_again _ _ info self s1 self' tr1 H1);
      [|by destruct Hs1 as [-> | ->], Hs2 as [-> | ->]..].
    rewrite (validate_output_format_again _ _ info s1 self' self' tr2 H2);
      [|by destruct Hs2 as [-> | ->]..].
    unfold quiet. fold (validate_data strict_mode info self').
    by rewrite Hdata.
Qed.

Lemma validate_only_updates_the_cache_witness :
  ∃ tr self',
    TaskRun.validate (Json:=unit) (λ _, Some ()) (λ _ _, true) false
      not_loading fresh_run = (tr, Ok self')
    ∧ settled (Json:=unit) (λ _, Some ()) (λ _ _, true) false not_loading
        fresh_run tr self'.
Proof.
  eexists _, _. split; [reflexivity|].
  apply (validate_only_updates_the_cache (Json:=unit) (λ _, Some ())
           (λ _ _, true) false not_loading fresh_run).
  reflexivity.
Defined.

(** X8: while a run has no parent task (none at all, or a parent that
    is not a task) and is not being loaded from a file, neither
    validator looks at a schema, and neither records the value as
    validated: both return the run as it is.  Once a task that declares
    schemas is attached, the next pass therefore validates the input and
    the output against them. *)
Theorem unparented_run_is_not_schema_checked {Json : Type}
    (json_loads : string → option Json) (validate_schema : Json → string → bool)
    (info : ValidationInfo) (self : TaskRun.t) :
  TaskRun.parent_task self = None →
  loading_from_file info = false →
  TaskRun._last_validated_input self = None →
  TaskRun._last_validated_output self = None →
  left_unchecked json_loads validate_schema info self.
Proof.
  intros Hparent Hload Hin Hout. unfold left_unchecked.
  assert (TaskRun.validate_input_format json_loads validate_schema info self
          = ([], Ok self)) as H1.
  { unfold TaskRun.validate_input_format.
    by rewrite Hload, Hin, Hparent, bool_decide_eq_false_2. }
  assert (TaskRun.validate_output_format json_loads validate_schema info self
          = ([], Ok self)) as H2.
  { unfold TaskRun.validate_output_format.
    by rewrite Hload, Hout, Hparent, bool_decide_eq_false_2. }
  split_and!; [done|done| |].
  - intros strict_mode. unfold TaskRun.validate, and_then.
    rewrite H1, H2. unfold quiet. by destruct (_ ≫= _).
  - intros task schema_in schema_out Hsin Hsout. split; intros Hcache.
    + by rewrite (input_trace _ _ _ _ task schema_in),
        bool_decide_eq_false_2.
    + by rewrite (output_trace _ _ _ _ task schema_out),
        bool_decide_eq_false_2.
Qed.

Lemma unparented_run_is_not_schema_checked_witness :
  TaskRun.parent_task orphan_run = None
  ∧ loading_from_file not_loading = false
  ∧ TaskRun._last_validated_input orphan_run = None
  ∧ TaskRun._last_validated_output orphan_run = None
  ∧ left_unchecked (Json:=unit) (λ _, None) (λ _ _, false) not_loading
      orphan_run.
Proof.
  split_and!; [reflexivity..|].
  apply (unparented_run_is_not_schema_checked (Json:=unit) (λ _, None)
           (λ _ _, false) not_loading orphan_run); reflexivity.
Defined.

(** ** Strict mode *)

Section StrictMode.

Import TaskRun.

Context {Json : Type}.
Variable json_loads : string → option Json.
Variable validate_schema : Json → string → bool.

Lemma validate_data_strict (info : ValidationInfo) (self : t) :
  validate_data false info self = Ok self →
  validate_data true info self
  = if loaded_from_file info || bool_decide (is_Some (input_source self))
    then Ok self else Raise InputSourceRequired.
Proof.
  unfold validate_data, validate_input_source. intros Hlax.
  apply bind_ok_inv in Hlax as (s3 & Hrep & Hlax).
  pose proof (validate_repaired_output_returns_self _ _ Hrep) as ->.
  rewrite Hrep. simpl in *.
  destruct (loaded_from_file info); simpl; [done|].
  destruct (input_source self); simpl; [done|].
  done.
Qed.

Lemma validate_data_lax (info : ValidationInfo) (self : t) :
  validate_data true info self = Ok self →
  validate_data false info self = Ok self.
Proof.
  unfold validate_data, validate_input_source. intros Hstrict.
  apply bind_ok_inv in Hstrict as (s3 & Hrep & Hstrict).
  pose proof (validate_repaired_output_returns_self _ _ Hrep) as ->.
  rewrite Hrep. simpl in *.
  destruct (loaded_from_file info); simpl in *; [done|].
  by destruct (input_source self).
Qed.

Lemma validate_strict_of_lax (info : ValidationInfo) (self self' : t) tr :
  validate json_loads validate_schema false info self = (tr, Ok self') →
  validate json_loads validate_schema true info self
  = (tr, if loaded_from_file info || bool_decide (is_Some (input_source self))
         then Ok self' else Raise InputSourceRequired).
Proof.
  intros Hpass.
  destruct (validate_parts _ _ _ _ _ _ _ Hpass)
    as (tr1 & tr2 & s1 & H1 & H2 & Hdata & ->).
  pose proof (validate_input_format_fields _ _ _ _ _ _ H1) as Hs1.
  pose proof (validate_output_format_fields _ _ _ _ _ _ H2) as Hs2.
  unfold validate, and_then. rewrite H1, H2. unfold quiet.
  fold (validate_data true info self'). rewrite app_nil_r.
  rewrite (validate_data_strict _ _ Hdata).
  replace (input_source self') with (input_source self)
    by (by destruct Hs1 as [-> | ->], Hs2 as [-> | ->]).
  done.
Qed.

Lemma validate_lax_of_strict (info : ValidationInfo) (self self' : t) tr :
  validate json_loads validate_schema true info self = (tr, Ok self') →
  validate json_loads validate_schema false info self = (tr, Ok self').
Proof.
  intros Hpass.
  destruct (validate_parts _ _ _ _ _ _ _ Hpass)
    as (tr1 & tr2 & s1 & H1 & H2 & Hdata & ->).
  unfold validate, and_then. rewrite H1, H2. unfold quiet.
  fold (validate_data false info self'). rewrite app_nil_r.
  by rewrite (validate_data_lax _ _ Hdata).
Qed.

End StrictMode.

(** X9: strict mode is off when the module is imported, and
    [strict_mode()] returns what [set_strict_mode] stored last.  With
    strict mode off, [validate_input_source] and
    [validate_output_source] accept everything.  With strict mode on
    they accept exactly the objects that are loaded from a file or have
    a source.  Strict mode changes nothing else of a validation pass of
    a run: a pass that succeeds in strict mode succeeds with the same
    result and the same schema validations outside it, and a pass that
    succeeds outside it fails in strict mode only for a missing
    [input_source], with that error. *)
Theorem strict_mode_only_requires_sources :
  Globals.strict_mode Globals.initial = false
  ∧ (∀ value g,
       Globals.strict_mode (Globals.set_strict_mode value g) = value)
  ∧ (∀ info self, TaskRun.validate_input_source false info self = Ok self)
  ∧ (∀ info self, TaskOutput.validate_output_source false info self = Some self)
  ∧ (∀ info self,
       is_ok (TaskRun.validate_input_source true info self)
       = loaded_from_file info
         || bool_decide (is_Some (TaskRun.input_source self)))
  ∧ (∀ info self,
       TaskOutput.validate_output_source true info self
       = if loaded_from_file info
            || bool_decide (is_Some (TaskOutput.source self))
         then Some self else None)
  ∧ (∀ Json (json_loads : string → option Json) validate_schema info self
       self' tr,
       TaskRun.validate json_loads validate_schema true info self
       = (tr, Ok self') →
       TaskRun.validate json_loads validate_schema false info self
       = (tr, Ok self'))
  ∧ (∀ Json (json_loads : string → option Json) validate_schema info self
       self' tr,
       TaskRun.validate json_loads validate_schema false info self
       = (tr, Ok self') →
       TaskRun.validate json_loads validate_schema true info self
       = (tr, if loaded_from_file info
                 || bool_decide (is_Some (TaskRun.input_source self))
              then Ok self' else Raise InputSourceRequired)).
Proof.
  split_and!; try done.
  - intros info self. unfold TaskRun.validate_input_source. simpl.
    destruct (loaded_from_file info); [done|].
    destruct (TaskRun.input_source self); simpl; [done|].
    done.
  - intros info self. unfold TaskOutput.validate_output_source. simpl.
    destruct (loaded_from_file info); [done|].
    destruct (TaskOutput.source self); simpl; [done|].
    done.
  - intros. by apply validate_lax_of_strict.
  - intros. by apply validate_strict_of_lax.
Qed.

(** ** Data sources of the two types *)

Section DataSourceShapes.

Import DataSource.

Lemma registered_string (ty : DataSourceType)
    (props : gmap string PropertyValue) (prop : DataSourceProperty.t) :
  registry_respected ty props → no_empty_property props →
  prop ∈ _data_source_properties →
  ty ∈ DataSourceProperty.required_for prop →
  nonempty_string props (DataSourceProperty.name prop).
Proof.
  intros (Hty & Hreq & _) Hne Hin Hfor.
  destruct (Hreq prop Hin Hfor) as [v Hv].
  pose proof (Hty prop v Hin Hv) as Hinst.
  assert (DataSourceProperty.type prop = type_str) as Hstr.
  { revert Hin. unfold _data_source_properties.
    rewrite !elem_of_cons, elem_of_nil. intros H. by destruct_or!; subst. }
  rewrite Hstr in Hinst. destruct v as [s|n|f]; try done.
  exists s. split; [done|]. intros ->. by apply (Hne _ _ Hv).
Qed.

End DataSourceShapes.

Ltac in_registry :=
  unfold DataSource._data_source_properties; repeat first [by left|right].

(** X10: a human data source is valid only with a non-empty string
    [created_by] and without [model_name], [model_provider],
    [adapter_name], [prompt_builder_name] and [prompt_id]; a synthetic
    one only with non-empty strings [model_name], [model_provider] and
    [adapter_name] and without [created_by].  So no property dict is
    valid for both types, and the default empty dict is valid for
    neither. *)
Theorem data_source_types_exclude_each_other :
  (∀ props,
     is_ok (DataSource.construct human props) = true →
     nonempty_string props "created_by"
     ∧ Forall (λ name, props !! name = None)
         ["model_name"; "model_provider"; "adapter_name";
          "prompt_builder_name"; "prompt_id"]%string)
  ∧ (∀ props,
       is_ok (DataSource.construct synthetic props) = true →
       Forall (nonempty_string props)
         ["model_name"; "model_provider"; "adapter_name"]%string
       ∧ props !! "created_by"%string = None)
  ∧ (∀ props,
       ¬ (is_ok (DataSource.construct human props) = true
          ∧ is_ok (DataSource.construct synthetic props) = true))
  ∧ (∀ ty, is_ok (DataSource.construct ty ∅) = false).
Proof.
  assert (∀ props,
            is_ok (DataSource.construct human props) = true →
            nonempty_string props "created_by"
            ∧ Forall (λ name, props !! name = None)
                ["model_name"; "model_provider"; "adapter_name";
                 "prompt_builder_name"; "prompt_id"]%string) as Hhuman.
  { intros props [Hreg Hne]%construct_ok. split.
    - apply (registered_string human props
               (DataSourceProperty.mk "created_by" type_str [human]
                  [synthetic]) Hreg Hne); [|by left].
      in_registry.
    - destruct Hreg as (_ & _ & Hna).
      repeat constructor.
      + apply (Hna (DataSourceProperty.mk "model_name" type_str [synthetic]
                      [human])); [|by left].
        in_registry.
      + apply (Hna (DataSourceProperty.mk "model_provider" type_str
                      [synthetic] [human])); [|by left].
        in_registry.
      + apply (Hna (DataSourceProperty.mk "adapter_name" type_str [synthetic]
                      [human])); [|by left].
        in_registry.
      + apply (Hna (DataSourceProperty.mk "prompt_builder_name" type_str []
                      [human])); [|by left].
        in_registry.
      + apply (Hna (DataSourceProperty.mk "prompt_id" type_str [] [human]));
          [|by left].
        in_registry. }
  assert (∀ props,
            is_ok (DataSource.construct synthetic props) = true →
            Forall (nonempty_string props)
              ["model_name"; "model_provider"; "adapter_name"]%string
            ∧ props !! "created_by"%string = None) as Hsynthetic.
  { intros props [Hreg Hne]%construct_ok. split.
    - repeat constructor.
      + apply (registered_string synthetic props
                 (DataSourceProperty.mk "model_name" type_str [synthetic]
                    [human]) Hreg Hne); [|by left].
        in_registry.
      + apply (registered_string synthetic props
                 (DataSourceProperty.mk "model_provider" type_str [synthetic]
                    [human]) Hreg Hne); [|by left].
        in_registry.
      + apply (registered_string synthetic props
                 (DataSourceProperty.mk "adapter_name" type_str [synthetic]
                    [human]) Hreg Hne); [|by left].
        in_registry.
    - destruct Hreg as (_ & _ & Hna).
      apply (Hna (DataSourceProperty.mk "created_by" type_str [human]
                    [synthetic])); [|by left].
      in_registry. }
  split_and!; [done|done| |].
  - intros props [Hh Hs].
    destruct (Hhuman props Hh) as [(s & Hcreated & _) _].
    destruct (Hsynthetic props Hs) as [_ Hnone]. congruence.
  - intros []; by vm_compute.
Qed.

(** ** The migration, applied twice *)

Section Upgrade.

Import TaskOutputRating.

Lemma upgraded_not_numbers (rr : list (string * pyvalue)) :
  rr ≠ [] → forallb Py.is_number (prod_map id upgraded <$> rr).*2 = false.
Proof. by destruct rr as [|[k v] rr]. Qed.

Lemma upgrade_old_format_dict (d : list (string * pyvalue)) :
  upgrade_old_format (PyDict d)
  = let req_ratings :=
      default (PyDict []) (Py.dict_get d "requirement_ratings") in
    if Py.truthy req_ratings then
      match req_ratings with
      | PyDict rr =>
          if forallb Py.is_number rr.*2 then
            Ok (PyDict (Py.dict_set d "requirement_ratings"
                  (PyDict (prod_map id upgraded <$> rr))))
          else Ok (PyDict d)
      | _ => Raise AttributeError
      end
    else Ok (PyDict d).
Proof. reflexivity. Qed.

(** The outcomes of the validator on a dict, by its
    [requirement_ratings]. *)
Lemma upgrade_old_format_cases (d : list (string * pyvalue)) :
  (upgrade_old_format (PyDict d) = Ok (PyDict d)
   ∧ (Py.dict_get d "requirement_ratings" = None
      ∨ ∃ v, Py.dict_get d "requirement_ratings" = Some v
             ∧ (Py.truthy v = false
                ∨ ∃ rr, v = PyDict rr ∧ forallb Py.is_number rr.*2 = false)))
  ∨ (∃ v, Py.dict_get d "requirement_ratings" = Some v
          ∧ Py.truthy v = true ∧ (∀ rr, v ≠ PyDict rr)
          ∧ upgrade_old_format (PyDict d) = Raise AttributeError)
  ∨ (∃ rr, Py.dict_get d "requirement_ratings" = Some (PyDict rr)
           ∧ rr ≠ [] ∧ forallb Py.is_number rr.*2 = true
           ∧ upgrade_old_format (PyDict d)
             = Ok (PyDict (Py.dict_set d "requirement_ratings"
                     (PyDict (prod_map id upgraded <$> rr))))).
Proof.
  rewrite upgrade_old_format_dict.
  destruct (Py.dict_get d "requirement_ratings") as [req|] eqn:Hget;
    cbn -[Py.truthy forallb fmap Py.dict_set Py.dict_get];
    [|left; by auto].
  destruct (Py.truthy req) eqn:Ht;
    [|left; split; [done|]; right; exists req; split; [done|]; by left].
  destruct req as [| | | | | |l|rr|r];
    try (right; left; eexists; by split_and!).
  destruct (forallb Py.is_number rr.*2) eqn:Hnum.
  - right. right. exists rr. split_and!; try done. by intros ->.
  - left. split; [done|]. right. eexists. split; [done|]. right. by eauto.
Qed.

End Upgrade.

(** X11: [upgrade_old_format] is idempotent: applied to data it has
    returned, it returns them unchanged, so data in the current format,
    and data migrated once, are never rewritten. *)
Theorem upgrade_old_format_idempotent (data data' : pyvalue) :
  TaskOutputRating.upgrade_old_format data = Ok data' →
  TaskOutputRating.upgrade_old_format data' = Ok data'.
Proof.
  destruct data as [| | | | | |l|d|r]; try (by intros [= <-]).
  destruct (upgrade_old_format_cases d)
    as [[Hsame _]|[(v & _ & _ & _ & Hraise)|(rr & Hget & Hne & Hnum & Hup)]].
  - rewrite Hsame. by intros [= <-].
  - by rewrite Hraise.
  - rewrite Hup. intros [= <-].
    rewrite upgrade_old_format_dict, dict_get_set_eq.
    cbn -[Py.truthy forallb fmap Py.dict_set Py.dict_get].
    rewrite (upgraded_not_numbers rr Hne). by destruct (Py.truthy _).
Qed.

Lemma upgrade_old_format_idempotent_witness :
  ∃ data',
    TaskOutputRating.upgrade_old_format (PyDict old_format_data) = Ok data'
    ∧ TaskOutputRating.upgrade_old_format data' = Ok data'.
Proof.
  eexists. split; [reflexivity|].
  apply (upgrade_old_format_idempotent (PyDict old_format_data)).
  reflexivity.
Defined.

(** X12: [upgrade_old_format] raises in one situation only: the data
    are a dict whose [requirement_ratings] is truthy and is not a dict
    (a non-empty list or string, a non-zero number, ...), which has no
    [values()]: the exception is an [AttributeError].  In every other
    case it returns; and it returns the data as they are unless
    [requirement_ratings] is a non-empty dict of numbers only. *)
Theorem upgrade_old_format_raises :
  (∀ data e,
     TaskOutputRating.upgrade_old_format data = Raise e
     ↔ e = AttributeError
       ∧ ∃ d v, data = PyDict d
                ∧ Py.dict_get d requirement_ratings_key = Some v
                ∧ Py.truthy v = true
                ∧ ∀ rr, v ≠ PyDict rr)
  ∧ (∀ data data',
       TaskOutputRating.upgrade_old_format data = Ok data' →
       data' ≠ data →
       ∃ d rr, data = PyDict d
               ∧ Py.dict_get d requirement_ratings_key = Some (PyDict rr)
               ∧ rr ≠ []
               ∧ Forall (λ v, Py.is_number v = true) rr.*2).
Proof.
  unfold requirement_ratings_key. split.
  - intros data e. split.
    + destruct data as [| | | | | |l|d|r]; try done.
      destruct (upgrade_old_format_cases d)
        as [[Hsame _]|[(v & Hget & Ht & Hnd & Hraise)|(rr & _ & _ & _ & Hup)]].
      * by rewrite Hsame.
      * rewrite Hraise. intros [= <-]. split; [done|]. by exists d, v.
      * by rewrite Hup.
    + intros (-> & d & v & -> & Hget & Ht & Hnd).
      destruct (upgrade_old_format_cases d)
        as [[_ [Hnone|(v' & Hget' & [Hf|(rr & -> & _)])]]
           |[(v' & _ & _ & _ & Hraise)|(rr & Hget' & _)]];
        simplify_eq; try done; try congruence; by destruct (Hnd rr).
  - intros data data'.
    destruct data as [| | | | | |l|d|r]; try (by intros [= <-]).
    destruct (upgrade_old_format_cases d)
      as [[Hsame _]|[(v & _ & _ & _ & Hraise)|(rr & Hget & Hne & Hnum & Hup)]].
    + rewrite Hsame. by intros [= <-].
    + by rewrite Hraise.
    + intros _ _. exists d, rr. split_and!; try done.
      apply Forall_forall. intros v Hv.
      rewrite forallb_forall in Hnum. by apply Hnum, list_elem_of_In.
Qed.

(** ** Percentages that are not finite *)

Section NonFinite.

Lemma add_not_finite_l (a b : float) :
  not_finite a = true → not_finite (Float.add a b) = true.
Proof.
  destruct a as [s|s| |s m e]; try done; destruct b as [s'|s'| |s' m' e'];
    try done.
  by destruct s, s'.
Qed.

Lemma add_not_finite_r (a b : float) :
  not_finite b = true → not_finite (Float.add a b) = true.
Proof.
  destruct b as [s|s| |s m e]; try done; destruct a as [s'|s'| |s' m' e'];
    try done.
  by destruct s, s'.
Qed.

Lemma foldl_not_finite (acc : float) (xs : list float) :
  not_finite acc = true → not_finite (foldl Float.add acc xs) = true.
Proof.
  revert acc. induction xs as [|x xs IH]; intros acc Hacc; simpl; [done|].
  by apply IH, add_not_finite_l.
Qed.

Lemma left_to_right_not_finite (acc : float) (xs : list float) :
  Exists (λ x, not_finite x = true) xs →
  not_finite (foldl Float.add acc xs) = true.
Proof.
  intros Hbad. revert acc.
  induction Hbad as [x xs Hx|x xs _ IH]; intros acc; simpl.
  - by apply foldl_not_finite, add_not_finite_r.
  - apply IH.
Qed.

Lemma compensated_not_finite (f_result c : float) (xs : list float) :
  not_finite f_result = true →
  not_finite (Builtins.compensated_sum f_result c xs) = true.
Proof.
  revert f_result c. induction xs as [|x xs IH]; intros f_result c Hf; simpl.
  - destruct (Builtins.is_finite_nonzero c); [by apply add_not_finite_l|done].
  - by apply IH, add_not_finite_l.
Qed.

Lemma neumaier_not_finite (f_result c : float) (xs : list float) :
  Exists (λ x, not_finite x = true) xs →
  not_finite (Builtins.compensated_sum f_result c xs) = true.
Proof.
  intros Hbad. revert f_result c.
  induction Hbad as [x xs Hx|x xs _ IH]; intros f_result c; simpl.
  - by apply compensated_not_finite, add_not_finite_r.
  - apply IH.
Qed.

Lemma total_percentage_not_finite (alg : SumAlgorithm)
    (splits : list DatasetSplitDefinition.t) :
  Exists (λ split, not_finite (DatasetSplitDefinition.percentage split) = true)
    splits →
  not_finite (DatasetSplit.total_percentage alg splits) = true.
Proof.
  intros Hbad. unfold DatasetSplit.total_percentage.
  assert (Exists (λ x, not_finite x = true)
            (DatasetSplitDefinition.percentage <$> splits)) as Hxs.
  { apply Exists_fmap. by eapply Exists_impl. }
  destruct alg; unfold Builtins.sum.
  - by apply left_to_right_not_finite.
  - destruct (DatasetSplitDefinition.percentage <$> splits) as [|x xs];
      [by apply Exists_nil in Hxs|].
    apply Exists_cons in Hxs as [Hx|Hxs].
    + by apply compensated_not_finite, add_not_finite_r.
    + by apply neumaier_not_finite.
Qed.

Lemma isclose_not_finite (total : float) :
  not_finite total = true → Float.isclose total f1_0 f1e_9 = false.
Proof. destruct total as [s|[]| |s m e]; done. Qed.

End NonFinite.

(** X13: [validate_split_percentages] refuses every definition list in
    which some percentage is NaN or an infinity, whatever the other
    percentages are: the sum is then NaN or infinite, under the plain
    and under the compensated [sum], and [math.isclose] is false of
    it. *)
Theorem non_finite_percentage_refused (alg : SumAlgorithm) (name : string)
    (description : option string) (splits : list DatasetSplitDefinition.t)
    (split_contents : gmap string (list string)) (parent : option KilnModel) :
  Exists (λ split, not_finite (DatasetSplitDefinition.percentage split) = true)
    splits →
  DatasetSplit.construct alg name description splits split_contents parent
  = Raise SplitPercentagesSum.
Proof.
  intros Hbad. unfold DatasetSplit.construct,
    DatasetSplit.validate_split_percentages. cbn [DatasetSplit.splits].
  change DatasetSplit.rel_tol with f1e_9. change (Float.of_Z 1) with f1_0.
  by rewrite (isclose_not_finite _ (total_percentage_not_finite alg _ Hbad)).
Qed.

Lemma non_finite_percentage_refused_witness :
  Exists (λ split, not_finite (DatasetSplitDefinition.percentage split) = true)
    [split_def "a" f1_0; split_def "b" S754_nan]
  ∧ DatasetSplit.construct neumaier "split" None
      [split_def "a" f1_0; split_def "b" S754_nan] ∅ None
    = Raise SplitPercentagesSum.
Proof.
  assert (Exists (λ split, not_finite (DatasetSplitDefinition.percentage split)
                           = true)
            [split_def "a" f1_0; split_def "b" S754_nan]) as Hbad
    by (right; by left).
  split; [done|].
  by apply (non_finite_percentage_refused neumaier "split" None
              [split_def "a" f1_0; split_def "b" S754_nan] ∅ None).
Defined.

(** ** Missing runs, as the runs of the task change *)

(** X14: for a split with a parent task, [missing_count] is 0 exactly
    when every ID in every list is the ID of a current run, and it can
    only fall when runs are added to the task (and so only rise when
    runs are deleted): if every run ID of one state of the task is a run
    ID of another, the count in the other state is at most the count in
    the first. *)
Theorem missing_count_follows_the_runs (runs runs' : Task.t → list TaskRun.t)
    (self : DatasetSplit.t) (task : Task.t) :
  DatasetSplit.parent_task self = Some task →
  ∃ n n',
    DatasetSplit.missing_count runs self = Ok n
    ∧ DatasetSplit.missing_count runs' self = Ok n'
    ∧ (n = 0%nat
       ↔ ∀ id, referenced (DatasetSplit.split_contents self) id →
               id ∈ TaskRun.id <$> runs task)
    ∧ ((∀ id, id ∈ TaskRun.id <$> runs task → id ∈ TaskRun.id <$> runs' task) →
       (n' ≤ n)%nat).
Proof.
  intros Hparent. unfold DatasetSplit.missing_count. rewrite Hparent.
  eexists _, _. split_and!; [done|done| |].
  - rewrite size_empty_iff. split.
    + intros Hempty id Href.
      destruct (decide (id ∈ TaskRun.id <$> runs task)) as [|Hnot]; [done|].
      exfalso. apply (not_elem_of_empty (C:=gset string) id). apply Hempty.
      by rewrite elem_of_difference, elem_of_all_ids_in_splits,
        elem_of_list_to_set.
    + intros Hall id.
      rewrite elem_of_difference, elem_of_all_ids_in_splits,
        elem_of_list_to_set.
      split; [|by intros ?%elem_of_empty]. intros [Href Hnot].
      exfalso. by apply Hnot, Hall.
  - intros Hmore. apply subseteq_size. intros id.
    rewrite !elem_of_difference, !elem_of_list_to_set.
    intros [Href Hnot]. split; [done|]. intros Hin. by apply Hnot, Hmore.
Qed.

Lemma missing_count_follows_the_runs_witness :
  DatasetSplit.parent_task drifted_split = Some schema_task
  ∧ ∃ n n',
      DatasetSplit.missing_count runs_A_B drifted_split = Ok n
      ∧ DatasetSplit.missing_count three_runs drifted_split = Ok n'
      ∧ (n = 0%nat
         ↔ ∀ id, referenced (DatasetSplit.split_contents drifted_split) id →
                 id ∈ TaskRun.id <$> runs_A_B schema_task)
      ∧ ((∀ id, id ∈ TaskRun.id <$> runs_A_B schema_task →
                id ∈ TaskRun.id <$> three_runs schema_task) →
         (n' ≤ n)%nat).
Proof.
  split; [reflexivity|].
  apply (missing_count_follows_the_runs runs_A_B three_runs drifted_split
           schema_task).
  reflexivity.
Defined.

(** ** When a validation pass succeeds *)

Section Acceptance.

Import TaskRun.

Context {Json : Type}.
Variable json_loads : string → option Json.
Variable validate_schema : Json → string → bool.

Lemma schema_check_ok (value schema : string) (not_json mismatch : PyError) :
  is_ok (schema_check json_loads validate_schema value schema not_json
           mismatch).2 = true
  ↔ schema_ok json_loads validate_schema value (Some schema).
Proof.
  unfold schema_check, schema_ok. simpl.
  destruct (json_loads value) as [v|]; simpl.
  - destruct (validate_schema v schema) eqn:Hv; simpl.
    + split; [by eauto|done].
    + split; [done|]. intros (v' & [= <-] & Hv'). congruence.
  - split; [done|]. by intros (v & ? & _).
Qed.

Lemma and_then_ok {A B} (x : traced A) (k : A → traced B) :
  is_ok (and_then x k).2 = true
  ↔ ∃ a, x.2 = Ok a ∧ is_ok (k a).2 = true.
Proof.
  destruct x as [tr [a|e]]; simpl.
  - destruct (k a) as [tr' r] eqn:Hk. simpl. split.
    + intros Hr. exists a. by rewrite Hk.
    + intros (a' & [= <-] & Hr). by rewrite Hk in Hr.
  - split; [done|]. by intros (a & ? & _).
Qed.

Lemma validate_input_format_ok (info : ValidationInfo) (self : t) :
  is_ok (validate_input_format json_loads validate_schema info self).2 = true
  ↔ input_accepted json_loads validate_schema info self.
Proof.
  unfold validate_input_format, input_accepted.
  destruct (loading_from_file info); [split; by auto|].
  case_bool_decide as Hcache; [split; by auto|].
  destruct (parent_task self) as [task|]; [|split; by auto].
  rewrite and_then_ok.
  destruct (Task.input_json_schema task) as [schema|].
  - rewrite <- (schema_check_ok (input self) schema InputNotJson
                  InputSchemaMismatch).
    split.
    + intros ([] & Hcheck & _). right. right. by rewrite Hcheck.
    + intros [?|[?|Hcheck]]; [done|done|].
      destruct (schema_check _ _ _ _ _ _).2 as [[]|]; [|done]. by exists ().
  - split; [intros _; right; right; exact I|]. intros _. by exists ().
Qed.

Lemma validate_output_format_ok (info : ValidationInfo) (self : t) :
  is_ok (validate_output_format json_loads validate_schema info self).2 = true
  ↔ output_accepted json_loads validate_schema info self.
Proof.
  unfold validate_output_format, output_accepted.
  destruct (loading_from_file info); [split; by auto|].
  case_bool_decide as Hcache; [split; by auto|].
  destruct (parent_task self) as [task|]; [|split; by auto].
  rewrite and_then_ok. unfold TaskOutput.validate_output_format.
  destruct (Task.output_json_schema task) as [schema|].
  - rewrite <- (schema_check_ok (TaskOutput.output (output self)) schema
                  OutputNotJson OutputSchemaMismatch).
    split.
    + intros (o & Hcheck & _). right. right.
      by destruct (schema_check _ _ _ _ _ _) as [tr [[]|]].
    + intros [?|[?|Hcheck]]; [done|done|].
      destruct (schema_check _ _ _ _ _ _) as [tr [[]|]]; [|done].
      by eexists.
  - split; [intros _; right; right; exact I|]. intros _. by eexists.
Qed.

Lemma validate_data_ok (strict_mode : bool) (info : ValidationInfo)
    (self : t) :
  is_ok (validate_data strict_mode info self) = true
  ↔ repair_invariant self ∧ input_source_given strict_mode info self
    ∧ Forall tag_ok (tags self).
Proof.
  rewrite <- validate_repaired_output_ok, <- check_tags_ok, <- validate_tags_ok.
  unfold validate_data, input_source_given.
  destruct (validate_repaired_output self) as [s3|] eqn:Hrep; simpl;
    [|split; [done|by intros [? _]]].
  pose proof (validate_repaired_output_returns_self _ _ Hrep) as ->.
  unfold validate_input_source.
  destruct strict_mode; simpl.
  - destruct (loaded_from_file info); simpl.
    + split; [by auto|by intros (_ & _ & ?)].
    + destruct (input_source self) as [src|]; simpl.
      * split; [by eauto 6|by intros (_ & _ & ?)].
      * split; [done|]. intros (_ & Hsrc & _).
        destruct (Hsrc eq_refl) as [?|[? ?]]; done.
  - split; [by auto|by intros (_ & _ & ?)].
Qed.

Lemma input_accepted_fields (info : ValidationInfo) (self s : t) :
  input s = input self → parent s = parent self →
  _last_validated_input s = _last_validated_input self →
  input_accepted json_loads validate_schema info s
  ↔ input_accepted json_loads validate_schema info self.
Proof.
  unfold input_accepted, parent_task. by intros -> -> ->.
Qed.

Lemma output_accepted_fields (info : ValidationInfo) (self s : t) :
  output s = output self → parent s = parent self →
  _last_validated_output s = _last_validated_output self →
  output_accepted json_loads validate_schema info s
  ↔ output_accepted json_loads validate_schema info self.
Proof.
  unfold output_accepted, parent_task. by intros -> -> ->.
Qed.

Lemma validate_data_fields (strict_mode : bool) (info : ValidationInfo)
    (self s : t) :
  same_data self s →
  is_ok (validate_data strict_mode info s) = true
  ↔ is_ok (validate_data strict_mode info self) = true.
Proof.
  intros (_ & _ & Hsrc & _ & Hinstr & Hrep & _ & Htags & _).
  rewrite !validate_data_ok. unfold repair_invariant, input_source_given.
  by rewrite Hsrc, Hinstr, Hrep, Htags.
Qed.

(** X15: a validation pass of a run ends without an exception exactly
    when all five validators are satisfied: the input is let through
    (the pass is loading from a file, or the input is the one validated
    last, or the run has no parent task, or the task has no input
    schema, or the input parses as JSON and passes the schema), the
    output likewise against the output schema, repair instructions and
    repaired output come together with no rating on the latter, an
    input source is given if strict mode asks for one, and every tag is
    non-empty and free of spaces. *)
Theorem validation_pass_accepts (strict_mode : bool) (info : ValidationInfo)
    (self : t) :
  is_ok (validate json_loads validate_schema strict_mode info self).2 = true
  ↔ input_accepted json_loads validate_schema info self
    ∧ output_accepted json_loads validate_schema info self
    ∧ repair_invariant self ∧ input_source_given strict_mode info self
    ∧ Forall tag_ok (tags self).
Proof.
  rewrite <- validate_data_ok, <- validate_input_format_ok,
    <- validate_output_format_ok.
  unfold validate. rewrite and_then_ok.
  fold (validate_data strict_mode info).
  split.
  - intros (s1 & H1 & H2). apply and_then_ok in H2 as (s2 & H2 & Hdata).
    simpl in Hdata.
    destruct (validate_input_format _ _ _ _) as [tr1 r1] eqn:Hin.
    destruct (validate_output_format _ _ _ s1) as [tr2 r2] eqn:Hout.
    simpl in H1, H2. subst.
    pose proof (validate_input_format_fields _ _ _ _ _ _ Hin) as Hs1.
    pose proof (validate_output_format_fields _ _ _ _ _ _ Hout) as Hs2.
    split_and!; [done| |].
    + rewrite validate_output_format_ok.
      apply (output_accepted_fields info self s1);
        [by destruct Hs1 as [-> | ->]..|].
      apply validate_output_format_ok. by rewrite Hout.
    + apply (validate_data_fields strict_mode info self s2); [|done].
      unfold same_data. by destruct Hs1 as [-> | ->], Hs2 as [-> | ->].
  - intros (H1 & H2 & Hdata).
    destruct (validate_input_format _ _ _ _) as [tr1 [s1|]] eqn:Hin; [|done].
    pose proof (validate_input_format_fields _ _ _ _ _ _ Hin) as Hs1.
    exists s1. split; [done|]. apply and_then_ok.
    assert (is_ok (validate_output_format json_loads validate_schema info
                     s1).2 = true) as H2'.
    { rewrite validate_output_format_ok.
      apply (output_accepted_fields info self s1);
        [by destruct Hs1 as [-> | ->]..|].
      by apply validate_output_format_ok. }
    destruct (validate_output_format _ _ _ s1) as [tr2 [s2|]] eqn:Hout;
      [|done].
    pose proof (validate_output_format_fields _ _ _ _ _ _ Hout) as Hs2.
    exists s2. split; [done|]. simpl.
    apply (validate_data_fields strict_mode info self s2); [|done].
    unfold same_data. by destruct Hs1 as [-> | ->], Hs2 as [-> | ->].
Qed.

End Acceptance.
